(** * insight-api-gemlink: the block controller (lib/blocks.js)

    A shallow embedding of [BlockController] and proofs about its reward
    schedule, miner attribution, pool lookup, confirmation-gated caches,
    request validation and error paths.

    Conventions of the embedding.
    - A JavaScript string is the list of its UTF-16 code units ([jsstring]).
    - A JavaScript number that holds an integer is a [Z]; [NaN] is kept apart
      ([number]).  Doubles are exact on integers up to 2^53, which covers
      every height, amount and timestamp this controller handles.
    - A request handler is the tree of the calls it makes to its
      collaborators ([prog]): every callback is the continuation of its
      call and receives either the error or the value.  [run] plays a
      handler against a node; the two LRU caches are passed through
      explicitly, one request at a time.
    - The built-ins whose definition is not part of this development
      (regular expressions compiled from strings, UTF-8 decoding, date
      parsing) are fields of a [Runtime]. *)

From Stdlib Require Import ZArith NArith List Bool Lia String Ascii QArith.
From Stdlib Require Import Sorted Permutation.
Import ListNotations.
Open Scope Z_scope.

(** ** JavaScript values *)

Definition jsstring := list N.

(** [js "abc"] is the JavaScript string literal ['abc'] (ASCII only). *)
Definition js (s : string) : jsstring :=
  List.map N_of_ascii (list_ascii_of_string s).

Definition jsstring_eqb (a b : jsstring) : bool :=
  if list_eq_dec N.eq_dec a b then true else false.

Inductive number :=
| Int (z : Z)
| NaN.

Definition number_add (a b : number) : number :=
  match a, b with
  | Int x, Int y => Int (x + y)
  | _, _ => NaN
  end.

Definition number_sub (a b : number) : number :=
  match a, b with
  | Int x, Int y => Int (x - y)
  | _, _ => NaN
  end.

Definition number_mul (a b : number) : number :=
  match a, b with
  | Int x, Int y => Int (x * y)
  | _, _ => NaN
  end.

(** [a > b]: false as soon as one side is NaN. *)
Definition number_gt (a b : number) : bool :=
  match a, b with
  | Int x, Int y => y <? x
  | _, _ => false
  end.

(** Truthiness of a number: neither 0 nor NaN. *)
Definition number_truthy (a : number) : bool :=
  match a with
  | Int x => negb (x =? 0)
  | NaN => false
  end.

(** [a || b] on numbers. *)
Definition number_or (a b : number) : number :=
  if number_truthy a then a else b.

(** *** Number to string and parseInt *)

Definition digit_char (d : Z) : N :=
  Z.to_N (if d <? 10 then 48 + d else 87 + d).

Fixpoint digits_aux (radix : Z) (fuel : nat) (n : Z) (acc : jsstring)
  : jsstring :=
  let acc' := digit_char (n mod radix) :: acc in
  match fuel with
  | O => acc'
  | S f => if n / radix =? 0 then acc' else digits_aux radix f (n / radix) acc'
  end.

(** Digits of a non-negative integer in the given radix (2 to 36), most
    significant first. *)
Definition digits (radix : Z) (n : Z) : jsstring :=
  digits_aux radix (Z.to_nat (Z.log2 n)) n [].

Definition decimal (n : Z) : jsstring := digits 10 n.

(** [n.toString(16)] on an integer. *)
Definition Number_toString16 (n : Z) : jsstring :=
  if n <? 0 then 45%N :: digits 16 (- n) else digits 16 n.

(** [Number.prototype.toString()] on integers below 1e21, and on NaN. *)
Definition Number_toString (x : number) : jsstring :=
  match x with
  | Int n => if n <? 0 then 45%N :: decimal (- n) else decimal n
  | NaN => js "NaN"
  end.

(** StrWhiteSpaceChar: white space and line terminators. *)
Definition is_whitespace (c : N) : bool :=
  ((9 <=? c) && (c <=? 13) || (c =? 32) || (c =? 160) || (c =? 5760)
   || (8192 <=? c) && (c <=? 8202) || (c =? 8232) || (c =? 8233)
   || (c =? 8239) || (c =? 8287) || (c =? 12288) || (c =? 65279))%N.

Fixpoint trim_start (s : jsstring) : jsstring :=
  match s with
  | c :: s' => if is_whitespace c then trim_start s' else s
  | [] => []
  end.

Definition digit_value (radix : Z) (c : N) : option Z :=
  let c := Z.of_N c in
  let v := if (48 <=? c) && (c <=? 57) then Some (c - 48)
           else if (97 <=? c) && (c <=? 122) then Some (c - 87)
           else if (65 <=? c) && (c <=? 90) then Some (c - 55)
           else None in
  match v with
  | Some d => if d <? radix then Some d else None
  | None => None
  end.

(** The longest prefix of radix digits; NaN when it is empty. *)
Fixpoint parse_digits (radix : Z) (s : jsstring) (acc : Z) (seen : bool)
  : number :=
  match s with
  | c :: s' =>
      match digit_value radix c with
      | Some d => parse_digits radix s' (acc * radix + d) true
      | None => if seen then Int acc else NaN
      end
  | [] => if seen then Int acc else NaN
  end.

Definition number_neg (a : number) : number :=
  match a with
  | Int x => Int (- x)
  | NaN => NaN
  end.

(** [parseInt(s)] with no radix argument. *)
Definition parseInt (s : jsstring) : number :=
  let s := trim_start s in
  let '(negative, s) :=
    match s with
    | 45%N :: s' => (true, s')
    | 43%N :: s' => (false, s')
    | _ => (false, s)
    end in
  let '(radix, s) :=
    match s with
    | 48%N :: 120%N :: s' => (16, s')
    | 48%N :: 88%N :: s' => (16, s')
    | _ => (10, s)
    end in
  let r := parse_digits radix s 0 false in
  if negative then number_neg r else r.

(** ** bn.js big integers, as far as the controller uses them *)

Definition BN := Z.

(** [BN.prototype.shrn(bits)]. *)
Definition BN_shrn (b : BN) (bits : Z) : BN := Z.shiftr b bits.

(** [BN.prototype.toString(10)]. *)
Definition BN_toString10 (b : BN) : jsstring := Number_toString (Int b).

(** A BN used as an arithmetic operand is converted through its [toString]:
    the number its decimal digits denote. *)
Definition BN_ToNumber (b : BN) : Z := b.

(** ** getBlockReward

    In the two slow-start branches [subsidy /= 4000] turns the BN into the
    number 2000000000 / 4000, a quotient without remainder, and the result
    is a plain number; in the last branch the shifted BN is read back with
    [parseInt] from its decimal digits. *)

Definition getBlockReward (height : Z) : number :=
  let subsidy : BN := 20 * 100000000 in
  if height <? 4000 / 2 then
    let subsidy := BN_ToNumber subsidy / 4000 in
    let subsidy := subsidy * height in
    Int subsidy
  else if height <? 4000 then
    let subsidy := BN_ToNumber subsidy / 4000 in
    let subsidy := subsidy * (height + 1) in
    Int subsidy
  else
    let halvings := (height - 4000 / 2) / 2102400 in
    if halvings >=? 64 then Int 0
    else
      let subsidy := BN_shrn subsidy halvings in
      parseInt (BN_toString10 subsidy).

(** ** Completions and the JavaScript runtime *)

(** A synchronous computation returns a value or throws. *)
Inductive completion (A : Type) :=
| Normal (a : A)
| Throw.
Arguments Normal {A} a.
Arguments Throw {A}.

(** The built-ins the controller relies on and this development does not
    define: they are taken from the runtime, and every theorem that needs a
    property of one states it.
    - [Buffer_toString_utf8 b] is [b.toString('utf-8')];
    - [String_match text p] tells whether [text.match(p)] is truthy, the
      string [p] being compiled as a regular expression ([Throw]: [p] is not
      a valid pattern);
    - [Date_parse s] is [new Date(s).getTime()];
    - [Date_now] is [new Date().getTime()] during the request. *)
Record Runtime := {
  Buffer_toString_utf8 : list N -> jsstring;
  String_match : jsstring -> jsstring -> completion bool;
  Date_parse : jsstring -> number;
  Date_now : Z
}.

(** *** Plain objects used as maps *)

(** Own enumerable properties, in creation order. *)
Definition object (V : Type) := list (jsstring * V).

Fixpoint obj_get {V} (o : object V) (k : jsstring) : option V :=
  match o with
  | [] => None
  | (k', v) :: o' => if jsstring_eqb k' k then Some v else obj_get o' k
  end.

(** [o[k] = v]: an existing property keeps its place and takes the new
    value, a new one is added last.  (The key [__proto__] is not a property
    of this kind and is no part of the model, see [ordinary_key].) *)
Fixpoint obj_set {V} (o : object V) (k : jsstring) (v : V) : object V :=
  match o with
  | [] => [(k, v)]
  | (k', v') :: o' =>
      if jsstring_eqb k' k then (k', v) :: o' else (k', v') :: obj_set o' k v
  end.

(** A key is an array index when it is the canonical decimal form of an
    integer below 2^32 - 1. *)
Definition array_index (k : jsstring) : option Z :=
  match parse_digits 10 k 0 false with
  | Int n =>
      if jsstring_eqb (decimal n) k && (n <=? 4294967294) then Some n
      else None
  | NaN => None
  end.

Fixpoint insert_index {V} (n : Z) (e : jsstring * V)
    (l : list (Z * (jsstring * V))) : list (Z * (jsstring * V)) :=
  match l with
  | [] => [(n, e)]
  | (m, e') :: l' =>
      if n <? m then (n, e) :: l else (m, e') :: insert_index n e l'
  end.

Fixpoint index_entries {V} (o : object V) : list (Z * (jsstring * V)) :=
  match o with
  | [] => []
  | e :: o' =>
      match array_index (fst e) with
      | Some n => insert_index n e (index_entries o')
      | None => index_entries o'
      end
  end.

Definition named_entries {V} (o : object V) : object V :=
  filter (fun e => match array_index (fst e) with
                   | Some _ => false
                   | None => true
                   end) o.

(** The order in which [for (k in o)] visits the properties: array indices
    in ascending numeric order, then the other keys in creation order. *)
Definition for_in {V} (o : object V) : object V :=
  List.map snd (index_entries o) ++ named_entries o.

Definition ordinary_key (k : jsstring) : Prop :=
  array_index k = None /\ k <> js "__proto__".

(** ** Pool attribution *)

Record Pool := {
  pool_poolName : jsstring;
  pool_url : jsstring;
  searchStrings : list jsstring
}.

Record PoolInfo := {
  poolName : jsstring;
  url : jsstring
}.

(** The constructor's table: [self.poolStrings[s] = {poolName, url}] for
    every search string [s] of every pool, in configuration order. *)
Definition build_poolStrings (pools : list Pool) : object PoolInfo :=
  fold_left
    (fun o pool =>
       fold_left
         (fun o s =>
            obj_set o s {| poolName := pool_poolName pool;
                           url := pool_url pool |})
         (searchStrings pool) o)
    pools [].

(** The loop of getPoolInfo over the keys of poolStrings; [None] is the
    empty object. *)
Fixpoint getPoolInfo_loop (rt : Runtime) (coinbaseBuffer : list N)
    (entries : object PoolInfo) : completion (option PoolInfo) :=
  match entries with
  | [] => Normal None
  | (k, info) :: rest =>
      match String_match rt (Buffer_toString_utf8 rt coinbaseBuffer) k with
      | Throw => Throw
      | Normal true => Normal (Some info)
      | Normal false => getPoolInfo_loop rt coinbaseBuffer rest
      end
  end.

(** A transaction as far as it is read: its id and the script of its first
    input ([inputs[0]._scriptBuffer]). *)
Record Transaction := {
  tx_hash : jsstring;
  tx_scriptBuffer : list N
}.

(** [getPoolInfo(block)], given [block.transactions]. *)
Definition getPoolInfo (rt : Runtime) (poolStrings : object PoolInfo)
    (transactions : list Transaction) : completion (option PoolInfo) :=
  match transactions with
  | [] => Throw
  | tx :: _ => getPoolInfo_loop rt (tx_scriptBuffer tx) (for_in poolStrings)
  end.

(** *** Miner address *)

(** The values an address field takes. *)
Inductive jsvalue :=
| Undefined
| Null
| Str (s : jsstring).

Record Output := {
  satoshis : Z;
  address : jsvalue
}.

(** [output.satoshis !== reward * 0.5], the product being exact. *)
Definition differs_from_half (sat : Z) (reward : number) : bool :=
  match reward with
  | Int r => negb (2 * sat =? r)
  | NaN => true
  end.

(** One turn of the [outputs.forEach] loop on the pair
    (lastBiggestNumber, poolAddress). *)
Definition guess_step (reward : number) (st : Z * jsvalue) (output : Output)
  : Z * jsvalue :=
  let '(lastBiggestNumber, poolAddress) := st in
  if differs_from_half (satoshis output) reward then
    if satoshis output >? lastBiggestNumber
    then (satoshis output, address output)
    else st
  else st.

(** The loop as transformBlock and _getBlockSummary both write it. *)
Definition guessMiner (reward : number) (outputs : list Output) : jsvalue :=
  snd (fold_left (guess_step reward) outputs (0, Undefined)).

(** ** Dates *)

(** Time values are milliseconds since the epoch; [new Date(t)] keeps [t]
    within 8.64e15 ms of it and is an invalid date (NaN) otherwise. *)
Definition new_Date (t : number) : number :=
  match t with
  | Int ms => if Z.abs ms <=? 8640000000000000 then Int ms else NaN
  | NaN => NaN
  end.

(** [Math.round(t / 1000)] for an integer [t]: halves round up. *)
Definition round_seconds (t : number) : number :=
  match t with
  | Int ms => Int ((ms + 500) / 1000)
  | NaN => NaN
  end.

(** Year, month (1 to 12) and day of the UTC date holding a time value. *)
Definition utc_date (ms : Z) : Z * Z * Z :=
  let z := ms / 86400000 + 719468 in
  let era := z / 146097 in
  let doe := z - era * 146097 in
  let yoe := (doe - doe / 1460 + doe / 36524 - doe / 146096) / 365 in
  let doy := doe - (365 * yoe + yoe / 4 - yoe / 100) in
  let mp := (5 * doy + 2) / 153 in
  let d := doy - (153 * mp + 2) / 5 + 1 in
  let m := if mp <? 10 then mp + 3 else mp - 9 in
  let y := yoe + era * 400 + (if m <=? 2 then 1 else 0) in
  (y, m, d).

(** [s[1] ? s : '0' + s[0]] *)
Definition pad2 (s : jsstring) : jsstring :=
  match s with
  | _ :: _ :: _ => s
  | c :: _ => 48%N :: [c]
  | [] => js "0undefined"
  end.

Definition formatTimestamp (date : number) : jsstring :=
  let '(y, m, d) :=
    match date with
    | Int ms => let '(y, m, d) := utc_date ms in (Int y, Int m, Int d)
    | NaN => (NaN, NaN, NaN)
    end in
  let yyyy := Number_toString y in
  let mm := Number_toString m in
  let dd := Number_toString d in
  yyyy ++ js "-" ++ pad2 mm ++ js "-" ++ pad2 dd.

(** ** Request validation patterns *)

Definition is_digit (c : N) : bool := ((48 <=? c) && (c <=? 57))%N.

Definition is_hex_digit (c : N) : bool :=
  (is_digit c || (97 <=? c) && (c <=? 102) || (65 <=? c) && (c <=? 70))%N.

(** [/^[0-9a-fA-F]+$/.test(hash)] on a string. *)
Definition isHexadecimal (hash : jsstring) : bool :=
  match hash with
  | [] => false
  | _ => forallb is_hex_digit hash
  end.

(** The pattern [\d{4}-\d{2}-\d{2}] matched at the head of the string. *)
Definition datePattern_here (s : jsstring) : bool :=
  match s with
  | y1 :: y2 :: y3 :: y4 :: h1 :: m1 :: m2 :: h2 :: d1 :: d2 :: _ =>
      is_digit y1 && is_digit y2 && is_digit y3 && is_digit y4
      && (h1 =? 45)%N && is_digit m1 && is_digit m2
      && (h2 =? 45)%N && is_digit d1 && is_digit d2
  | _ => false
  end.

(** [datePattern.test(dateStr)]: the pattern carries no anchor, so it is
    tried at every position. *)
Fixpoint datePattern_test (s : jsstring) : bool :=
  datePattern_here s
  || match s with
     | [] => false
     | _ :: s' => datePattern_test s'
     end.

(** ** lru-cache *)

Record LRU (V : Type) := {
  lru_max : N;                       (* 0: no bound *)
  lru_list : list (jsstring * V)     (* most recently used first *)
}.
Arguments lru_max {V} _.
Arguments lru_list {V} _.

(** [LRU(max)] *)
Definition LRU_new (V : Type) (max : N) : LRU V :=
  {| lru_max := max; lru_list := [] |}.

Definition remove_key {V} (k : jsstring) (l : list (jsstring * V)) :=
  filter (fun e => negb (jsstring_eqb (fst e) k)) l.

Definition trim {V} (max : N) (l : list (jsstring * V)) :=
  match max with
  | 0%N => l
  | _ => firstn (N.to_nat max) l
  end.

(** [cache.get(key)]: a hit becomes the most recently used entry. *)
Definition LRU_get {V} (c : LRU V) (k : jsstring) : option V * LRU V :=
  match obj_get (lru_list c) k with
  | Some v =>
      (Some v,
       {| lru_max := lru_max c;
          lru_list := (k, v) :: remove_key k (lru_list c) |})
  | None => (None, c)
  end.

(** [cache.set(key, value)]: the entry becomes the most recently used one
    and the least recently used entries beyond [max] are dropped. *)
Definition LRU_set {V} (c : LRU V) (k : jsstring) (v : V) : LRU V :=
  {| lru_max := lru_max c;
     lru_list := trim (lru_max c) ((k, v) :: remove_key k (lru_list c)) |}.

(** A write through a reference obtained from the cache: the cached object
    itself changes. *)
Definition LRU_mutate {V} (c : LRU V) (k : jsstring) (f : V -> V) : LRU V :=
  {| lru_max := lru_max c;
     lru_list :=
       List.map
         (fun e => if jsstring_eqb (fst e) k then (fst e, f (snd e)) else e)
         (lru_list c) |}.

(** [cache.peek(key)]: what a lookup would find, the cache left as it is. *)
Definition LRU_peek {V} (c : LRU V) (k : jsstring) : option V :=
  obj_get (lru_list c) k.

(** ** Data exchanged with the node *)

(** An error object: its numeric [code], when it has one, and its message. *)
Record Error := {
  code : option Z;
  message : jsstring
}.

(** A bitcore block header; [difficulty] is [getDifficulty()]. *)
Module BlockHeader.
Record t := {
  version : Z;
  merkleRoot : jsstring;
  prevHash : jsstring;
  time : Z;
  bits : Z;
  nonce : jsstring;
  solution : jsstring;
  difficulty : Q
}.
End BlockHeader.

(** A bitcore block; [size] is [toBuffer().length]. *)
Module Block.
Record t := {
  hash : jsstring;
  header : BlockHeader.t;
  transactions : list Transaction;
  size : Z
}.
End Block.

(** The reply of getBlockHeader. *)
Module Info.
Record t := {
  hash : jsstring;
  height : Z;
  chainWork : jsstring;
  confirmations : Z;
  nextHash : jsvalue
}.
End Info.

(** The raw block bytes as _getBlockSummary reads them: the buffer length,
    the time of the header, the transaction count and the first
    transaction. *)
Module RawBlock.
Record t := {
  length : Z;
  time : Z;
  txlength : Z;
  coinbase : Transaction
}.
End RawBlock.

(** ** Entities *)

Module BlockDetail.
Record t := {
  hash : jsstring;
  size : Z;
  height : Z;
  version : Z;
  merkleroot : jsstring;
  tx : list jsstring;
  time : Z;
  nonce : jsstring;
  solution : jsstring;
  bits : jsstring;
  difficulty : Q;
  chainwork : jsstring;
  confirmations : Z;
  previousblockhash : jsvalue;
  nextblockhash : jsvalue;
  reward : option Q;               (* None: NaN *)
  minedBy : jsvalue;
  isMainChain : bool;
  poolInfo : option PoolInfo       (* None: the empty object *)
}.

(** [block.confirmations = c] *)
Definition set_confirmations (c : Z) (b : t) : t :=
  {| hash := hash b; size := size b; height := height b;
     version := version b; merkleroot := merkleroot b; tx := tx b;
     time := time b; nonce := nonce b; solution := solution b;
     bits := bits b; difficulty := difficulty b; chainwork := chainwork b;
     confirmations := c;
     previousblockhash := previousblockhash b;
     nextblockhash := nextblockhash b; reward := reward b;
     minedBy := minedBy b; isMainChain := isMainChain b;
     poolInfo := poolInfo b |}.
End BlockDetail.

Module Summary.
Record t := {
  height : Z;
  size : Z;
  hash : jsstring;
  time : Z;
  txlength : Z;
  poolInfo : option PoolInfo;
  minedBy : jsvalue
}.
End Summary.

Module Pagination.
Record t := {
  next : jsvalue;
  prev : jsstring;
  currentTs : number;
  current : jsstring;
  isToday : bool;
  more : bool;
  moreTs : option number           (* None: the field is absent *)
}.
End Pagination.

Module ListData.
Record t := {
  blocks : list Summary.t;
  length : Z;
  pagination : Pagination.t
}.
End ListData.

(** ** The controller *)

Definition BLOCK_LIMIT : Z := 200.
Definition DEFAULT_BLOCKSUMMARY_CACHE_SIZE : N := 1000000.
Definition DEFAULT_BLOCK_CACHE_SIZE : N := 1000.

Record BlockController := {
  blockSummaryCache : LRU Summary.t;
  blockCacheConfirmations : Z;
  blockCache : LRU BlockDetail.t;
  poolStrings : object PoolInfo
}.

Record Options := {
  blockSummaryCacheSize : option N;
  blockCacheSize : option N
}.

(** [a || b] on an optional size: 0 and undefined give way to [b]. *)
Definition size_or (a : option N) (b : N) : N :=
  match a with
  | Some (Npos n) => Npos n
  | _ => b
  end.

(** [new BlockController(options)], [pools] being the content of
    pools.json. *)
Definition new_BlockController (pools : list Pool) (options : Options)
  : BlockController :=
  {| blockSummaryCache :=
       LRU_new Summary.t
         (size_or (blockSummaryCacheSize options)
                  DEFAULT_BLOCKSUMMARY_CACHE_SIZE);
     blockCacheConfirmations := 6;
     blockCache :=
       LRU_new BlockDetail.t
         (size_or (blockCacheSize options) DEFAULT_BLOCK_CACHE_SIZE);
     poolStrings := build_poolStrings pools |}.

Definition with_blockCache (self : BlockController) (c : LRU BlockDetail.t)
  : BlockController :=
  {| blockSummaryCache := blockSummaryCache self;
     blockCacheConfirmations := blockCacheConfirmations self;
     blockCache := c;
     poolStrings := poolStrings self |}.

Definition with_blockSummaryCache (self : BlockController)
    (c : LRU Summary.t) : BlockController :=
  {| blockSummaryCache := c;
     blockCacheConfirmations := blockCacheConfirmations self;
     blockCache := blockCache self;
     poolStrings := poolStrings self |}.

(** *** Calls to the collaborators

    Each constructor is a call whose callback receives either an error or
    the value; [bitcoind_height] is the read of
    [node.services.bitcoind.height]. *)
Inductive call : Type -> Type :=
| node_getBlock (hash : jsstring) : call (Error + Block.t)
| node_getRawBlock (hash : jsstring) : call (Error + list N)
| bitcoind_height : call Z
| bitcoind_getBlockHeader (hash : jsstring) : call (Error + Info.t)
| bitcoind_getRawBlock (hash : jsstring) : call (Error + RawBlock.t)
| bitcoind_getBlockHashesByTimestamp (high low : number)
  : call (Error + list jsstring)
| client_getBlock (hash : jsstring) : call (Error + list jsstring)
| getDetailedTransaction (txid : jsvalue) : call (Error + list Output).

(** A handler is the tree of its collaborator calls: [Call c k] issues [c]
    and goes on with the callback [k]. *)
Inductive prog (A : Type) : Type :=
| Ret (a : A)
| Call {R : Type} (c : call R) (k : R -> prog A).
Arguments Ret {A} a.
Arguments Call {A R} c k.

Fixpoint bind {A B} (p : prog A) (f : A -> prog B) : prog B :=
  match p with
  | Ret a => f a
  | Call c k => Call c (fun r => bind (k r) f)
  end.

(** The collaborators: what each call is answered. *)
Record Node := {
  reply : forall R : Type, call R -> R
}.

Fixpoint run {A} (node : Node) (p : prog A) : A :=
  match p with
  | Ret a => a
  | Call c k => run node (k (reply node _ c))
  end.

Inductive event :=
| Event {R : Type} (c : call R).

(** The calls a handler makes, in order. *)
Fixpoint calls {A} (node : Node) (p : prog A) : list event :=
  match p with
  | Ret _ => []
  | Call c k => Event c :: calls node (k (reply node _ c))
  end.

(** How a handler ends.  [HandleErrors err] is the call
    [self.common.handleErrors(err, res)], the helper itself being outside
    this file: the controller passes it [null] ([None]) for what it holds to
    be not found, and the error it received otherwise. *)
Inductive outcome (A : Type) :=
| Next (a : A)                         (* next() or res.jsonp, with [a] *)
| HandleErrors (err : option Error)    (* self.common.handleErrors(err, res) *)
| Uncaught.                            (* an exception leaves the callback *)
Arguments Next {A} a.
Arguments HandleErrors {A} err.
Arguments Uncaught {A}.

(** [(err && err.code === -5) || (err && err.code === -8)] *)
Definition not_found_code (err : Error) : bool :=
  match code err with
  | Some c => (c =? -5) || (c =? -8)
  | None => false
  end.

(** *** checkBlockHash *)

Definition checkBlockHash (hash : jsstring) : outcome unit :=
  if (Z.of_nat (List.length hash) <? 64) || negb (isHexadecimal hash)
  then HandleErrors None
  else Next tt.

(** *** transformBlock *)

Definition null_hash : jsstring :=
  js "0000000000000000000000000000000000000000000000000000000000000000".

Definition _normalizePrevHash (hash : jsstring) : jsvalue :=
  if negb (jsstring_eqb hash null_hash) then Str hash else Null.

(** [x / 1e8], kept as the exact quotient. *)
Definition div_1e8 (x : number) : option Q :=
  match x with
  | Int z => Some (z # 100000000)
  | NaN => None
  end.

Definition transformBlock (rt : Runtime) (self : BlockController)
    (block : Block.t) (info : Info.t) (transaction : option (list Output))
  : completion BlockDetail.t :=
  let transactionIds := List.map tx_hash (Block.transactions block) in
  let poolAddress :=
    match transaction with
    | Some outputs =>
        let reward := getBlockReward (Info.height info) in
        guessMiner reward outputs
    | None => Undefined
    end in
  let header := Block.header block in
  match getPoolInfo rt (poolStrings self) (Block.transactions block) with
  | Throw => Throw
  | Normal pool =>
      Normal
        {| BlockDetail.hash := Block.hash block;
           BlockDetail.size := Block.size block;
           BlockDetail.height := Info.height info;
           BlockDetail.version := BlockHeader.version header;
           BlockDetail.merkleroot := BlockHeader.merkleRoot header;
           BlockDetail.tx := transactionIds;
           BlockDetail.time := BlockHeader.time header;
           BlockDetail.nonce := BlockHeader.nonce header;
           BlockDetail.solution := BlockHeader.solution header;
           BlockDetail.bits := Number_toString16 (BlockHeader.bits header);
           BlockDetail.difficulty := BlockHeader.difficulty header;
           BlockDetail.chainwork := Info.chainWork info;
           BlockDetail.confirmations := Info.confirmations info;
           BlockDetail.previousblockhash :=
             _normalizePrevHash (BlockHeader.prevHash header);
           BlockDetail.nextblockhash := Info.nextHash info;
           BlockDetail.reward := div_1e8 (getBlockReward (Info.height info));
           BlockDetail.minedBy := poolAddress;
           BlockDetail.isMainChain := negb (Info.confirmations info =? -1);
           BlockDetail.poolInfo := pool |}
  end.

Arguments getBlockReward : simpl never.
Arguments guessMiner : simpl never.
Arguments getPoolInfo : simpl never.
Arguments transformBlock : simpl never.

(** *** block: find a block by hash *)

Definition block (rt : Runtime) (self : BlockController) (hash : jsstring)
  : prog (outcome BlockDetail.t * BlockController) :=
  let '(blockCached, cache) := LRU_get (blockCache self) hash in
  match blockCached with
  | Some blockCached =>
      Call bitcoind_height (fun tip =>
        let confirmations := tip - BlockDetail.height blockCached + 1 in
        let update := BlockDetail.set_confirmations confirmations in
        Ret (Next (update blockCached),
             with_blockCache self (LRU_mutate cache hash update)))
  | None =>
      Call (node_getBlock hash) (fun r =>
        match r with
        | inl err =>
            if not_found_code err
            then Ret (HandleErrors None, self)
            else Ret (HandleErrors (Some err), self)
        | inr blk =>
            Call (bitcoind_getBlockHeader hash) (fun r =>
              match r with
              | inl err => Ret (HandleErrors (Some err), self)
              | inr info =>
                  match Block.transactions blk with
                  | [] => Ret (Uncaught, self)
                  | tx0 :: _ =>
                      let txHash := tx_hash tx0 in
                      Call (getDetailedTransaction (Str txHash)) (fun r =>
                        let trx :=
                          match r with
                          | inl _ => None
                          | inr outputs => Some outputs
                          end in
                        match transformBlock rt self blk info trx with
                        | Throw => Ret (Uncaught, self)
                        | Normal blockResult =>
                            let cache :=
                              if BlockDetail.confirmations blockResult
                                 >=? blockCacheConfirmations self
                              then LRU_set (blockCache self) hash blockResult
                              else blockCache self in
                            Ret (Next blockResult, with_blockCache self cache)
                        end)
                  end
              end)
        end)
  end.

(** *** rawBlock *)

Definition hex_byte (b : N) : jsstring :=
  [digit_char (Z.of_N b / 16); digit_char (Z.of_N b mod 16)].

(** [blockBuffer.toString('hex')] *)
Definition Buffer_toString_hex (b : list N) : jsstring :=
  flat_map hex_byte b.

Definition rawBlock (blockHash : jsstring) : prog (outcome jsstring) :=
  Call (node_getRawBlock blockHash) (fun r =>
    match r with
    | inl err =>
        if not_found_code err
        then Ret (HandleErrors None)
        else Ret (HandleErrors (Some err))
    | inr blockBuffer => Ret (Next (Buffer_toString_hex blockBuffer))
    end).

(** *** blockIndex

    [getBlockHeader] is here called with a number, the parsed height, and
    not with a hash: its answer is the argument [getBlockHeader]. *)
Definition blockIndex (getBlockHeader : number -> Error + Info.t)
    (height : jsstring) : outcome jsstring :=
  match getBlockHeader (parseInt height) with
  | inl err => HandleErrors (Some err)
  | inr info => Next (Info.hash info)
  end.

(** *** _getBlockSummary *)

(** What _getBlockSummary leaves behind: the arguments it gave to [next]
    ([Throw] when an exception left a callback instead), the last value of
    its own parameter [moreTimestamp], and the summary cache. *)
Record SummaryResult := {
  passed : completion (Error + Summary.t);
  moreTimestamp_local : number;
  summaryCache_after : LRU Summary.t
}.

(** The inner function [finish]: its assignment is to the parameter
    [moreTimestamp] of _getBlockSummary. *)
Definition finish (moreTimestamp : number) (cache : LRU Summary.t)
    (result : Summary.t) : SummaryResult :=
  let moreTimestamp :=
    if number_gt moreTimestamp (Int (Summary.time result))
    then Int (Summary.time result)
    else moreTimestamp in
  {| passed := Normal (inr result);
     moreTimestamp_local := moreTimestamp;
     summaryCache_after := cache |}.

Definition _getBlockSummary (rt : Runtime) (self : BlockController)
    (cache : LRU Summary.t) (hash : jsstring) (moreTimestamp : number)
  : prog SummaryResult :=
  let stop (r : completion (Error + Summary.t)) :=
    {| passed := r; moreTimestamp_local := moreTimestamp;
       summaryCache_after := cache |} in
  let '(summaryCache, cache1) := LRU_get cache hash in
  match summaryCache with
  | Some summaryCache => Ret (finish moreTimestamp cache1 summaryCache)
  | None =>
      Call (bitcoind_getRawBlock hash) (fun r =>
        match r with
        | inl err => Ret (stop (Normal (inl err)))
        | inr blockBuffer =>
            let transactions := [RawBlock.coinbase blockBuffer] in
            Call (client_getBlock hash) (fun r =>
              match r with
              | inl _ => Ret (stop Throw)
              | inr tx =>
                  let txHash :=
                    match tx with
                    | [] => Undefined
                    | h :: _ => Str h
                    end in
                  Call (getDetailedTransaction txHash) (fun r =>
                    let trx := r in
                    Call (bitcoind_getBlockHeader hash) (fun r =>
                      match r with
                      | inl err => Ret (stop (Normal (inl err)))
                      | inr blockHeader =>
                          let height := Info.height blockHeader in
                          let reward := getBlockReward height in
                          match trx with
                          | inl _ => Ret (stop Throw)
                          | inr outputs =>
                              let poolAddress := guessMiner reward outputs in
                              match getPoolInfo rt (poolStrings self)
                                      transactions with
                              | Throw => Ret (stop Throw)
                              | Normal pool =>
                                  let summary :=
                                    {| Summary.height := height;
                                       Summary.size :=
                                         RawBlock.length blockBuffer;
                                       Summary.hash := hash;
                                       Summary.time :=
                                         RawBlock.time blockBuffer;
                                       Summary.txlength :=
                                         RawBlock.txlength blockBuffer;
                                       Summary.poolInfo := pool;
                                       Summary.minedBy := poolAddress |} in
                                  Call bitcoind_height (fun tip =>
                                    let confirmations := tip - height + 1 in
                                    let cache2 :=
                                      if confirmations
                                         >=? blockCacheConfirmations self
                                      then LRU_set cache hash summary
                                      else cache in
                                    Ret (finish moreTimestamp cache2 summary))
                              end
                          end
                      end))
              end)
        end)
  end.

(** *** list: blocks by date *)

(** The query string of the request; [None] is an absent parameter. *)
Record Query := {
  blockDate : option jsstring;
  startTimestamp : option jsstring;
  limit : option jsstring
}.

(** Truthiness of a parameter: present and not empty. *)
Definition truthy (s : option jsstring) : bool :=
  match s with
  | Some (_ :: _) => true
  | _ => false
  end.

(** The string a parameter becomes as an argument of parseInt. *)
Definition ToString (s : option jsstring) : jsstring :=
  match s with
  | Some s => s
  | None => js "undefined"
  end.

(** [l.slice(0, e)] *)
Definition slice0 {A} (l : list A) (e : Z) : list A :=
  let len := Z.of_nat (List.length l) in
  let final := if e <? 0 then Z.max (len + e) 0 else Z.min e len in
  firstn (Z.to_nat final) l.

Fixpoint insert_by_height (x : Summary.t) (l : list Summary.t)
  : list Summary.t :=
  match l with
  | [] => [x]
  | y :: l' =>
      if Summary.height y <=? Summary.height x then x :: l
      else y :: insert_by_height x l'
  end.

(** [blocks.sort(function (a, b) { return b.height - a.height; })], as a
    stable sort. *)
Definition sort_blocks (blocks : list Summary.t) : list Summary.t :=
  fold_right insert_by_height [] blocks.

(** [async.mapSeries]: the items one after the other, the state handed
    from one to the next; the first error, or exception, ends the series. *)
Fixpoint mapSeries {X Y S : Type}
    (iteratee : X -> S -> prog (completion (Error + Y) * S))
    (items : list X) (s : S) : prog (completion (Error + list Y) * S) :=
  match items with
  | [] => Ret (Normal (inr []), s)
  | x :: rest =>
      bind (iteratee x s) (fun '(r, s1) =>
        match r with
        | Throw => Ret (Throw, s1)
        | Normal (inl err) => Ret (Normal (inl err), s1)
        | Normal (inr y) =>
            bind (mapSeries iteratee rest s1) (fun '(r', s2) =>
              match r' with
              | Normal (inr ys) => Ret (Normal (inr (y :: ys)), s2)
              | Normal (inl err) => Ret (Normal (inl err), s2)
              | Throw => Ret (Throw, s2)
              end)
        end)
  end.

Definition format_error : Error :=
  {| code := None; message := js "Please use yyyy-mm-dd format" |}.

(** The first statements of list: the date to list and whether it is
    today; [None] when the date given does not pass [datePattern]. *)
Definition resolve_date (rt : Runtime) (query : Query)
  : option (jsstring * bool) :=
  let todayStr := formatTimestamp (new_Date (Int (Date_now rt))) in
  if truthy (blockDate query) then
    let dateStr := ToString (blockDate query) in
    if negb (datePattern_test dateStr) then None
    else Some (dateStr, jsstring_eqb dateStr todayStr)
  else Some (todayStr, true).

(** [var gte = Math.round((new Date(dateStr)).getTime() / 1000)] *)
Definition list_gte (rt : Runtime) (dateStr : jsstring) : number :=
  round_seconds (Date_parse rt dateStr).

(** [var lte = parseInt(req.query.startTimestamp) || gte + 86400] *)
Definition list_lte (rt : Runtime) (query : Query) (dateStr : jsstring)
  : number :=
  number_or (parseInt (ToString (startTimestamp query)))
            (number_add (list_gte rt dateStr) (Int 86400)).

(** [var limit = parseInt(req.query.limit || BLOCK_LIMIT)] *)
Definition list_limit (query : Query) : number :=
  parseInt (if truthy (limit query) then ToString (limit query)
            else Number_toString (Int BLOCK_LIMIT)).

(** The hashes in reverse order, cut to the limit: the flag [more] and the
    hashes that are kept. *)
Definition retained_hashes (limit : number) (hashes : list jsstring)
  : bool * list jsstring :=
  let hashes := rev hashes in
  match limit with
  | Int n =>
      if Z.of_nat (List.length hashes) >? n
      then (true, slice0 hashes n)
      else (false, hashes)
  | NaN => (false, hashes)
  end.

(** The [async.mapSeries] call of list: every summary is asked with the
    value of list's variable [moreTimestamp]; what _getBlockSummary does to
    its own parameter is not seen here. *)
Definition list_summaries (rt : Runtime) (self : BlockController)
    (moreTimestamp : number) (hashes : list jsstring) (cache : LRU Summary.t)
  : prog (completion (Error + list Summary.t) * LRU Summary.t) :=
  mapSeries
    (fun hash cache =>
       bind (_getBlockSummary rt self cache hash moreTimestamp)
            (fun r => Ret (passed r, summaryCache_after r)))
    hashes cache.

(** The handler is [prototype.list]: the name [list] alone stays the type
    of lists. *)
Module prototype.
Definition list (rt : Runtime) (self : BlockController) (query : Query)
  : prog (outcome ListData.t * BlockController) :=
  match resolve_date rt query with
  | None => Ret (HandleErrors (Some format_error), self)
  | Some (dateStr, isToday) =>
      let gte := list_gte rt dateStr in
      let lte := list_lte rt query dateStr in
      let prev :=
        formatTimestamp
          (new_Date (number_mul (number_sub gte (Int 86400)) (Int 1000))) in
      let next :=
        if number_truthy lte
        then Str (formatTimestamp (new_Date (number_mul lte (Int 1000))))
        else Null in
      let limit := list_limit query in
      let moreTimestamp := lte in
      Call (bitcoind_getBlockHashesByTimestamp lte gte) (fun r =>
        match r with
        | inl err => Ret (HandleErrors (Some err), self)
        | inr hashes =>
            let '(more, hashes) := retained_hashes limit hashes in
            bind
              (list_summaries rt self moreTimestamp hashes
                 (blockSummaryCache self))
              (fun '(r, cache) =>
                 let self := with_blockSummaryCache self cache in
                 match r with
                 | Throw => Ret (Uncaught, self)
                 | Normal (inl err) => Ret (HandleErrors (Some err), self)
                 | Normal (inr blocks) =>
                     let blocks := sort_blocks blocks in
                     let data :=
                       {| ListData.blocks := blocks;
                          ListData.length := Z.of_nat (List.length blocks);
                          ListData.pagination :=
                            {| Pagination.next := next;
                               Pagination.prev := prev;
                               Pagination.currentTs :=
                                 number_sub lte (Int 1);
                               Pagination.current := dateStr;
                               Pagination.isToday := isToday;
                               Pagination.more := more;
                               Pagination.moreTs :=
                                 if more then Some moreTimestamp
                                 else None |} |} in
                     Ret (Next data, self)
                 end)
        end)
  end.
End prototype.

(** ** The specification's wording, for comparison with the code *)

(** [returned] is the cached record read under the tip height [tip]: its
    confirmations are tip - height + 1, whatever they were when the record
    was stored or last read, and every other field is the cached one. *)
Definition recomputed_against (tip : Z) (cached returned : BlockDetail.t)
  : Prop :=
  BlockDetail.confirmations returned = tip - BlockDetail.height cached + 1
  /\ BlockDetail.hash returned = BlockDetail.hash cached
  /\ BlockDetail.size returned = BlockDetail.size cached
  /\ BlockDetail.height returned = BlockDetail.height cached
  /\ BlockDetail.version returned = BlockDetail.version cached
  /\ BlockDetail.merkleroot returned = BlockDetail.merkleroot cached
  /\ BlockDetail.tx returned = BlockDetail.tx cached
  /\ BlockDetail.time returned = BlockDetail.time cached
  /\ BlockDetail.nonce returned = BlockDetail.nonce cached
  /\ BlockDetail.solution returned = BlockDetail.solution cached
  /\ BlockDetail.bits returned = BlockDetail.bits cached
  /\ BlockDetail.difficulty returned = BlockDetail.difficulty cached
  /\ BlockDetail.chainwork returned = BlockDetail.chainwork cached
  /\ BlockDetail.previousblockhash returned
     = BlockDetail.previousblockhash cached
  /\ BlockDetail.nextblockhash returned = BlockDetail.nextblockhash cached
  /\ BlockDetail.reward returned = BlockDetail.reward cached
  /\ BlockDetail.minedBy returned = BlockDetail.minedBy cached
  /\ BlockDetail.isMainChain returned = BlockDetail.isMainChain cached
  /\ BlockDetail.poolInfo returned = BlockDetail.poolInfo cached.

(** An output is considered when its amount is not exactly half the
    reward. *)
Definition considered (reward : number) (o : Output) : Prop :=
  match reward with
  | Int r => 2 * satoshis o <> r
  | NaN => True
  end.

(** [o], at position [i], has the largest amount among the considered
    outputs and is the first to have it. *)
Definition first_largest (reward : number) (outputs : list Output)
    (i : nat) (o : Output) : Prop :=
  nth_error outputs i = Some o
  /\ considered reward o
  /\ (forall o', In o' outputs -> considered reward o' ->
       satoshis o' <= satoshis o)
  /\ (forall j o', (j < i)%nat -> nth_error outputs j = Some o' ->
       considered reward o' -> satoshis o' < satoshis o).

Definition hex_digits : jsstring := js "0123456789abcdefABCDEF".

(** The characters with a meaning of their own in a regular expression;
    a pattern without any of them matches where it occurs literally. *)
Definition syntax_characters : jsstring := js "^$\.*+?()[]{}|".

Definition literal (k : jsstring) : Prop :=
  forall c, In c k -> ~ In c syntax_characters.

Fixpoint prefixb (k t : jsstring) : bool :=
  match k, t with
  | [], _ => true
  | a :: k', b :: t' => (a =? b)%N && prefixb k' t'
  | _ :: _, [] => false
  end.

(** [k] occurs in [t] as a substring. *)
Fixpoint occursb (k t : jsstring) : bool :=
  prefixb k t
  || match t with
     | [] => false
     | _ :: t' => occursb k t'
     end.

Definition occurs (k t : jsstring) : Prop :=
  exists pre post, t = pre ++ k ++ post.

Definition literalb (k : jsstring) : bool :=
  forallb (fun c => negb (existsb (N.eqb c) syntax_characters)) k.

(** The order the listing sorts its blocks in. *)
Definition descending (a b : Summary.t) : Prop :=
  Summary.height b <= Summary.height a.

(** What the runtime owes for patterns without syntax characters. *)
Definition literal_matching (rt : Runtime) : Prop :=
  forall text k, literal k -> String_match rt text k = Normal (occursb k text).

(** The configuration as the list of its (signature, pool) pairs, in the
    order the constructor visits them. *)
Definition config_entries (pools : list Pool) : list (jsstring * PoolInfo) :=
  flat_map
    (fun pool =>
       List.map
         (fun s => (s, {| poolName := pool_poolName pool;
                          url := pool_url pool |}))
         (searchStrings pool))
    pools.

(** The table after the assignments [es], starting from [o]. *)
Definition build_from (o : object PoolInfo) (es : list (jsstring * PoolInfo))
  : object PoolInfo :=
  fold_left (fun o e => obj_set o (fst e) (snd e)) es o.

(** ** A runtime for the examples

    Exact on what the examples below use: buffers of ASCII bytes, patterns
    whose only syntax character is the dot, and the date 2024-01-01. *)

Definition line_terminator (c : N) : bool :=
  ((c =? 10) || (c =? 13) || (c =? 8232) || (c =? 8233))%N.

Definition atom_matches (p c : N) : bool :=
  if (p =? 46)%N then negb (line_terminator c) else (p =? c)%N.

Fixpoint match_here (p t : jsstring) : bool :=
  match p, t with
  | [], _ => true
  | a :: p', c :: t' => atom_matches a c && match_here p' t'
  | _ :: _, [] => false
  end.

Fixpoint match_anywhere (p t : jsstring) : bool :=
  match_here p t
  || match t with
     | [] => false
     | _ :: t' => match_anywhere p t'
     end.

Definition example_runtime : Runtime :=
  {| Buffer_toString_utf8 := fun bytes => bytes;
     String_match := fun text p => Normal (match_anywhere p text);
     Date_parse := fun s =>
       if jsstring_eqb s (js "2024-01-01") then Int 1704067200000 else NaN;
     Date_now := 1704153600000 |}.

(** The pool the specification's wording designates: the one of the first
    (signature, pool) pair of the configuration whose signature occurs in
    the text; [None] is the empty object. *)
Definition pool_of_first_signature (text : jsstring) (pools : list Pool)
  : option PoolInfo :=
  option_map snd (find (fun e => occursb (fst e) text) (config_entries pools)).

(** *** Example data *)

Definition example_pool (name site : string) (signatures : list string)
  : Pool :=
  {| pool_poolName := js name; pool_url := js site;
     searchStrings := List.map js signatures |}.

Definition example_info (name site : string) : PoolInfo :=
  {| poolName := js name; url := js site |}.

(** A coinbase transaction whose input script is the bytes of [script]. *)
Definition example_coinbase (script : string) : Transaction :=
  {| tx_hash := js "c0"; tx_scriptBuffer := js script |}.

Definition example_header : BlockHeader.t :=
  {| BlockHeader.version := 4;
     BlockHeader.merkleRoot := js "aa";
     BlockHeader.prevHash := js "bb";
     BlockHeader.time := 1704070000;
     BlockHeader.bits := 486604799;
     BlockHeader.nonce := js "00";
     BlockHeader.solution := js "01";
     BlockHeader.difficulty := 1 |}.

Definition example_block (hash : jsstring) : Block.t :=
  {| Block.hash := hash;
     Block.header := example_header;
     Block.transactions := [example_coinbase "mined by x"];
     Block.size := 1500 |}.

Definition example_outputs : list Output :=
  [ {| satoshis := 500000000; address := Str (js "A") |};
    {| satoshis := 1000000000; address := Str (js "B") |};
    {| satoshis := 1000000000; address := Str (js "C") |} ].

(** The height the example node gives a block: the number its hash spells in
    decimal, so that distinct hashes stand for distinct blocks. *)
Definition example_height (hash : jsstring) : Z :=
  match parseInt hash with
  | Int n => n
  | NaN => 0
  end.

(** A node whose chain tip is at height [tip] and which holds every block;
    [blockError], [rawBlockError] and [txError], when given, are what the
    node's getBlock and getRawBlock, bitcoind's getRawBlock and
    getDetailedTransaction answer instead of a value; [hashes] is the
    answer of getBlockHashesByTimestamp. *)
Definition example_node (tip : Z)
    (blockError rawBlockError txError : option Error)
    (hashes : list jsstring) : Node :=
  {| reply := fun R (c : call R) =>
       match c in call R return R with
       | node_getBlock hash =>
           match blockError with
           | Some err => inl err
           | None => inr (example_block hash)
           end
       | node_getRawBlock hash =>
           match blockError with
           | Some err => inl err
           | None => inr [1; 2; 255]%N
           end
       | bitcoind_height => tip
       | bitcoind_getBlockHeader hash =>
           inr {| Info.hash := hash;
                  Info.height := example_height hash;
                  Info.chainWork := js "0f";
                  Info.confirmations := tip - example_height hash + 1;
                  Info.nextHash := Null |}
       | bitcoind_getRawBlock hash =>
           match rawBlockError with
           | Some err => inl err
           | None =>
               inr {| RawBlock.length := 1500;
                      RawBlock.time := 1704067200 + example_height hash;
                      RawBlock.txlength := 1;
                      RawBlock.coinbase := example_coinbase "mined by x" |}
           end
       | bitcoind_getBlockHashesByTimestamp high low => inr hashes
       | client_getBlock hash => inr [js "c0"]
       | getDetailedTransaction txid =>
           match txError with
           | Some err => inl err
           | None => inr example_outputs
           end
       end |}.

Definition example_controller : BlockController :=
  new_BlockController
    [example_pool "P1" "u1" ["x"%string]]
    {| blockSummaryCacheSize := None; blockCacheSize := None |}.

Definition example_query (date : string) (limit : option string) : Query :=
  {| blockDate := Some (js date);
     startTimestamp := None;
     limit := option_map js limit |}.

Definition not_found_error : Error :=
  {| code := Some (-5); message := js "Block not found" |}.

Definition connection_error : Error :=
  {| code := None; message := js "connect ECONNREFUSED" |}.

(** ** Notions the further properties are stated with *)

(** *** Rewards *)

(** The reward as an integer: what getBlockReward returns at every height
    from 0 on. *)
Definition reward_value (h : Z) : Z :=
  match getBlockReward h with
  | Int z => z
  | NaN => 0
  end.

(** The rewards of the [n] blocks from height [lo] on, added up. *)
Fixpoint reward_sum (lo : Z) (n : nat) : Z :=
  match n with
  | O => 0
  | S n' => reward_value lo + reward_sum (lo + 1) n'
  end.

(** The full subsidy shifted by 0, 1, ..., [k] bits, added up. *)
Fixpoint shifted_sum (k : nat) : Z :=
  Z.shiftr (20 * 100000000) (Z.of_nat k)
  + match k with
    | O => 0
    | S k' => shifted_sum k'
    end.

(** *** Caches *)

(** What the library keeps of a cache: distinct keys and, under a bound, no
    more entries than the bound. *)
Definition LRU_wf {V} (c : LRU V) : Prop :=
  NoDup (List.map fst (lru_list c))
  /\ (lru_max c <> 0%N ->
      (List.length (lru_list c) <= N.to_nat (lru_max c))%nat).

Definition main_chain_only (c : LRU BlockDetail.t) : Prop :=
  forall k b, In (k, b) (lru_list c) -> BlockDetail.isMainChain b = true.

Definition block_cache_ok (self : BlockController) : Prop :=
  blockCacheConfirmations self = 6
  /\ LRU_wf (blockCache self)
  /\ main_chain_only (blockCache self).

(** Every cached summary sits under its own hash. *)
Definition summaries_keyed (c : LRU Summary.t) : Prop :=
  forall k s, In (k, s) (lru_list c) -> Summary.hash s = k.

Definition summary_cache_ok (bound : N) (c : LRU Summary.t) : Prop :=
  lru_max c = bound /\ LRU_wf c /\ summaries_keyed c.

Definition controller_ok (blockBound summaryBound : N)
    (self : BlockController) : Prop :=
  block_cache_ok self
  /\ lru_max (blockCache self) = blockBound
  /\ summary_cache_ok summaryBound (blockSummaryCache self).

(** The requests that touch the caches. *)
Inductive request :=
| BlockRequest (hash : jsstring)
| ListRequest (query : Query).

(** Requests served one after the other, each with the node as it is at
    that time. *)
Fixpoint serve (rt : Runtime) (requests : list (Node * request))
    (self : BlockController) : BlockController :=
  match requests with
  | [] => self
  | (node, BlockRequest hash) :: rest =>
      serve rt rest (snd (run node (block rt self hash)))
  | (node, ListRequest query) :: rest =>
      serve rt rest (snd (run node (prototype.list rt self query)))
  end.

(** *** Listings *)

(** A summary was passed on, neither an error nor an exception. *)
Definition succeeded {A} (r : completion (Error + A)) : bool :=
  match r with
  | Normal (inr _) => true
  | _ => false
  end.

(** How many of [len] hashes a listing keeps: all of them when the limit is
    not below [len] or is not a number; otherwise what [slice(0, limit)]
    keeps, a negative limit counting from the end. *)
Definition kept_count (limit : number) (len : Z) : Z :=
  match limit with
  | Int n =>
      if n <? len then (if n <? 0 then Z.max (len + n) 0 else n) else len
  | NaN => len
  end.

(** The integers a double holds exactly, and NaN: the numbers whose
    [toString] is [Number_toString]. *)
Definition safe_integer (x : number) : Prop :=
  match x with
  | Int z => Z.abs z <= 9007199254740991
  | NaN => True
  end.

(** The request that follows a page: the same query, with the value of
    moreTs as startTimestamp. *)
Definition follow (query : Query) (ts : number) : Query :=
  {| blockDate := blockDate query;
     startTimestamp := Some (Number_toString ts);
     limit := limit query |}.

(** *** Checks by enumeration *)

(** [P] on the [n] integers from [lo] on. *)
Fixpoint all_from (P : Z -> bool) (lo : Z) (n : nat) : bool :=
  match n with
  | O => true
  | S n' => if P lo then all_from P (lo + 1) n' else false
  end.

(** The part of [utc_date] that depends on the day of the 400-year era
    only: the year within the era, the month and the day. *)
Definition era_date (doe : Z) : Z * Z * Z :=
  let yoe := (doe - doe / 1460 + doe / 36524 - doe / 146096) / 365 in
  let doy := doe - (365 * yoe + yoe / 4 - yoe / 100) in
  let mp := (5 * doy + 2) / 153 in
  let d := doy - (153 * mp + 2) / 5 + 1 in
  let m := if mp <? 10 then mp + 3 else mp - 9 in
  (yoe + (if m <=? 2 then 1 else 0), m, d).

Definition era_date_ok (doe : Z) : bool :=
  let '(y, m, d) := era_date doe in
  (1 <=? m) && (m <=? 12) && (1 <=? d) && (d <=? 31)
  && (0 <=? y) && (y <=? 400)
  && (if doe <? 72989 then y <=? 199 else 200 <=? y)
  && (if doe <? 146037 then y <=? 399 else y =? 400).

Definition is_digits (s : jsstring) : bool := forallb is_digit s.

Definition year_digits_ok (y : Z) : bool :=
  let s := Number_toString (Int y) in
  is_digits s
  && (if y <? 1000 then Nat.leb (List.length s) 3
      else Nat.eqb (List.length s) 4).

Definition pad2_ok (v : Z) : bool :=
  let s := pad2 (Number_toString (Int v)) in
  is_digits s && Nat.eqb (List.length s) 2.

(** The digits [toString('hex')] writes. *)
Definition is_lower_hex (c : N) : bool :=
  (is_digit c || (97 <=? c) && (c <=? 102))%N.

(** Reading hexadecimal text back, two digits a byte. *)
Fixpoint unhex (s : jsstring) : option (list N) :=
  match s with
  | [] => Some []
  | c1 :: c2 :: s' =>
      match digit_value 16 c1, digit_value 16 c2, unhex s' with
      | Some hi, Some lo, Some rest => Some (Z.to_N (16 * hi + lo) :: rest)
      | _, _, _ => None
      end
  | _ => None
  end.

Definition is_byte (b : N) : bool := (b <? 256)%N.

Definition hex_byte_ok (b : Z) : bool :=
  match hex_byte (Z.to_N b) with
  | [c1; c2] =>
      is_lower_hex c1 && is_lower_hex c2
      && is_hex_digit c1 && is_hex_digit c2
      && match digit_value 16 c1, digit_value 16 c2 with
         | Some hi, Some lo => 16 * hi + lo =? b
         | _, _ => false
         end
  | _ => false
  end.

(* ================================================================== *)
(** * Proofs *)

(** ** The JavaScript model on known values *)

Example parseInt_values :
  parseInt (js "200") = Int 200
  /\ parseInt (js "  -12abc") = Int (-12)
  /\ parseInt (js "0x1F") = Int 31
  /\ parseInt (js "undefined") = NaN
  /\ parseInt (js "") = NaN.
Proof. repeat split. Qed.

Example Number_toString_values :
  Number_toString (Int 2000000000) = js "2000000000"
  /\ Number_toString (Int 0) = js "0"
  /\ Number_toString (Int (-15)) = js "-15"
  /\ Number_toString NaN = js "NaN"
  /\ Number_toString16 486604799 = js "1d00ffff".
Proof. repeat split. Qed.

Example formatTimestamp_values :
  formatTimestamp (Int 1704067200000) = js "2024-01-01"
  /\ formatTimestamp (Int 1709251199999) = js "2024-02-29"
  /\ formatTimestamp (Int 0) = js "1970-01-01"
  /\ formatTimestamp (Int (-1)) = js "1969-12-31"
  /\ formatTimestamp NaN = js "NaN-NaN-NaN".
Proof. repeat split; vm_compute; reflexivity. Qed.

Example array_index_values :
  array_index (js "7") = Some 7
  /\ array_index (js "07") = None
  /\ array_index (js "4294967294") = Some 4294967294
  /\ array_index (js "4294967295") = None
  /\ array_index (js "x") = None.
Proof. repeat split; vm_compute; reflexivity. Qed.

Example datePattern_values :
  datePattern_test (js "2024-01-01") = true
  /\ datePattern_test (js "2024/01/01") = false
  /\ datePattern_test (js "2024-1-1") = false
  /\ datePattern_test (js "x2024-01-01") = true
  /\ datePattern_test (js "") = false.
Proof. repeat split. Qed.

Lemma constructor_threshold pools options :
  blockCacheConfirmations (new_BlockController pools options) = 6.
Proof. reflexivity. Qed.

(** ** Reward schedule *)

Lemma base_divides : (20 * 100000000) mod 4000 = 0.
Proof. reflexivity. Qed.

(** *** Decimal digits and parseInt *)

Lemma digit_cases (d : Z) :
  0 <= d < 10 ->
  d = 0 \/ d = 1 \/ d = 2 \/ d = 3 \/ d = 4 \/ d = 5 \/ d = 6 \/ d = 7
  \/ d = 8 \/ d = 9.
Proof. lia. Qed.

Lemma digit_value_digit_char (d : Z) :
  0 <= d < 10 -> digit_value 10 (digit_char d) = Some d.
Proof.
  intros H.
  destruct (digit_cases d H)
    as [-> | [-> | [-> | [-> | [-> | [-> | [-> | [-> | [-> | ->]]]]]]]]];
    reflexivity.
Qed.

Lemma parse_digits_aux (fuel : nat) : forall n acc seen,
  0 <= n < 10 ^ Z.of_nat (S fuel) ->
  parse_digits 10 (digits_aux 10 fuel n acc) 0 seen
  = parse_digits 10 acc n true.
Proof.
  assert (Hsmall : forall n acc seen, 0 <= n < 10 ->
            parse_digits 10 (digit_char (n mod 10) :: acc) 0 seen
            = parse_digits 10 acc n true).
  { intros n acc seen Hn. simpl parse_digits.
    rewrite Z.mod_small by lia. rewrite digit_value_digit_char by lia.
    reflexivity. }
  induction fuel as [|f IH]; intros n acc seen Hn.
  - simpl digits_aux. apply Hsmall. simpl in Hn. lia.
  - simpl digits_aux. destruct (n / 10 =? 0) eqn:E.
    + apply Z.eqb_eq in E. apply Hsmall.
      pose proof (Z.div_mod n 10 ltac:(lia)).
      pose proof (Z.mod_pos_bound n 10 ltac:(lia)). lia.
    + apply Z.eqb_neq in E. rewrite IH.
      * simpl parse_digits.
        rewrite digit_value_digit_char by (apply Z.mod_pos_bound; lia).
        f_equal. pose proof (Z.div_mod n 10 ltac:(lia)). lia.
      * split; [apply Z.div_pos; lia|].
        apply Z.div_lt_upper_bound; [lia|].
        replace (Z.of_nat (S (S f))) with (Z.succ (Z.of_nat (S f))) in Hn
          by lia.
        rewrite Z.pow_succ_r in Hn by lia. lia.
Qed.

Lemma decimal_fuel (n : Z) :
  0 <= n -> 0 <= n < 10 ^ Z.of_nat (S (Z.to_nat (Z.log2 n))).
Proof.
  intros Hn. split; [exact Hn|].
  replace (Z.of_nat (S (Z.to_nat (Z.log2 n)))) with (Z.succ (Z.log2 n))
    by (pose proof (Z.log2_nonneg n); lia).
  destruct (Z.eq_dec n 0) as [-> | Hne]; [reflexivity|].
  pose proof (Z.log2_spec n ltac:(lia)) as [_ Hlt].
  pose proof (Z.log2_nonneg n) as Hl.
  assert (2 ^ Z.succ (Z.log2 n) <= 10 ^ Z.succ (Z.log2 n))
    by (apply Z.pow_le_mono_l; lia).
  lia.
Qed.

(** The first digit is 0 only for the number 0, whose digits are the one
    character 0. *)
Lemma digits_aux_head (fuel : nat) : forall n acc,
  0 <= n < 10 ^ Z.of_nat (S fuel) ->
  exists d rest,
    digits_aux 10 fuel n acc = digit_char d :: rest
    /\ 0 <= d < 10
    /\ (d = 0 -> n = 0 /\ rest = acc).
Proof.
  assert (Hsmall : forall n acc, 0 <= n < 10 ->
            exists d rest,
              digit_char (n mod 10) :: acc = digit_char d :: rest
              /\ 0 <= d < 10 /\ (d = 0 -> n = 0 /\ rest = acc)).
  { intros n acc Hn. exists n, acc. rewrite Z.mod_small by lia.
    repeat split; auto; lia. }
  induction fuel as [|f IH]; intros n acc Hn.
  - simpl digits_aux. apply Hsmall. simpl in Hn. lia.
  - simpl digits_aux. destruct (n / 10 =? 0) eqn:E.
    + apply Z.eqb_eq in E. apply Hsmall.
      pose proof (Z.div_mod n 10 ltac:(lia)).
      pose proof (Z.mod_pos_bound n 10 ltac:(lia)). lia.
    + apply Z.eqb_neq in E.
      destruct (IH (n / 10) (digit_char (n mod 10) :: acc))
        as (d & rest & Heq & Hd & Hzero).
      * split; [apply Z.div_pos; lia|].
        apply Z.div_lt_upper_bound; [lia|].
        replace (Z.of_nat (S (S f))) with (Z.succ (Z.of_nat (S f))) in Hn
          by lia.
        rewrite Z.pow_succ_r in Hn by lia. lia.
      * exists d, rest. split; [exact Heq|]. split; [exact Hd|].
        intros Hd0. destruct (Hzero Hd0) as [Hq _]. contradiction.
Qed.

Lemma parseInt_decimal (n : Z) :
  0 <= n -> parseInt (Number_toString (Int n)) = Int n.
Proof.
  intros Hn. unfold Number_toString.
  assert (E : (n <? 0) = false) by (apply Z.ltb_ge; lia). rewrite E.
  pose proof (parse_digits_aux (Z.to_nat (Z.log2 n)) n [] false
                (decimal_fuel n Hn)) as Hparse.
  destruct (digits_aux_head (Z.to_nat (Z.log2 n)) n [] (decimal_fuel n Hn))
    as (d & rest & Heq & Hd & Hzero).
  unfold decimal, digits. rewrite Heq in *.
  destruct (digit_cases d Hd)
    as [-> | [-> | [-> | [-> | [-> | [-> | [-> | [-> | [-> | ->]]]]]]]]];
    try exact Hparse.
  destruct (Hzero eq_refl) as [-> ->]. reflexivity.
Qed.

(** The subsidy survives the round trip through its decimal digits. *)
Lemma parse_shifted_base (k : Z) :
  0 <= k ->
  parseInt (BN_toString10 (BN_shrn (20 * 100000000) k))
  = Int (Z.shiftr (20 * 100000000) k).
Proof.
  intros Hk. unfold BN_toString10, BN_shrn. apply parseInt_decimal.
  apply Z.shiftr_nonneg. lia.
Qed.

Lemma getBlockReward_halved (h : Z) :
  4000 <= h -> (h - 2000) / 2102400 < 64 ->
  getBlockReward h = Int (Z.shiftr (20 * 100000000) ((h - 2000) / 2102400)).
Proof.
  intros H1 H2. unfold getBlockReward, BN_ToNumber.
  change (4000 / 2) with 2000.
  assert (E1 : (h <? 2000) = false) by (apply Z.ltb_ge; lia).
  assert (E2 : (h <? 4000) = false) by (apply Z.ltb_ge; lia).
  assert (E3 : (64 <=? (h - 2000) / 2102400) = false) by (apply Z.leb_gt; lia).
  rewrite E1, E2, Z.geb_leb, E3.
  apply parse_shifted_base. apply Z.div_pos; lia.
Qed.

(** C2. For every height h >= 0 the controller's getBlockReward returns the
    integer schedule of the specification, with base = 20 * 1e8:
    base/4000 * h below 2000 (so 0 at height 0), base/4000 * (h + 1) below
    4000, and from 4000 on, with halvings = floor((h - 2000) / 2102400),
    0 when halvings >= 64 and otherwise base shifted right by halvings bits,
    which is the exact quotient base / 2^halvings. *)
Theorem getBlockReward_schedule (h : Z) :
  0 <= h ->
  let base := 20 * 100000000 in
  let halvings := (h - 2000) / 2102400 in
  (h < 2000 -> getBlockReward h = Int (base / 4000 * h))
  /\ (2000 <= h < 4000 -> getBlockReward h = Int (base / 4000 * (h + 1)))
  /\ (4000 <= h -> 64 <= halvings -> getBlockReward h = Int 0)
  /\ (4000 <= h -> halvings < 64 ->
       getBlockReward h = Int (Z.shiftr base halvings)
       /\ Z.shiftr base halvings = base / 2 ^ halvings)
  /\ getBlockReward 0 = Int 0.
Proof.
  intros Hh base halvings.
  assert (H0 : 4000 <= h -> 0 <= halvings)
    by (intros; apply Z.div_pos; lia).
  repeat split.
  - intros H. unfold getBlockReward, BN_ToNumber.
    change (4000 / 2) with 2000. apply Z.ltb_lt in H. now rewrite H.
  - intros [H1 H2]. unfold getBlockReward, BN_ToNumber.
    change (4000 / 2) with 2000.
    apply Z.ltb_ge in H1. apply Z.ltb_lt in H2. now rewrite H1, H2.
  - intros H1 H2. unfold getBlockReward.
    change (4000 / 2) with 2000. fold halvings.
    assert (E1 : (h <? 2000) = false) by (apply Z.ltb_ge; lia).
    assert (E2 : (h <? 4000) = false) by (apply Z.ltb_ge; lia).
    rewrite E1, E2, Z.geb_leb.
    apply Z.leb_le in H2. now rewrite H2.
  - now apply getBlockReward_halved.
  - apply Z.shiftr_div_pow2. auto.
Qed.

Lemma getBlockReward_schedule_witness :
  getBlockReward 2104400 = Int (Z.shiftr (20 * 100000000) 1).
Proof.
  apply (getBlockReward_schedule 2104400 ltac:(lia)); [lia | reflexivity].
Defined.

(** The claim C7 as worded fails: one block before height
    4000 + 2102400 the reward is already halved, so it differs from the
    reward at height 4000. *)
Lemma reward_before_4000_offset_already_halved :
  getBlockReward (4000 + 2102400 - 1) = Int 1000000000
  /\ getBlockReward 4000 = Int 2000000000
  /\ getBlockReward (4000 + 2102400 - 1) <> getBlockReward 4000.
Proof.
  assert (H1 : getBlockReward (4000 + 2102400 - 1) = Int 1000000000)
    by (vm_compute; reflexivity).
  assert (H2 : getBlockReward 4000 = Int 2000000000)
    by (vm_compute; reflexivity).
  repeat split; auto. rewrite H1, H2. discriminate.
Qed.

(** C7, amended. The first halving falls at height 2000 + 2102400, the
    slow-start shift of 2000 being subtracted before the division: every
    height from 4000 to 2000 + 2102400 - 1 carries the reward of height
    4000, every height of the next 2102400 carries half of it, and so the
    heights 4000 + 2102400 - 1 and 4000 + 2102400 both carry the halved
    reward. *)
Theorem first_halving_boundary (h : Z) :
  4000 <= h < 2000 + 2 * 2102400 ->
  getBlockReward 4000 = Int 2000000000
  /\ (h < 2000 + 2102400 -> getBlockReward h = getBlockReward 4000)
  /\ (2000 + 2102400 <= h -> getBlockReward h = Int (2000000000 / 2))
  /\ getBlockReward (4000 + 2102400 - 1) = getBlockReward (4000 + 2102400).
Proof.
  intros Hh.
  assert (H4 : getBlockReward 4000 = Int 2000000000)
    by (vm_compute; reflexivity).
  split; [exact H4|]. split; [|split].
  - intros Hlt. rewrite H4.
    assert (Hq : (h - 2000) / 2102400 = 0) by (apply Z.div_small; lia).
    rewrite getBlockReward_halved by lia. now rewrite Hq.
  - intros Hge.
    assert (Hq : (h - 2000) / 2102400 = 1).
    { symmetry. apply (Z.div_unique _ _ 1 (h - 2000 - 2102400)); lia. }
    rewrite getBlockReward_halved by lia. now rewrite Hq.
  - vm_compute; reflexivity.
Qed.

Lemma first_halving_boundary_witness :
  getBlockReward (2000 + 2102400) = Int (2000000000 / 2).
Proof.
  apply (first_halving_boundary (2000 + 2102400)); lia.
Defined.

(** ** Miner address *)

Lemma differs_from_half_considered (reward : number) (o : Output) :
  differs_from_half (satoshis o) reward = true <-> considered reward o.
Proof.
  unfold differs_from_half, considered. destruct reward as [r|].
  - rewrite negb_true_iff, Z.eqb_neq. tauto.
  - tauto.
Qed.

(** What the loop has found after any prefix of the outputs. *)
Lemma guess_invariant (reward : number) (outputs : list Output) :
  let st := fold_left (guess_step reward) outputs (0, Undefined) in
  0 <= fst st
  /\ (forall o, In o outputs -> considered reward o -> satoshis o <= fst st)
  /\ ((fst st = 0 /\ snd st = Undefined)
      \/ (0 < fst st
          /\ exists i o,
              nth_error outputs i = Some o
              /\ considered reward o
              /\ satoshis o = fst st
              /\ snd st = address o
              /\ forall j o', (j < i)%nat -> nth_error outputs j = Some o' ->
                  considered reward o' -> satoshis o' < fst st)).
Proof.
  induction outputs as [|x l IH] using rev_ind; simpl.
  - split; [lia|]. split; [intros o []|]. left; auto.
  - rewrite fold_left_app. simpl.
    destruct (fold_left (guess_step reward) l (0, Undefined)) as [best addr].
    simpl in IH. destruct IH as (H0 & Hmax & Hcase).
    assert (Hkeep :
      (forall o, In o (l ++ [x]) -> considered reward o ->
         satoshis o <= best) ->
      0 <= best
      /\ (forall o, In o (l ++ [x]) -> considered reward o ->
            satoshis o <= best)
      /\ ((best = 0 /\ addr = Undefined)
          \/ (0 < best
              /\ exists i o,
                  nth_error (l ++ [x]) i = Some o
                  /\ considered reward o
                  /\ satoshis o = best
                  /\ addr = address o
                  /\ forall j o', (j < i)%nat ->
                      nth_error (l ++ [x]) j = Some o' ->
                      considered reward o' -> satoshis o' < best))).
    { intros Hall. split; [exact H0|]. split; [exact Hall|].
      destruct Hcase as [Hz | (Hpos & i & o & Hn & Hc & Hs & Ha & Hlt)].
      - left; exact Hz.
      - right. split; [exact Hpos|]. exists i, o.
        assert (Hi : (i < List.length l)%nat)
          by (apply nth_error_Some; rewrite Hn; discriminate).
        split; [rewrite nth_error_app1; auto|].
        repeat split; auto.
        intros j o' Hj Hn'. rewrite nth_error_app1 in Hn' by lia.
        eauto. }
    unfold guess_step.
    destruct (differs_from_half (satoshis x) reward) eqn:D.
    + destruct (satoshis x >? best) eqn:G.
      * rewrite Z.gtb_ltb in G. apply Z.ltb_lt in G. simpl.
        apply differs_from_half_considered in D.
        split; [lia|]. split.
        { intros o Hin Hc. apply in_app_or in Hin.
          destruct Hin as [Hin | [<- | []]]; [|lia].
          specialize (Hmax o Hin Hc). lia. }
        right. split; [lia|]. exists (List.length l), x.
        split; [rewrite nth_error_app2, Nat.sub_diag; auto|].
        repeat split; auto.
        intros j o' Hj Hn' Hc. rewrite nth_error_app1 in Hn' by lia.
        apply nth_error_In in Hn'. specialize (Hmax o' Hn' Hc). lia.
      * rewrite Z.gtb_ltb in G. apply Z.ltb_ge in G. simpl.
        apply Hkeep. intros o Hin Hc. apply in_app_or in Hin.
        destruct Hin as [Hin | [<- | []]]; auto.
    + simpl. apply Hkeep. intros o Hin Hc. apply in_app_or in Hin.
      destruct Hin as [Hin | [<- | []]]; auto.
      apply differs_from_half_considered in Hc. congruence.
Qed.

(** The claim C4 as worded fails on an output of amount 0: it is the
    largest considered output of its list, yet the loop, which starts from
    lastBiggestNumber = 0 and compares strictly, never selects it. *)
Lemma guess_ignores_zero_amount :
  let o := {| satoshis := 0; address := Str (js "A") |} in
  first_largest (Int 2000000000) [o] 0 o
  /\ guessMiner (Int 2000000000) [o] = Undefined
  /\ guessMiner (Int 2000000000) [o] <> address o.
Proof.
  intros o. split; [|split; [reflexivity | discriminate]].
  unfold first_largest. split; [reflexivity|]. split; [simpl; lia|]. split.
  - intros o' [<- | []] _. lia.
  - intros j o' Hj. lia.
Qed.

(** C4, amended. For every list of coinbase outputs and reward, the guess
    is the address of the first output holding the largest amount among the
    outputs whose amount is not exactly half the reward, provided that
    amount is positive; when no such output has a positive amount there is
    no guess (undefined).  For [{500000000, A}, {1000000000, B},
    {1000000000, C}] with a reward of 1000000000 the guess is B. *)
Theorem guessMiner_first_largest (reward : number) (outputs : list Output) :
  (forall i o, first_largest reward outputs i o -> 0 < satoshis o ->
     guessMiner reward outputs = address o)
  /\ ((forall o, In o outputs -> considered reward o -> satoshis o <= 0) ->
      guessMiner reward outputs = Undefined)
  /\ guessMiner (Int 1000000000)
       [ {| satoshis := 500000000; address := Str (js "A") |};
         {| satoshis := 1000000000; address := Str (js "B") |};
         {| satoshis := 1000000000; address := Str (js "C") |} ]
     = Str (js "B").
Proof.
  unfold guessMiner. pose proof (guess_invariant reward outputs) as Inv.
  simpl in Inv.
  destruct (fold_left (guess_step reward) outputs (0, Undefined))
    as [best addr].
  simpl in *. destruct Inv as (H0 & Hmax & Hcase).
  split; [|split; [|reflexivity]].
  - intros i o (Hn & Hc & Hall & Hfirst) Hpos.
    pose proof (Hmax o (nth_error_In _ _ Hn) Hc) as Hle.
    destruct Hcase as [[Hz _] | (_ & i' & o' & Hn' & Hc' & Hs' & Ha' & Hlt')];
      [lia|].
    pose proof (Hall o' (nth_error_In _ _ Hn') Hc') as Hle'.
    destruct (Nat.lt_trichotomy i i') as [Hlt | [Heq | Hgt]].
    + specialize (Hlt' i o Hlt Hn Hc). lia.
    + subst i'. rewrite Hn in Hn'. now inversion Hn'; subst.
    + specialize (Hfirst i' o' Hgt Hn' Hc'). lia.
  - intros Hnone.
    destruct Hcase as [[_ Ha] | (Hpos & i & o & Hn & Hc & Hs & _)]; [exact Ha|].
    specialize (Hnone o (nth_error_In _ _ Hn) Hc). lia.
Qed.

Lemma guessMiner_first_largest_witness :
  let a := {| satoshis := 500000000; address := Str (js "A") |} in
  let b := {| satoshis := 1000000000; address := Str (js "B") |} in
  let c := {| satoshis := 1000000000; address := Str (js "C") |} in
  first_largest (Int 1000000000) [a; b; c] 1 b
  /\ guessMiner (Int 1000000000) [a; b; c] = address b.
Proof.
  intros a b c.
  assert (F : first_largest (Int 1000000000) [a; b; c] 1 b).
  { unfold first_largest. split; [reflexivity|]. split; [simpl; lia|]. split.
    - intros o' [<- | [<- | [<- | []]]] _; simpl; lia.
    - intros j o' Hj Hn Hc. destruct j as [|j]; [|lia].
      inversion Hn; subst o'. simpl in Hc. lia. }
  split; [exact F|].
  apply (proj1 (guessMiner_first_largest (Int 1000000000) [a; b; c]) 1%nat b F).
  simpl. lia.
Defined.

(** ** checkBlockHash *)

Lemma is_hex_digit_spec (c : N) :
  is_hex_digit c = true <-> In c hex_digits.
Proof.
  split.
  - unfold is_hex_digit, is_digit. intros H.
    assert (Hc : (48 <= c <= 57 \/ 97 <= c <= 102 \/ 65 <= c <= 70)%N).
    { rewrite !orb_true_iff, !andb_true_iff, !N.leb_le in H. lia. }
    assert (Hn : exists n, c = N.of_nat n /\ (n <= 102)%nat)
      by (exists (N.to_nat c); lia).
    destruct Hn as (n & -> & Hn).
    do 103 (destruct n as [|n];
            [try (exfalso; lia); vm_compute; tauto|]).
    lia.
  - intros H. vm_compute in H.
    repeat (destruct H as [<- | H]; [reflexivity|]). destruct H.
Qed.

Lemma forallb_hex (hash : jsstring) :
  forallb is_hex_digit hash = true <->
  (forall c, In c hash -> In c hex_digits).
Proof.
  rewrite forallb_forall. split; intros H c Hc.
  - apply is_hex_digit_spec; auto.
  - apply is_hex_digit_spec; auto.
Qed.

Lemma isHexadecimal_long (hash : jsstring) :
  (0 < List.length hash)%nat ->
  isHexadecimal hash = forallb is_hex_digit hash.
Proof. destruct hash; simpl; [lia | reflexivity]. Qed.

(** C10. checkBlockHash rejects the request (the not-found answer of
    handleErrors) exactly when the hash is shorter than 64 characters or
    holds a character outside 0-9, a-f, A-F; every hexadecimal string of 64
    characters or more is passed on, one of 65 characters included. *)
Theorem checkBlockHash_rejects_iff (hash : jsstring) :
  (checkBlockHash hash = HandleErrors None <->
   (List.length hash < 64)%nat
   \/ exists c, In c hash /\ ~ In c hex_digits)
  /\ (checkBlockHash hash = Next tt <->
      (64 <= List.length hash)%nat
      /\ forall c, In c hash -> In c hex_digits)
  /\ checkBlockHash
       (js "00000000000000000000000000000000000000000000000000000000000000abc")
     = Next tt.
Proof.
  assert (Hneg : forallb is_hex_digit hash = false <->
                 exists c, In c hash /\ ~ In c hex_digits).
  { split.
    - intros H. induction hash as [|c l IH]; simpl in H; [discriminate|].
      apply andb_false_iff in H. destruct H as [H | H].
      + exists c. split; [left; auto|].
        rewrite <- is_hex_digit_spec. congruence.
      + destruct (IH H) as (c' & Hin & Hc'). exists c'. split; [right|]; auto.
    - intros (c & Hin & Hc). apply not_true_is_false. intros H.
      apply Hc. rewrite forallb_hex in H. auto. }
  unfold checkBlockHash.
  destruct (Z.of_nat (List.length hash) <? 64) eqn:L.
  - apply Z.ltb_lt in L. simpl. repeat split; try discriminate.
    + left; lia.
    + intros [H _]; lia.
  - apply Z.ltb_ge in L. simpl.
    rewrite isHexadecimal_long by lia.
    destruct (forallb is_hex_digit hash) eqn:F; simpl.
    + repeat split; try discriminate; try lia.
      * intros [H | H]; [lia|]. apply Hneg in H. discriminate.
      * apply forallb_hex; auto.
    + repeat split; try discriminate.
      * right. apply Hneg; auto.
      * intros [_ H]. apply forallb_hex in H. congruence.
Qed.

(** ** Pool lookup *)

Lemma jsstring_eqb_eq (a b : jsstring) : jsstring_eqb a b = true <-> a = b.
Proof.
  unfold jsstring_eqb. destruct (list_eq_dec N.eq_dec a b); split;
    congruence.
Qed.

Lemma jsstring_eqb_refl (a : jsstring) : jsstring_eqb a a = true.
Proof. now apply jsstring_eqb_eq. Qed.

Lemma jsstring_eqb_neq (a b : jsstring) : jsstring_eqb a b = false <-> a <> b.
Proof.
  rewrite <- jsstring_eqb_eq. destruct (jsstring_eqb a b); split; congruence.
Qed.

Lemma prefixb_spec (k t : jsstring) :
  prefixb k t = true <-> exists post, t = k ++ post.
Proof.
  revert t. induction k as [|a k IH]; intros t; simpl.
  - split; [intros _; now exists t | auto].
  - destruct t as [|b t].
    + split; [discriminate | intros (post & H); discriminate].
    + rewrite andb_true_iff, N.eqb_eq, IH. split.
      * intros (-> & post & ->). now exists post.
      * intros (post & H). inversion H; subst. split; [auto | now exists post].
Qed.

Lemma occursb_spec (k t : jsstring) : occursb k t = true <-> occurs k t.
Proof.
  unfold occurs. induction t as [|b t IH]; simpl.
  - rewrite orb_false_r, prefixb_spec. split.
    + intros (post & H). now exists [], post.
    + intros (pre & post & H). symmetry in H.
      apply app_eq_nil in H. destruct H as (-> & H).
      apply app_eq_nil in H. destruct H as (-> & ->). now exists [].
  - rewrite orb_true_iff, prefixb_spec, IH. split.
    + intros [(post & H) | (pre & post & H)].
      * now exists [], post.
      * exists (b :: pre), post. simpl. now rewrite H.
    + intros (pre & post & H). destruct pre as [|c pre].
      * left. now exists post.
      * right. inversion H. now exists pre, post.
Qed.

Lemma obj_get_set {V} (o : object V) (k k' : jsstring) (v : V) :
  obj_get (obj_set o k v) k'
  = if jsstring_eqb k k' then Some v else obj_get o k'.
Proof.
  induction o as [|[k0 v0] o IH]; simpl.
  - reflexivity.
  - destruct (jsstring_eqb k0 k) eqn:E; simpl.
    + apply jsstring_eqb_eq in E. subst k0.
      destruct (jsstring_eqb k k'); reflexivity.
    + rewrite IH. destruct (jsstring_eqb k0 k') eqn:E'; [|reflexivity].
      apply jsstring_eqb_eq in E'. subst k0.
      apply jsstring_eqb_neq in E.
      assert (E2 : jsstring_eqb k k' = false)
        by (apply jsstring_eqb_neq; congruence).
      now rewrite E2.
Qed.

Lemma keys_obj_set {V} (o : object V) (k : jsstring) (v : V) :
  List.map fst (obj_set o k v)
  = if existsb (fun k0 => jsstring_eqb k0 k) (List.map fst o)
    then List.map fst o else List.map fst o ++ [k].
Proof.
  induction o as [|[k0 v0] o IH]; simpl.
  - reflexivity.
  - destruct (jsstring_eqb k0 k) eqn:E; simpl; [reflexivity|].
    rewrite IH.
    destruct (existsb (fun k1 => jsstring_eqb k1 k) (List.map fst o));
      reflexivity.
Qed.

Lemma build_poolStrings_entries (pools : list Pool) :
  build_poolStrings pools = build_from [] (config_entries pools).
Proof.
  unfold build_poolStrings, build_from. generalize (@nil (jsstring * PoolInfo)).
  induction pools as [|p pools IH]; intros o; simpl; [reflexivity|].
  rewrite fold_left_app, IH. f_equal.
  generalize o. induction (searchStrings p) as [|s l IHl]; intros o'; simpl;
    [reflexivity | apply IHl].
Qed.

Lemma find_keys {V} (P : jsstring -> bool) (o : object V) :
  option_map fst (find (fun e => P (fst e)) o) = find P (List.map fst o).
Proof.
  induction o as [|[k v] o IH]; simpl; [reflexivity|].
  destruct (P k); [reflexivity | exact IH].
Qed.

Lemma find_snoc {A} (P : A -> bool) (l : list A) (x : A) :
  find P (l ++ [x])
  = match find P l with
    | Some y => Some y
    | None => if P x then Some x else None
    end.
Proof.
  induction l as [|y l IH]; simpl; [reflexivity|].
  destruct (P y); [reflexivity | exact IH].
Qed.

(** The first key of the table that satisfies [P] is the first signature
    of the configuration that does. *)
Lemma first_key_build_from (P : jsstring -> bool) es : forall o,
  find P (List.map fst (build_from o es))
  = match find P (List.map fst o) with
    | Some k => Some k
    | None => find P (List.map fst es)
    end.
Proof.
  induction es as [|[k v] es IH]; intros o; simpl.
  - now destruct (find P (List.map fst o)).
  - unfold build_from in *. simpl. rewrite IH, keys_obj_set.
    destruct (existsb (fun k0 => jsstring_eqb k0 k) (List.map fst o)) eqn:E.
    + destruct (find P (List.map fst o)) eqn:F; [reflexivity|].
      apply existsb_exists in E. destruct E as (k0 & Hin & Hk).
      apply jsstring_eqb_eq in Hk. subst k0.
      now rewrite (find_none _ _ F k Hin).
    + rewrite find_snoc.
      destruct (find P (List.map fst o)); [reflexivity|].
      now destruct (P k).
Qed.

Lemma obj_get_app {V} (a b : object V) (k : jsstring) :
  obj_get (a ++ b) k
  = match obj_get a k with
    | Some v => Some v
    | None => obj_get b k
    end.
Proof.
  induction a as [|[k0 v0] a IH]; simpl; [reflexivity|].
  destruct (jsstring_eqb k0 k); [reflexivity | exact IH].
Qed.

(** The value kept under a key is the one of its last assignment. *)
Lemma obj_get_build_from es : forall o k,
  obj_get (build_from o es) k
  = match obj_get (rev es) k with
    | Some v => Some v
    | None => obj_get o k
    end.
Proof.
  induction es as [|[k0 v0] es IH]; intros o k; simpl; [reflexivity|].
  unfold build_from in *. simpl. rewrite IH, obj_get_app, obj_get_set. simpl.
  destruct (obj_get (rev es) k); [reflexivity|].
  destruct (jsstring_eqb k0 k); reflexivity.
Qed.

Lemma find_first_entry {V} (P : jsstring -> bool) (o : object V) k v :
  find (fun e => P (fst e)) o = Some (k, v) -> obj_get o k = Some v.
Proof.
  induction o as [|[k0 v0] o IH]; simpl; [discriminate|].
  destruct (P k0) eqn:E.
  - intros H. inversion H; subst. now rewrite jsstring_eqb_refl.
  - intros H. destruct (jsstring_eqb k0 k) eqn:E'.
    + apply jsstring_eqb_eq in E'. subst k0.
      apply find_some in H. simpl in H. destruct H as [_ H]. congruence.
    + auto.
Qed.

(** The entry the loop stops at, told from the configuration alone. *)
Lemma first_entry_build (P : jsstring -> bool) es :
  option_map snd (find (fun e => P (fst e)) (build_from [] es))
  = match find (fun e => P (fst e)) es with
    | Some (s, _) => obj_get (rev es) s
    | None => None
    end.
Proof.
  pose proof (first_key_build_from P es []) as K. simpl in K.
  rewrite <- !find_keys in K.
  destruct (find (fun e => P (fst e)) (build_from [] es)) as [[k v]|] eqn:F;
    simpl in *.
  - destruct (find (fun e => P (fst e)) es) as [[s v']|]; [|discriminate].
    simpl in K. inversion K; subst s.
    apply find_first_entry in F. rewrite obj_get_build_from in F.
    destruct (obj_get (rev es) k); simpl in F; congruence.
  - destruct (find (fun e => P (fst e)) es) as [[s v']|]; [discriminate|].
    reflexivity.
Qed.

Lemma keys_build_from es : forall o k,
  In k (List.map fst (build_from o es)) ->
  In k (List.map fst o) \/ In k (List.map fst es).
Proof.
  induction es as [|[k0 v0] es IH]; intros o k; simpl; [auto|].
  unfold build_from in *. simpl. intros H. apply IH in H.
  destruct H as [H | H]; [|auto].
  rewrite keys_obj_set in H.
  destruct (existsb (fun k1 => jsstring_eqb k1 k0) (List.map fst o)); [auto|].
  apply in_app_or in H. destruct H as [H | [H | []]]; auto.
Qed.

Lemma index_entries_none {V} (o : object V) :
  (forall k, In k (List.map fst o) -> array_index k = None) ->
  index_entries o = [] /\ named_entries o = o.
Proof.
  induction o as [|[k v] o IH]; intros H; [split; reflexivity|].
  assert (Hk : array_index k = None) by (apply H; left; reflexivity).
  destruct IH as [IH1 IH2]; [intros k' Hk'; apply H; right; exact Hk'|].
  split.
  - simpl. rewrite Hk. exact IH1.
  - unfold named_entries in *. simpl. rewrite Hk. now rewrite IH2.
Qed.

Lemma for_in_named {V} (o : object V) :
  (forall k, In k (List.map fst o) -> array_index k = None) ->
  for_in o = o.
Proof.
  intros H. unfold for_in. now destruct (index_entries_none o H) as [-> ->].
Qed.

Lemma getPoolInfo_loop_find rt buffer entries :
  literal_matching rt ->
  (forall k, In k (List.map fst entries) -> literal k) ->
  getPoolInfo_loop rt buffer entries
  = Normal (option_map snd
              (find (fun e => occursb (fst e) (Buffer_toString_utf8 rt buffer))
                    entries)).
Proof.
  intros Hrt. induction entries as [|[k v] entries IH]; simpl; intros Hlit;
    [reflexivity|].
  rewrite Hrt by auto.
  destruct (occursb k (Buffer_toString_utf8 rt buffer)); [reflexivity|].
  apply IH. auto.
Qed.

(** The lookup, for signatures that are literal patterns and ordinary keys:
    the first signature of the configuration that occurs in the decoded
    script decides, and the pool returned is the last one listing it. *)
Lemma getPoolInfo_config rt pools tx rest :
  literal_matching rt ->
  (forall s, In s (List.map fst (config_entries pools)) ->
     literal s /\ ordinary_key s) ->
  getPoolInfo rt (build_poolStrings pools) (tx :: rest)
  = Normal
      (match find (fun e => occursb (fst e)
                              (Buffer_toString_utf8 rt (tx_scriptBuffer tx)))
                  (config_entries pools) with
       | Some (s, _) => obj_get (rev (config_entries pools)) s
       | None => None
       end).
Proof.
  intros Hrt Hsig. unfold getPoolInfo.
  rewrite build_poolStrings_entries.
  assert (Hkeys : forall k,
            In k (List.map fst (build_from [] (config_entries pools))) ->
            literal k /\ ordinary_key k).
  { intros k Hk. apply keys_build_from in Hk. destruct Hk as [[] | Hk]; auto. }
  rewrite for_in_named by (intros k Hk; apply (Hkeys k Hk)).
  rewrite getPoolInfo_loop_find; auto; [|intros k Hk; apply (Hkeys k Hk)].
  f_equal.
  apply (first_entry_build
           (fun k => occursb k (Buffer_toString_utf8 rt (tx_scriptBuffer tx)))).
Qed.

Lemma find_app_first {A} (P : A -> bool) (pre post : list A) (x : A) :
  (forall y, In y pre -> P y = false) -> P x = true ->
  find P (pre ++ x :: post) = Some x.
Proof.
  intros Hpre Hx. induction pre as [|y pre IH]; simpl.
  - now rewrite Hx.
  - rewrite (Hpre y) by (left; reflexivity). apply IH.
    intros z Hz. apply Hpre. now right.
Qed.

Lemma obj_get_rev_last {V} (es : object V) (s : jsstring) :
  In s (List.map fst es) ->
  exists v before after,
    obj_get (rev es) s = Some v
    /\ es = before ++ (s, v) :: after
    /\ ~ In s (List.map fst after).
Proof.
  induction es as [|[k v] es IH] using rev_ind; [intros []|].
  rewrite map_app, rev_app_distr. simpl. intros Hin.
  destruct (jsstring_eqb k s) eqn:E.
  - apply jsstring_eqb_eq in E. subst k.
    exists v, es, []. simpl. auto.
  - apply jsstring_eqb_neq in E.
    apply in_app_or in Hin. destruct Hin as [Hin | [Hin | []]];
      [|simpl in Hin; congruence].
    destruct (IH Hin) as (v' & before & after & Hget & Hes & Hnot).
    exists v', before, (after ++ [(k, v)]). split; [exact Hget|]. split.
    + rewrite Hes, <- app_assoc. reflexivity.
    + rewrite map_app. intros H. apply in_app_or in H.
      destruct H as [H | [H | []]]; [auto | simpl in H; congruence].
Qed.

Lemma literalb_literal (k : jsstring) : literalb k = true -> literal k.
Proof.
  unfold literalb, literal. rewrite forallb_forall. intros H c Hc Hin.
  specialize (H c Hc). apply negb_true_iff in H.
  assert (E : existsb (N.eqb c) syntax_characters = true).
  { apply existsb_exists. exists c. split; [exact Hin | apply N.eqb_refl]. }
  congruence.
Qed.

Lemma match_here_literal (k t : jsstring) :
  literal k -> match_here k t = prefixb k t.
Proof.
  revert t. induction k as [|a k IH]; intros t Hlit; [reflexivity|].
  destruct t as [|c t]; [reflexivity|]. simpl.
  assert (Ha : (a =? 46)%N = false).
  { apply N.eqb_neq. intros ->. apply (Hlit 46%N); [left; reflexivity|].
    vm_compute. tauto. }
  unfold atom_matches. rewrite Ha, IH; [reflexivity|].
  intros c' Hc'. apply Hlit. now right.
Qed.

(** The runtime of the examples matches literal patterns as JavaScript
    does. *)
Lemma example_runtime_literal : literal_matching example_runtime.
Proof.
  intros text k Hlit. simpl. f_equal.
  induction text as [|c text IH]; simpl.
  - now rewrite match_here_literal.
  - now rewrite match_here_literal, IH.
Qed.

(** The claim C6 as worded fails in three ways, the pool it designates
    being that of the first (signature, pool) pair of the configuration
    whose signature occurs in the script.
    - Two pools list the signature "x": the pair that comes first belongs
      to P1, the lookup answers P2, whose assignment replaced the value
      kept under the shared key.
    - The signature "a.c" is compiled as a regular expression, its dot
      standing for any character: the script "abc" is attributed to P1
      although no signature occurs in it.
    - The signature "7" is an array index and is visited before "a", which
      the configuration lists first: the script "a7" goes to P2. *)
Lemma pool_lookup_departs_from_first_substring :
  let lookup pools script :=
    getPoolInfo example_runtime (build_poolStrings pools)
      [example_coinbase script] in
  let designated pools script :=
    pool_of_first_signature
      (Buffer_toString_utf8 example_runtime
         (tx_scriptBuffer (example_coinbase script))) pools in
  let shared := [example_pool "P1" "u1" ["x"%string];
                 example_pool "P2" "u2" ["x"%string]] in
  let dotted := [example_pool "P1" "u1" ["a.c"%string]] in
  let indexed := [example_pool "P1" "u1" ["a"%string];
                  example_pool "P2" "u2" ["7"%string]] in
  (designated shared "x"%string = Some (example_info "P1" "u1")
   /\ lookup shared "x"%string = Normal (Some (example_info "P2" "u2"))
   /\ lookup shared "x"%string <> Normal (designated shared "x"%string))
  /\ (designated dotted "abc"%string = None
      /\ lookup dotted "abc"%string = Normal (Some (example_info "P1" "u1"))
      /\ lookup dotted "abc"%string <> Normal (designated dotted "abc"%string))
  /\ (designated indexed "a7"%string = Some (example_info "P1" "u1")
      /\ lookup indexed "a7"%string = Normal (Some (example_info "P2" "u2"))
      /\ lookup indexed "a7"%string
         <> Normal (designated indexed "a7"%string)).
Proof.
  cbv zeta.
  repeat match goal with
         | |- _ /\ _ => split
         | |- _ <> _ => vm_compute; discriminate
         | |- _ = _ => vm_compute; reflexivity
         end.
Qed.

(** C6, amended. For a configuration whose signatures hold no regular
    expression syntax character and are neither array indices nor the name
    __proto__, the lookup decodes the script of the coinbase input as text
    and goes by the first signature, in configuration order, that occurs
    in it as a substring: it returns the {poolName, url} of the last pool
    that lists this signature (the only one when signatures are not
    shared), and the empty object when no signature occurs. *)
Theorem getPoolInfo_first_signature rt pools tx rest :
  literal_matching rt ->
  (forall s, In s (List.map fst (config_entries pools)) ->
     literal s /\ ordinary_key s) ->
  let text := Buffer_toString_utf8 rt (tx_scriptBuffer tx) in
  let result := getPoolInfo rt (build_poolStrings pools) (tx :: rest) in
  ((forall s, In s (List.map fst (config_entries pools)) -> ~ occurs s text) ->
   result = Normal None)
  /\ (forall pre s info0 post,
        config_entries pools = pre ++ (s, info0) :: post ->
        occurs s text ->
        (forall s', In s' (List.map fst pre) -> ~ occurs s' text) ->
        exists info before after,
          result = Normal (Some info)
          /\ config_entries pools = before ++ (s, info) :: after
          /\ ~ In s (List.map fst after)).
Proof.
  intros Hrt Hsig text result. subst result.
  rewrite (getPoolInfo_config rt pools tx rest Hrt Hsig). fold text.
  split.
  - intros Hnone.
    destruct (find (fun e => occursb (fst e) text) (config_entries pools))
      as [[s v]|] eqn:F; [|reflexivity].
    apply find_some in F. simpl in F. destruct F as [Hin Hocc].
    apply occursb_spec in Hocc. exfalso. apply (Hnone s); [|exact Hocc].
    apply (in_map fst) in Hin. exact Hin.
  - intros pre s info0 post Hes Hocc Hpre.
    assert (F : find (fun e => occursb (fst e) text) (config_entries pools)
                = Some (s, info0)).
    { rewrite Hes. apply find_app_first.
      - intros [s' v'] Hin. simpl. apply not_true_is_false. intros H.
        apply occursb_spec in H. apply (Hpre s'); [|exact H].
        apply (in_map fst) in Hin. exact Hin.
      - simpl. now apply occursb_spec. }
    rewrite F.
    assert (Hin : In s (List.map fst (config_entries pools))).
    { rewrite Hes, map_app. apply in_or_app. right. left. reflexivity. }
    destruct (obj_get_rev_last (config_entries pools) s Hin)
      as (v & before & after & Hget & Hsplit & Hnot).
    exists v, before, after. rewrite Hget. auto.
Qed.

Lemma getPoolInfo_first_signature_witness :
  let pools := [example_pool "P1" "u1" ["slush"%string; "x"%string];
                example_pool "P2" "u2" ["x"%string]] in
  let tx := example_coinbase "mined by x" in
  exists info before after,
    getPoolInfo example_runtime (build_poolStrings pools) [tx]
    = Normal (Some info)
    /\ config_entries pools = before ++ (js "x", info) :: after
    /\ ~ In (js "x") (List.map fst after).
Proof.
  cbv zeta.
  refine (proj2 (getPoolInfo_first_signature example_runtime
                   [example_pool "P1" "u1" ["slush"%string; "x"%string];
                    example_pool "P2" "u2" ["x"%string]]
                   (example_coinbase "mined by x") []
                   example_runtime_literal _)
                [(js "slush", example_info "P1" "u1")] (js "x")
                (example_info "P1" "u1") [(js "x", example_info "P2" "u2")]
                eq_refl _ _).
  - intros s Hs. simpl in Hs.
    destruct Hs as [<- | [<- | [<- | []]]];
      (split;
       [apply literalb_literal; reflexivity
       | split; [reflexivity | intros H; vm_compute in H; discriminate]]).
  - apply occursb_spec. reflexivity.
  - intros s' [<- | []] H. apply occursb_spec in H. vm_compute in H.
    discriminate.
Defined.

(** ** The confirmation-gated caches *)

Lemma LRU_get_peek {V} (c : LRU V) (k : jsstring) :
  LRU_get c k
  = match LRU_peek c k with
    | Some v =>
        (Some v,
         {| lru_max := lru_max c;
            lru_list := (k, v) :: remove_key k (lru_list c) |})
    | None => (None, c)
    end.
Proof. reflexivity. Qed.

Lemma trim_head {V} (max : N) (e : jsstring * V) (l : list (jsstring * V)) :
  exists l', trim max (e :: l) = e :: l'.
Proof.
  destruct max as [|p]; simpl; [now exists l|].
  destruct (Pos.to_nat p) eqn:E; [pose proof (Pos2Nat.is_pos p); lia|].
  simpl. eauto.
Qed.

Lemma LRU_peek_set {V} (c : LRU V) (k : jsstring) (v : V) :
  LRU_peek (LRU_set c k v) k = Some v.
Proof.
  unfold LRU_peek, LRU_set. simpl.
  destruct (trim_head (lru_max c) (k, v) (remove_key k (lru_list c)))
    as [l' ->].
  simpl. now rewrite jsstring_eqb_refl.
Qed.

Lemma LRU_peek_mutate_hit {V} (c : LRU V) (k : jsstring) (v : V) (f : V -> V) :
  LRU_peek c k = Some v ->
  LRU_peek (LRU_mutate (snd (LRU_get c k)) k f) k = Some (f v).
Proof.
  intros H. rewrite LRU_get_peek, H. unfold LRU_peek, LRU_mutate. simpl.
  now rewrite !jsstring_eqb_refl.
Qed.

(** A lookup that misses: what the block handler returns and the cache it
    leaves. *)
Lemma block_miss rt self hash node :
  LRU_peek (blockCache self) hash = None ->
  let result := run node (block rt self hash) in
  blockCache (snd result) = blockCache self
  \/ exists b,
       fst result = Next b
       /\ BlockDetail.confirmations b >= blockCacheConfirmations self
       /\ blockCache (snd result) = LRU_set (blockCache self) hash b.
Proof.
  intros Hmiss. unfold block. rewrite LRU_get_peek, Hmiss. simpl.
  destruct (reply node _ (node_getBlock hash)) as [err | blk].
  { destruct (not_found_code err); simpl; auto. }
  simpl. destruct (reply node _ (bitcoind_getBlockHeader hash)) as [err | info];
    [simpl; auto|].
  destruct (Block.transactions blk) as [|tx0 txs] eqn:Etx; [simpl; auto|].
  simpl.
  destruct (transformBlock rt self blk info _) as [b|] eqn:T; [|simpl; auto].
  simpl.
  destruct (BlockDetail.confirmations b >=? blockCacheConfirmations self) eqn:G.
  - right. exists b. rewrite Z.geb_leb in G. apply Z.leb_le in G.
    repeat split; auto. lia.
  - left. destruct self; reflexivity.
Qed.

Lemma block_miss_below rt self hash node b :
  LRU_peek (blockCache self) hash = None ->
  fst (run node (block rt self hash)) = Next b ->
  BlockDetail.confirmations b < blockCacheConfirmations self ->
  blockCache (snd (run node (block rt self hash))) = blockCache self.
Proof.
  intros Hmiss Hb Hlt.
  destruct (block_miss rt self hash node Hmiss) as [H | (b' & Hb' & Hge & _)];
    [exact H|].
  rewrite Hb in Hb'. inversion Hb'; subst b'. lia.
Qed.

Lemma block_miss_stored rt self hash node b :
  LRU_peek (blockCache self) hash = None ->
  fst (run node (block rt self hash)) = Next b ->
  blockCacheConfirmations self <= BlockDetail.confirmations b ->
  blockCache (snd (run node (block rt self hash)))
  = LRU_set (blockCache self) hash b.
Proof.
  intros Hmiss. unfold block. rewrite LRU_get_peek, Hmiss. simpl.
  destruct (reply node _ (node_getBlock hash)) as [err | blk].
  { destruct (not_found_code err); simpl; discriminate. }
  simpl. destruct (reply node _ (bitcoind_getBlockHeader hash)) as [err | info];
    [simpl; discriminate|].
  destruct (Block.transactions blk) as [|tx0 txs] eqn:Etx;
    [simpl; discriminate|].
  simpl.
  destruct (transformBlock rt self blk info _) as [b'|] eqn:T;
    [|simpl; discriminate].
  simpl. intros Hb Hge. inversion Hb; subst b'.
  assert (G : (BlockDetail.confirmations b >=? blockCacheConfirmations self)
              = true) by (rewrite Z.geb_leb; apply Z.leb_le; lia).
  now rewrite G.
Qed.

Lemma block_hit rt self hash node cached :
  LRU_peek (blockCache self) hash = Some cached ->
  let recomputed :=
    BlockDetail.set_confirmations
      (reply node _ bitcoind_height - BlockDetail.height cached + 1) cached in
  fst (run node (block rt self hash)) = Next recomputed
  /\ LRU_peek (blockCache (snd (run node (block rt self hash)))) hash
     = Some recomputed.
Proof.
  intros Hhit recomputed. unfold block. rewrite LRU_get_peek, Hhit. simpl.
  split; [reflexivity|].
  unfold LRU_peek, LRU_mutate. simpl. now rewrite !jsstring_eqb_refl.
Qed.

(** The summary cache is written under the same condition, the confirmations
    being tip - height + 1. *)
Lemma summary_miss rt self cache hash moreTimestamp node :
  LRU_peek cache hash = None ->
  let r := run node (_getBlockSummary rt self cache hash moreTimestamp) in
  summaryCache_after r = cache
  \/ exists summary,
       passed r = Normal (inr summary)
       /\ reply node _ bitcoind_height - Summary.height summary + 1
          >= blockCacheConfirmations self
       /\ summaryCache_after r = LRU_set cache hash summary.
Proof.
  intros Hmiss. unfold _getBlockSummary. rewrite LRU_get_peek, Hmiss. simpl.
  destruct (reply node _ (bitcoind_getRawBlock hash)) as [err | raw];
    [simpl; auto|].
  simpl. destruct (reply node _ (client_getBlock hash)) as [err | txs];
    [simpl; auto|].
  simpl. destruct (reply node _ (getDetailedTransaction _)) as [err | outputs];
    simpl;
    (destruct (reply node _ (bitcoind_getBlockHeader hash)) as [err' | info];
     [simpl; auto|]); [simpl; auto|].
  destruct (getPoolInfo rt (poolStrings self) [RawBlock.coinbase raw])
    as [pool|]; [|simpl; auto].
  simpl.
  destruct (reply node _ bitcoind_height - Info.height info + 1
            >=? blockCacheConfirmations self) eqn:G.
  - right. eexists. split; [reflexivity|]. simpl.
    rewrite Z.geb_leb in G. apply Z.leb_le in G. split; [lia | reflexivity].
  - left. reflexivity.
Qed.

(** The assignment of a hit: the confirmations field of the record becomes
    tip - height + 1 and no other field changes. *)
Lemma set_confirmations_recomputed (tip : Z) (cached : BlockDetail.t) :
  recomputed_against tip cached
    (BlockDetail.set_confirmations (tip - BlockDetail.height cached + 1)
       cached).
Proof.
  unfold recomputed_against, BlockDetail.set_confirmations.
  cbn [BlockDetail.confirmations BlockDetail.hash BlockDetail.size
       BlockDetail.height BlockDetail.version BlockDetail.merkleroot
       BlockDetail.tx BlockDetail.time BlockDetail.nonce
       BlockDetail.solution BlockDetail.bits BlockDetail.difficulty
       BlockDetail.chainwork BlockDetail.previousblockhash
       BlockDetail.nextblockhash BlockDetail.reward BlockDetail.minedBy
       BlockDetail.isMainChain BlockDetail.poolInfo].
  repeat (split; [reflexivity|]). reflexivity.
Qed.

(** C1. With the threshold at 6, as the constructor sets it: a lookup that
    misses writes the detail cache only when the block it returns has
    confirmations >= 6; with fewer (5, say) the cache is left as it was and
    the hash is still absent from it; with 6 or more the block is stored,
    and every later hit, whatever the tip has become, returns a record
    whose confirmations field is tip - height + 1, computed at that read
    and never the stored value, every other field being the stored one,
    and keeps that record in the cache.  The summary cache is written
    under the same condition. *)
Theorem confirmation_gated_cache rt self hash node :
  blockCacheConfirmations self = 6 ->
  let result := run node (block rt self hash) in
  let summarised cache ts :=
    run node (_getBlockSummary rt self cache hash ts) in
  (LRU_peek (blockCache self) hash = None ->
     (blockCache (snd result) <> blockCache self ->
        exists b, fst result = Next b /\ 6 <= BlockDetail.confirmations b)
     /\ (forall b, fst result = Next b -> BlockDetail.confirmations b < 6 ->
           blockCache (snd result) = blockCache self
           /\ LRU_peek (blockCache (snd result)) hash = None)
     /\ (forall b, fst result = Next b -> 6 <= BlockDetail.confirmations b ->
           LRU_peek (blockCache (snd result)) hash = Some b
           /\ forall later,
                fst (run later (block rt (snd result) hash))
                = Next (BlockDetail.set_confirmations
                          (reply later _ bitcoind_height
                           - BlockDetail.height b + 1) b)
                /\ exists returned,
                     fst (run later (block rt (snd result) hash))
                     = Next returned
                     /\ BlockDetail.confirmations returned
                        = reply later _ bitcoind_height
                          - BlockDetail.height b + 1
                     /\ recomputed_against
                          (reply later _ bitcoind_height) b returned))
  /\ (forall cached, LRU_peek (blockCache self) hash = Some cached ->
        let recomputed :=
          BlockDetail.set_confirmations
            (reply node _ bitcoind_height - BlockDetail.height cached + 1)
            cached in
        fst result = Next recomputed
        /\ LRU_peek (blockCache (snd result)) hash = Some recomputed
        /\ exists returned,
             fst result = Next returned
             /\ LRU_peek (blockCache (snd result)) hash = Some returned
             /\ BlockDetail.confirmations returned
                = reply node _ bitcoind_height
                  - BlockDetail.height cached + 1
             /\ recomputed_against
                  (reply node _ bitcoind_height) cached returned)
  /\ (forall cache ts, LRU_peek cache hash = None ->
        (summaryCache_after (summarised cache ts) <> cache ->
           exists summary,
             passed (summarised cache ts) = Normal (inr summary)
             /\ 6 <= reply node _ bitcoind_height - Summary.height summary + 1)
        /\ (forall summary,
              passed (summarised cache ts) = Normal (inr summary) ->
              reply node _ bitcoind_height - Summary.height summary + 1 < 6 ->
              summaryCache_after (summarised cache ts) = cache)).
Proof.
  intros Hsix result summarised. split; [|split].
  - intros Hmiss. split; [|split].
    + intros Hchanged.
      destruct (block_miss rt self hash node Hmiss)
        as [H | (b & Hb & Hge & _)]; [contradiction|].
      exists b. split; [exact Hb | lia].
    + intros b Hb Hlt.
      assert (Hsame : blockCache (snd result) = blockCache self)
        by (apply (block_miss_below rt self hash node b); auto; lia).
      split; [exact Hsame | now rewrite Hsame].
    + intros b Hb Hge.
      assert (Hset : blockCache (snd result) = LRU_set (blockCache self) hash b)
        by (apply (block_miss_stored rt self hash node b); auto; lia).
      assert (Hpeek : LRU_peek (blockCache (snd result)) hash = Some b)
        by (rewrite Hset; apply LRU_peek_set).
      split; [exact Hpeek|].
      intros later.
      destruct (block_hit rt (snd result) hash later b Hpeek) as [Hret _].
      pose proof (set_confirmations_recomputed
                    (reply later _ bitcoind_height) b) as Hfresh.
      split; [exact Hret|]. eexists. split; [exact Hret|].
      split; [exact (proj1 Hfresh) | exact Hfresh].
  - intros cached Hhit.
    destruct (block_hit rt self hash node cached Hhit) as [Hret Hkept].
    pose proof (set_confirmations_recomputed
                  (reply node _ bitcoind_height) cached) as Hfresh.
    split; [exact Hret|]. split; [exact Hkept|].
    eexists. split; [exact Hret|]. split; [exact Hkept|].
    split; [exact (proj1 Hfresh) | exact Hfresh].
  - intros cache ts Hmiss. split.
    + intros Hchanged.
      destruct (summary_miss rt self cache hash ts node Hmiss)
        as [H | (summary & Hp & Hge & _)]; [contradiction|].
      exists summary. split; [exact Hp | lia].
    + intros summary Hp Hlt.
      destruct (summary_miss rt self cache hash ts node Hmiss)
        as [H | (summary' & Hp' & Hge & _)]; [exact H|].
      unfold summarised in Hp. rewrite Hp in Hp'. inversion Hp'; subst. lia.
Qed.

(** Height 100 under a tip at 105 has 6 confirmations and is stored; read
    again under a tip at 110 it comes back with 11 confirmations, not the
    6 it was stored with, and is otherwise the same block. *)
Lemma confirmation_gated_cache_witness :
  let first := run (example_node 105 None None None [])
                   (block example_runtime example_controller (js "100")) in
  let again := run (example_node 110 None None None [])
                   (block example_runtime (snd first) (js "100")) in
  blockCacheConfirmations example_controller = 6
  /\ exists b,
       fst first = Next b
       /\ BlockDetail.confirmations b = 6
       /\ fst again = Next (BlockDetail.set_confirmations 11 b)
       /\ exists returned,
            fst again = Next returned
            /\ BlockDetail.confirmations returned = 11
            /\ BlockDetail.height returned = 100
            /\ BlockDetail.hash returned = BlockDetail.hash b.
Proof.
  cbv zeta. split; [reflexivity|].
  destruct (confirmation_gated_cache example_runtime example_controller
              (js "100") (example_node 105 None None None []) eq_refl)
    as (Hmiss & _ & _).
  destruct (Hmiss eq_refl) as (_ & _ & Hstored). clear Hmiss.
  cbv zeta in Hstored.
  set (first := run (example_node 105 None None None [])
                    (block example_runtime example_controller (js "100")))
    in *.
  destruct (fst first) as [b | |] eqn:Hb;
    [|vm_compute in Hb; discriminate | vm_compute in Hb; discriminate].
  exists b.
  assert (Hc : BlockDetail.confirmations b = 6).
  { vm_compute in Hb. inversion Hb. reflexivity. }
  assert (Hh : BlockDetail.height b = 100).
  { vm_compute in Hb. inversion Hb. reflexivity. }
  split; [reflexivity|]. split; [exact Hc|].
  assert (Hge : 6 <= BlockDetail.confirmations b) by lia.
  destruct (Hstored b eq_refl Hge) as [_ Hlater].
  destruct (Hlater (example_node 110 None None None []))
    as (Hagain & returned & Hret & Hconf & Hfresh).
  split; [rewrite Hagain, Hh; reflexivity|].
  exists returned. split; [exact Hret|]. split; [|split].
  - rewrite Hconf, Hh. reflexivity.
  - destruct Hfresh as (_ & _ & _ & Hheight & _). now rewrite Hheight.
  - destruct Hfresh as (_ & Hhash & _). exact Hhash.
Defined.

(** ** Error paths *)

Lemma run_bind {A B} (node : Node) (p : prog A) (f : A -> prog B) :
  run node (bind p f) = run node (f (run node p)).
Proof. induction p as [a | R c k IH]; simpl; auto. Qed.

Lemma not_found_code_spec (err : Error) :
  not_found_code err = true <-> code err = Some (-5) \/ code err = Some (-8).
Proof.
  unfold not_found_code. destruct (code err) as [c|].
  - rewrite orb_true_iff, !Z.eqb_eq. split.
    + intros [-> | ->]; auto.
    + intros [H | H]; inversion H; auto.
  - split; [discriminate | intros [H | H]; discriminate].
Qed.

Lemma block_getBlock_error rt self hash node err :
  LRU_peek (blockCache self) hash = None ->
  reply node _ (node_getBlock hash) = inl err ->
  run node (block rt self hash)
  = (HandleErrors (if not_found_code err then None else Some err), self).
Proof.
  intros Hmiss Hr. unfold block. rewrite LRU_get_peek, Hmiss. simpl.
  rewrite Hr. now destruct (not_found_code err).
Qed.

Lemma block_getBlockHeader_error rt self hash node blk err :
  LRU_peek (blockCache self) hash = None ->
  reply node _ (node_getBlock hash) = inr blk ->
  reply node _ (bitcoind_getBlockHeader hash) = inl err ->
  run node (block rt self hash) = (HandleErrors (Some err), self).
Proof.
  intros Hmiss Hb Hh. unfold block. rewrite LRU_get_peek, Hmiss. simpl.
  rewrite Hb. simpl. now rewrite Hh.
Qed.

Lemma block_transaction_error rt self hash node blk info tx0 txs err :
  LRU_peek (blockCache self) hash = None ->
  reply node _ (node_getBlock hash) = inr blk ->
  reply node _ (bitcoind_getBlockHeader hash) = inr info ->
  Block.transactions blk = tx0 :: txs ->
  reply node _ (getDetailedTransaction (Str (tx_hash tx0))) = inl err ->
  fst (run node (block rt self hash))
  = match transformBlock rt self blk info None with
    | Normal b => Next b
    | Throw => Uncaught
    end.
Proof.
  intros Hmiss Hb Hh Htx Hd. unfold block. rewrite LRU_get_peek, Hmiss. simpl.
  rewrite Hb. simpl. rewrite Hh, Htx. simpl. rewrite Hd.
  now destruct (transformBlock rt self blk info None).
Qed.

Lemma transformBlock_without_transaction rt self blk info b :
  transformBlock rt self blk info None = Normal b ->
  BlockDetail.minedBy b = Undefined.
Proof.
  unfold transformBlock.
  destruct (getPoolInfo rt (poolStrings self) (Block.transactions blk));
    [|discriminate].
  intros H. inversion H. reflexivity.
Qed.

Lemma rawBlock_error hash node err :
  reply node _ (node_getRawBlock hash) = inl err ->
  run node (rawBlock hash)
  = HandleErrors (if not_found_code err then None else Some err).
Proof.
  intros Hr. unfold rawBlock. simpl. rewrite Hr.
  now destruct (not_found_code err).
Qed.

Lemma summary_getRawBlock_error rt self cache hash ts node err :
  LRU_peek cache hash = None ->
  reply node _ (bitcoind_getRawBlock hash) = inl err ->
  passed (run node (_getBlockSummary rt self cache hash ts))
  = Normal (inl err).
Proof.
  intros Hmiss Hr. unfold _getBlockSummary. rewrite LRU_get_peek, Hmiss.
  simpl. now rewrite Hr.
Qed.

Lemma summary_getBlockHeader_error rt self cache hash ts node raw txs err :
  LRU_peek cache hash = None ->
  reply node _ (bitcoind_getRawBlock hash) = inr raw ->
  reply node _ (client_getBlock hash) = inr txs ->
  reply node _ (bitcoind_getBlockHeader hash) = inl err ->
  passed (run node (_getBlockSummary rt self cache hash ts))
  = Normal (inl err).
Proof.
  intros Hmiss Hr Hc Hh. unfold _getBlockSummary. rewrite LRU_get_peek, Hmiss.
  simpl. rewrite Hr. simpl. rewrite Hc. simpl. now rewrite Hh.
Qed.

Lemma mapSeries_length {X Y S} (node : Node)
    (f : X -> S -> prog (completion (Error + Y) * S)) items :
  forall s ys s',
    run node (mapSeries f items s) = (Normal (inr ys), s') ->
    List.length ys = List.length items.
Proof.
  induction items as [|x rest IH]; intros s ys s'; simpl.
  - intros H. inversion H. reflexivity.
  - rewrite run_bind. destruct (run node (f x s)) as [[[err | y] |] s1];
      simpl; try discriminate.
    rewrite run_bind.
    destruct (run node (mapSeries f rest s1)) as [[[err | ys'] |] s2] eqn:E;
      simpl; try discriminate.
    intros H. inversion H; subst. simpl. f_equal. eapply IH. exact E.
Qed.

(** The items before [x] succeed and [x] fails: the series ends with the
    error of [x], whatever follows. *)
Lemma mapSeries_first_error {X Y S} (node : Node)
    (f : X -> S -> prog (completion (Error + Y) * S)) pre x post err :
  forall s ys s1,
    run node (mapSeries f pre s) = (Normal (inr ys), s1) ->
    fst (run node (f x s1)) = Normal (inl err) ->
    fst (run node (mapSeries f (pre ++ x :: post) s)) = Normal (inl err).
Proof.
  induction pre as [|p pre IH]; intros s ys s1; simpl.
  - intros H Hx. inversion H; subst. rewrite run_bind.
    destruct (run node (f x s1)) as [r s2]. simpl in *. now subst r.
  - rewrite !run_bind. destruct (run node (f p s)) as [[[e | y] |] s2];
      simpl; try discriminate.
    rewrite !run_bind.
    destruct (run node (mapSeries f pre s2)) as [[[e | ys'] |] s3] eqn:E;
      simpl; try discriminate.
    intros H Hx. inversion H; subst.
    pose proof (IH s2 ys' s1 E Hx) as Hfail.
    destruct (run node (mapSeries f (pre ++ x :: post) s2)) as [r s4].
    simpl in *. now subst r.
Qed.

Lemma insert_by_height_length x l :
  List.length (insert_by_height x l) = S (List.length l).
Proof.
  induction l as [|y l IH]; simpl; [reflexivity|].
  destruct (Summary.height y <=? Summary.height x); simpl; auto.
Qed.

Lemma sort_blocks_length blocks :
  List.length (sort_blocks blocks) = List.length blocks.
Proof.
  induction blocks as [|x l IH]; simpl; [reflexivity|].
  now rewrite insert_by_height_length, IH.
Qed.

(** What the listing answers, from the reply of getBlockHashesByTimestamp
    and the outcome of the series of summaries. *)
Lemma list_outcome rt self query node dateStr isToday hashes :
  resolve_date rt query = Some (dateStr, isToday) ->
  reply node _ (bitcoind_getBlockHashesByTimestamp
                  (list_lte rt query dateStr) (list_gte rt dateStr))
  = inr hashes ->
  let retained := retained_hashes (list_limit query) hashes in
  let series :=
    run node (list_summaries rt self (list_lte rt query dateStr)
                (snd retained) (blockSummaryCache self)) in
  match fst series with
  | Throw => fst (run node (prototype.list rt self query)) = Uncaught
  | Normal (inl err) =>
      fst (run node (prototype.list rt self query)) = HandleErrors (Some err)
  | Normal (inr blocks) =>
      exists data,
        fst (run node (prototype.list rt self query)) = Next data
        /\ ListData.blocks data = sort_blocks blocks
        /\ Pagination.more (ListData.pagination data) = fst retained
        /\ Pagination.moreTs (ListData.pagination data)
           = if fst retained then Some (list_lte rt query dateStr) else None
  end.
Proof.
  intros Hd Hr retained series. unfold prototype.list. rewrite Hd. simpl.
  rewrite Hr. subst series.
  destruct retained as [more kept] eqn:Er. subst retained. rewrite Er.
  rewrite run_bind. simpl.
  destruct (run node (list_summaries rt self (list_lte rt query dateStr) kept
                        (blockSummaryCache self)))
    as [[[err | blocks] |] cache]; simpl; auto.
  eexists. split; [reflexivity|]. simpl. auto.
Qed.

(** The claim C5 as worded fails in the summary builder: its getRawBlock
    call hands an error of code -5 to the listing as it is, and the listing
    answers with that error, not with the not-found answer. *)
Lemma summary_builder_keeps_not_found_code :
  let node := example_node 2000 None (Some not_found_error) None
                [js "100"; js "101"] in
  let query := example_query "2024-01-01" None in
  not_found_code not_found_error = true
  /\ passed (run node
               (_getBlockSummary example_runtime example_controller
                  (blockSummaryCache example_controller) (js "101") (Int 0)))
     = Normal (inl not_found_error)
  /\ fst (run node (prototype.list example_runtime example_controller query))
     = HandleErrors (Some not_found_error)
  /\ fst (run node (prototype.list example_runtime example_controller query))
     <> HandleErrors None.
Proof.
  cbv zeta.
  assert (H : fst (run (example_node 2000 None (Some not_found_error) None
                          [js "100"; js "101"])
                       (prototype.list example_runtime example_controller
                          (example_query "2024-01-01" None)))
              = HandleErrors (Some not_found_error))
    by (vm_compute; reflexivity).
  split; [reflexivity|]. split; [vm_compute; reflexivity|].
  split; [exact H|]. rewrite H. discriminate.
Qed.

(** C5, amended. An error of code -5 or -8 from the getBlock call of the
    block lookup or from the getRawBlock call of the raw-block lookup is
    answered as not found (handleErrors with no error); the getRawBlock call
    of the summary builder passes such an error on unchanged, like any
    other. *)
Theorem not_found_codes_mapped rt self node hash err :
  code err = Some (-5) \/ code err = Some (-8) ->
  (LRU_peek (blockCache self) hash = None ->
   reply node _ (node_getBlock hash) = inl err ->
   run node (block rt self hash) = (HandleErrors None, self))
  /\ (reply node _ (node_getRawBlock hash) = inl err ->
      run node (rawBlock hash) = HandleErrors None)
  /\ (forall cache ts,
        LRU_peek cache hash = None ->
        reply node _ (bitcoind_getRawBlock hash) = inl err ->
        passed (run node (_getBlockSummary rt self cache hash ts))
        = Normal (inl err)).
Proof.
  intros Hcode. apply not_found_code_spec in Hcode. split; [|split].
  - intros Hmiss Hr.
    rewrite (block_getBlock_error rt self hash node err Hmiss Hr).
    now rewrite Hcode.
  - intros Hr. rewrite (rawBlock_error hash node err Hr). now rewrite Hcode.
  - intros cache ts Hmiss Hr. now apply summary_getRawBlock_error.
Qed.

Lemma not_found_codes_mapped_witness :
  let node := example_node 105 (Some not_found_error) None None [] in
  run node (block example_runtime example_controller (js "100"))
  = (HandleErrors None, example_controller)
  /\ run node (rawBlock (js "100")) = HandleErrors None.
Proof.
  cbv zeta.
  destruct (not_found_codes_mapped example_runtime example_controller
              (example_node 105 (Some not_found_error) None None [])
              (js "100") not_found_error (or_introl eq_refl))
    as (Hblock & Hraw & _).
  split; [apply Hblock; reflexivity | apply Hraw; reflexivity].
Defined.

(** The claim C9 as worded fails for getDetailedTransaction in the block
    lookup: its error is dropped and the request ends normally, with a
    block that has no miner address. *)
Lemma transaction_detail_error_is_dropped :
  let node := example_node 105 None None (Some connection_error) [] in
  not_found_code connection_error = false
  /\ reply node _ (getDetailedTransaction (Str (js "c0")))
     = inl connection_error
  /\ exists b,
       fst (run node (block example_runtime example_controller (js "100")))
       = Next b
       /\ BlockDetail.minedBy b = Undefined
       /\ fst (run node (block example_runtime example_controller (js "100")))
          <> HandleErrors (Some connection_error).
Proof.
  cbv zeta. split; [reflexivity|]. split; [reflexivity|].
  eexists. split; [vm_compute; reflexivity|].
  split; [reflexivity|]. vm_compute. discriminate.
Qed.

(** C9, amended. An error of getBlock other than the not-found codes, and
    any error of getBlockHeader, of the raw-block lookup's getRawBlock
    (other than the not-found codes), of getBlockHashesByTimestamp and of
    the summary builder's getRawBlock and getBlockHeader, is handed on
    unchanged and ends the request; in a listing the first hash whose
    summary fails so ends the whole request with that error, and a listing
    that answers holds one summary for every hash it kept, never a part of
    them.  An error of getDetailedTransaction in the block lookup does not
    end the request: the block is returned without a miner address. *)
Theorem collaborator_errors_abort rt self node :
  (forall hash err,
     LRU_peek (blockCache self) hash = None ->
     reply node _ (node_getBlock hash) = inl err ->
     not_found_code err = false ->
     run node (block rt self hash) = (HandleErrors (Some err), self))
  /\ (forall hash blk err,
        LRU_peek (blockCache self) hash = None ->
        reply node _ (node_getBlock hash) = inr blk ->
        reply node _ (bitcoind_getBlockHeader hash) = inl err ->
        run node (block rt self hash) = (HandleErrors (Some err), self))
  /\ (forall hash err,
        reply node _ (node_getRawBlock hash) = inl err ->
        not_found_code err = false ->
        run node (rawBlock hash) = HandleErrors (Some err))
  /\ (forall query dateStr isToday err,
        resolve_date rt query = Some (dateStr, isToday) ->
        reply node _ (bitcoind_getBlockHashesByTimestamp
                        (list_lte rt query dateStr) (list_gte rt dateStr))
        = inl err ->
        run node (prototype.list rt self query)
        = (HandleErrors (Some err), self))
  /\ (forall cache hash ts err,
        LRU_peek cache hash = None ->
        reply node _ (bitcoind_getRawBlock hash) = inl err ->
        passed (run node (_getBlockSummary rt self cache hash ts))
        = Normal (inl err))
  /\ (forall cache hash ts raw txs err,
        LRU_peek cache hash = None ->
        reply node _ (bitcoind_getRawBlock hash) = inr raw ->
        reply node _ (client_getBlock hash) = inr txs ->
        reply node _ (bitcoind_getBlockHeader hash) = inl err ->
        passed (run node (_getBlockSummary rt self cache hash ts))
        = Normal (inl err))
  /\ (forall query dateStr isToday hashes pre x post summaries cache err,
        resolve_date rt query = Some (dateStr, isToday) ->
        reply node _ (bitcoind_getBlockHashesByTimestamp
                        (list_lte rt query dateStr) (list_gte rt dateStr))
        = inr hashes ->
        snd (retained_hashes (list_limit query) hashes) = pre ++ x :: post ->
        run node (list_summaries rt self (list_lte rt query dateStr) pre
                    (blockSummaryCache self))
        = (Normal (inr summaries), cache) ->
        passed (run node (_getBlockSummary rt self cache x
                            (list_lte rt query dateStr)))
        = Normal (inl err) ->
        fst (run node (prototype.list rt self query))
        = HandleErrors (Some err))
  /\ (forall query dateStr isToday hashes data,
        resolve_date rt query = Some (dateStr, isToday) ->
        reply node _ (bitcoind_getBlockHashesByTimestamp
                        (list_lte rt query dateStr) (list_gte rt dateStr))
        = inr hashes ->
        fst (run node (prototype.list rt self query)) = Next data ->
        List.length (ListData.blocks data)
        = List.length (snd (retained_hashes (list_limit query) hashes)))
  /\ (forall hash blk info tx0 txs err,
        LRU_peek (blockCache self) hash = None ->
        reply node _ (node_getBlock hash) = inr blk ->
        reply node _ (bitcoind_getBlockHeader hash) = inr info ->
        Block.transactions blk = tx0 :: txs ->
        reply node _ (getDetailedTransaction (Str (tx_hash tx0))) = inl err ->
        fst (run node (block rt self hash))
        = match transformBlock rt self blk info None with
          | Normal b => Next b
          | Throw => Uncaught
          end
        /\ forall b, transformBlock rt self blk info None = Normal b ->
                     BlockDetail.minedBy b = Undefined).
Proof.
  repeat match goal with |- _ /\ _ => split end.
  - intros hash err Hmiss Hr Hcode.
    rewrite (block_getBlock_error rt self hash node err Hmiss Hr).
    now rewrite Hcode.
  - intros hash blk err. apply block_getBlockHeader_error.
  - intros hash err Hr Hcode. rewrite (rawBlock_error hash node err Hr).
    now rewrite Hcode.
  - intros query dateStr isToday err Hd Hr. unfold prototype.list.
    rewrite Hd. simpl. now rewrite Hr.
  - intros cache hash ts err. apply summary_getRawBlock_error.
  - intros cache hash ts raw txs err. apply summary_getBlockHeader_error.
  - intros query dateStr isToday hashes pre x post summaries cache err
      Hd Hr Hkept Hpre Hx.
    pose proof (list_outcome rt self query node dateStr isToday hashes Hd Hr)
      as Hout. cbv zeta in Hout. rewrite Hkept in Hout.
    unfold list_summaries in Hout, Hpre.
    erewrite mapSeries_first_error in Hout; [exact Hout | exact Hpre |].
    rewrite run_bind. simpl. exact Hx.
  - intros query dateStr isToday hashes data Hd Hr Hnext.
    pose proof (list_outcome rt self query node dateStr isToday hashes Hd Hr)
      as Hout. cbv zeta in Hout.
    destruct (run node
                (list_summaries rt self (list_lte rt query dateStr)
                   (snd (retained_hashes (list_limit query) hashes))
                   (blockSummaryCache self)))
      as [[[err | blocks] |] cache] eqn:E; simpl in Hout.
    + rewrite Hout in Hnext. discriminate.
    + destruct Hout as (data' & Hd' & Hblocks & _).
      rewrite Hd' in Hnext. inversion Hnext; subst data'.
      rewrite Hblocks, sort_blocks_length.
      unfold list_summaries in E. eapply mapSeries_length. exact E.
    + rewrite Hout in Hnext. discriminate.
  - intros hash blk info tx0 txs err Hmiss Hb Hh Htx Hd. split.
    + exact (block_transaction_error rt self hash node blk info tx0 txs err
               Hmiss Hb Hh Htx Hd).
    + intros b. apply transformBlock_without_transaction.
Qed.

(** ** Listing *)

Lemma insert_by_height_sorted x l :
  Sorted descending l -> Sorted descending (insert_by_height x l).
Proof.
  induction l as [|y l IH]; simpl; intros Hs.
  - repeat constructor.
  - destruct (Summary.height y <=? Summary.height x) eqn:E.
    + apply Z.leb_le in E. constructor; [exact Hs|]. constructor. exact E.
    + apply Z.leb_gt in E. inversion Hs as [|? ? Hs' Hhd]; subst.
      constructor; [auto|].
      destruct l as [|z l]; simpl.
      * constructor. unfold descending. lia.
      * destruct (Summary.height z <=? Summary.height x).
        -- constructor. unfold descending. lia.
        -- constructor. inversion Hhd; subst. assumption.
Qed.

(** The blocks of a listing are in descending order of height; two blocks
    of the same height stay next to each other. *)
Lemma sort_blocks_sorted blocks : Sorted descending (sort_blocks blocks).
Proof.
  induction blocks as [|x l IH]; simpl; [constructor|].
  now apply insert_by_height_sorted.
Qed.

Lemma retained_hashes_more n hashes :
  n < Z.of_nat (List.length hashes) ->
  fst (retained_hashes (Int n) hashes) = true.
Proof.
  intros H. unfold retained_hashes. rewrite length_rev.
  assert (G : (Z.of_nat (List.length hashes) >? n) = true)
    by (rewrite Z.gtb_ltb; apply Z.ltb_lt; lia).
  now rewrite G.
Qed.

(** Whatever the summaries hold, the [moreTs] of a cut listing is the upper
    bound [lte] the listing started from. *)
Lemma list_moreTs rt self query node dateStr isToday hashes n data :
  resolve_date rt query = Some (dateStr, isToday) ->
  reply node _ (bitcoind_getBlockHashesByTimestamp
                  (list_lte rt query dateStr) (list_gte rt dateStr))
  = inr hashes ->
  list_limit query = Int n ->
  n < Z.of_nat (List.length hashes) ->
  fst (run node (prototype.list rt self query)) = Next data ->
  Pagination.more (ListData.pagination data) = true
  /\ Pagination.moreTs (ListData.pagination data)
     = Some (list_lte rt query dateStr)
  /\ Sorted descending (ListData.blocks data).
Proof.
  intros Hd Hr Hl Hn Hnext.
  pose proof (list_outcome rt self query node dateStr isToday hashes Hd Hr)
    as Hout. cbv zeta in Hout.
  rewrite Hl, (retained_hashes_more n hashes Hn) in Hout.
  destruct (fst (run node
                   (list_summaries rt self (list_lte rt query dateStr)
                      (snd (retained_hashes (Int n) hashes))
                      (blockSummaryCache self))))
    as [[err | blocks] |].
  - rewrite Hout in Hnext. discriminate.
  - destruct Hout as (data' & Hd' & Hblocks & Hmore & Hts).
    rewrite Hd' in Hnext. inversion Hnext; subst data'.
    repeat split; auto. rewrite Hblocks. apply sort_blocks_sorted.
  - rewrite Hout in Hnext. discriminate.
Qed.

(** C3, on the code. Three blocks fall in the day 2024-01-01 and the limit
    is 2: the listing reports more = true and the two newest blocks in
    descending order of height, their times being 1704067302 and
    1704067301; yet moreTs is 1704153600, the upper bound of the day, and
    not the smallest of these times.  The minimum is computed, by finish,
    on the parameter of _getBlockSummary only (1704067301 for the block
    101) and never reaches the variable of list. *)
Theorem listing_moreTs_is_the_upper_bound :
  let node := example_node 2000 None None None
                [js "100"; js "101"; js "102"] in
  let query := example_query "2024-01-01" (Some "2"%string) in
  (exists data,
     fst (run node (prototype.list example_runtime example_controller query))
     = Next data
     /\ Pagination.more (ListData.pagination data) = true
     /\ List.map Summary.height (ListData.blocks data) = [102; 101]
     /\ List.map Summary.time (ListData.blocks data)
        = [1704067302; 1704067301]
     /\ Pagination.moreTs (ListData.pagination data) = Some (Int 1704153600))
  /\ moreTimestamp_local
       (run node
          (_getBlockSummary example_runtime example_controller
             (blockSummaryCache example_controller) (js "101")
             (Int 1704153600)))
     = Int 1704067301.
Proof.
  cbv zeta. split.
  - eexists. split; [vm_compute; reflexivity|].
    repeat split; vm_compute; reflexivity.
  - vm_compute. reflexivity.
Qed.

Lemma list_format_error rt self query :
  truthy (blockDate query) = true ->
  datePattern_test (ToString (blockDate query)) = false ->
  prototype.list rt self query = Ret (HandleErrors (Some format_error), self).
Proof.
  intros Ht Hp. unfold prototype.list, resolve_date. now rewrite Ht, Hp.
Qed.

Lemma list_date_accepted rt self query :
  truthy (blockDate query) = true ->
  datePattern_test (ToString (blockDate query)) = true ->
  exists high low k,
    prototype.list rt self query
    = Call (bitcoind_getBlockHashesByTimestamp high low) k.
Proof.
  intros Ht Hp. unfold prototype.list, resolve_date. rewrite Ht, Hp. simpl.
  eauto.
Qed.

(** The date 2024/01/01 is refused with the format error before any call
    to the node. *)
Example list_refuses_slashes rt self node :
  run node (prototype.list rt self (example_query "2024/01/01" None))
  = (HandleErrors (Some format_error), self)
  /\ calls node (prototype.list rt self (example_query "2024/01/01" None))
     = [].
Proof.
  rewrite list_format_error by reflexivity. split; reflexivity.
Qed.

(** C8, on the code. The string 2024-01-01x is not of the form yyyy-mm-dd,
    but the pattern of the listing has no anchors and finds 2024-01-01
    inside it: whatever the runtime makes of the date, the request is not
    refused and its first act is a call to getBlockHashesByTimestamp. *)
Theorem unanchored_date_pattern_reaches_node rt self node :
  let query := example_query "2024-01-01x" None in
  datePattern_test (js "2024-01-01x") = true
  /\ resolve_date rt query <> None
  /\ exists high low rest,
       calls node (prototype.list rt self query)
       = Event (bitcoind_getBlockHashesByTimestamp high low) :: rest.
Proof.
  cbv zeta. split; [reflexivity|]. split.
  - unfold resolve_date. simpl.
    change (datePattern_test (js "2024-01-01x")) with true. discriminate.
  - destruct (list_date_accepted rt self (example_query "2024-01-01x" None))
      as (high & low & k & Hk); [reflexivity | reflexivity |].
    rewrite Hk. simpl. eauto.
Qed.

(** ** Further properties of the reward schedule *)

Lemma reward_value_ramp1 h : h < 2000 -> reward_value h = 500000 * h.
Proof.
  intros H. unfold reward_value, getBlockReward, BN_ToNumber.
  change (4000 / 2) with 2000. apply Z.ltb_lt in H. now rewrite H.
Qed.

Lemma reward_value_ramp2 h :
  2000 <= h < 4000 -> reward_value h = 500000 * (h + 1).
Proof.
  intros [H1 H2]. unfold reward_value, getBlockReward, BN_ToNumber.
  change (4000 / 2) with 2000.
  apply Z.ltb_ge in H1. apply Z.ltb_lt in H2. now rewrite H1, H2.
Qed.

Lemma reward_value_late h :
  4000 <= h -> 64 <= (h - 2000) / 2102400 -> reward_value h = 0.
Proof.
  intros H1 H2. unfold reward_value, getBlockReward.
  change (4000 / 2) with 2000.
  assert (E1 : (h <? 2000) = false) by (apply Z.ltb_ge; lia).
  assert (E2 : (h <? 4000) = false) by (apply Z.ltb_ge; lia).
  rewrite E1, E2, Z.geb_leb. apply Z.leb_le in H2. now rewrite H2.
Qed.

Lemma reward_value_halved h :
  4000 <= h -> (h - 2000) / 2102400 < 64 ->
  reward_value h = 2000000000 / 2 ^ ((h - 2000) / 2102400).
Proof.
  intros H1 H2. unfold reward_value.
  rewrite getBlockReward_halved by assumption.
  apply Z.shiftr_div_pow2. apply Z.div_pos; lia.
Qed.

Lemma halvings_bounds h :
  let q := (h - 2000) / 2102400 in
  2102400 * q <= h - 2000 < 2102400 * q + 2102400.
Proof.
  intros q. pose proof (Z.div_mod (h - 2000) 2102400 ltac:(lia)).
  pose proof (Z.mod_pos_bound (h - 2000) 2102400 ltac:(lia)). subst q. lia.
Qed.

Lemma pow2_31 q : 31 <= q -> 2000000000 < 2 ^ q.
Proof.
  intros H. assert (2 ^ 31 <= 2 ^ q) by (apply Z.pow_le_mono_r; lia).
  change (2 ^ 31) with 2147483648 in *. lia.
Qed.

Lemma pow2_30 q : 0 <= q <= 30 -> 0 < 2 ^ q <= 2000000000.
Proof.
  intros H. assert (2 ^ q <= 2 ^ 30) by (apply Z.pow_le_mono_r; lia).
  assert (0 < 2 ^ q) by (apply Z.pow_pos_nonneg; lia).
  change (2 ^ 30) with 1073741824 in *. lia.
Qed.

Lemma getBlockReward_is_value h :
  0 <= h -> getBlockReward h = Int (reward_value h).
Proof.
  intros Hh. unfold reward_value.
  destruct (Z.lt_ge_cases h 4000) as [Hlt | Hge].
  - unfold getBlockReward, BN_ToNumber. change (4000 / 2) with 2000.
    destruct (h <? 2000); [reflexivity|].
    apply Z.ltb_lt in Hlt. now rewrite Hlt.
  - destruct (Z.lt_ge_cases ((h - 2000) / 2102400) 64) as [Hq | Hq].
    + now rewrite getBlockReward_halved.
    + unfold getBlockReward. change (4000 / 2) with 2000.
      assert (E1 : (h <? 2000) = false) by (apply Z.ltb_ge; lia).
      assert (E2 : (h <? 4000) = false) by (apply Z.ltb_ge; lia).
      rewrite E1, E2, Z.geb_leb. apply Z.leb_le in Hq. now rewrite Hq.
Qed.

Lemma reward_value_range h :
  0 <= h ->
  0 <= reward_value h <= 2000000000
  /\ (reward_value h = 0 <-> h = 0 \/ 65176400 <= h).
Proof.
  intros Hh.
  destruct (Z.lt_ge_cases h 2000) as [H1 | H1].
  { rewrite reward_value_ramp1 by lia. lia. }
  destruct (Z.lt_ge_cases h 4000) as [H2 | H2].
  { rewrite reward_value_ramp2 by lia. lia. }
  pose proof (halvings_bounds h) as Hb. cbv zeta in Hb.
  destruct (Z.lt_ge_cases ((h - 2000) / 2102400) 64) as [Hq | Hq].
  - rewrite reward_value_halved by assumption.
    set (q := (h - 2000) / 2102400) in *.
    assert (Hq0 : 0 <= q) by lia.
    destruct (Z.lt_ge_cases q 31) as [Hs | Hs].
    + pose proof (pow2_30 q ltac:(lia)) as Hp.
      assert (1 <= 2000000000 / 2 ^ q)
        by (apply Z.div_le_lower_bound; lia).
      assert (2000000000 / 2 ^ q <= 2000000000)
        by (apply Z.div_le_upper_bound; nia).
      lia.
    + pose proof (pow2_31 q Hs) as Hp.
      rewrite Z.div_small by lia. lia.
  - rewrite reward_value_late by assumption. lia.
Qed.

(** X1. At every height from 0 on getBlockReward returns an integer
    between 0 and the full subsidy of 2000000000.  It is 0 at height 0
    and from height 65176400 on, and nowhere else: the subsidy has
    fewer than 31 bits, so the shift empties it at the 31st halving, long
    before the guard on 64 halvings applies. *)
Theorem reward_bounds h :
  0 <= h ->
  exists r,
    getBlockReward h = Int r
    /\ 0 <= r <= 2000000000
    /\ (r = 0 <-> h = 0 \/ 65176400 <= h).
Proof.
  intros Hh. exists (reward_value h).
  split; [now apply getBlockReward_is_value | now apply reward_value_range].
Qed.

Lemma reward_bounds_witness :
  exists r,
    getBlockReward 65176399 = Int r
    /\ 0 <= r <= 2000000000
    /\ (r = 0 <-> 65176399 = 0 \/ 65176400 <= 65176399).
Proof. apply (reward_bounds 65176399). lia. Defined.

(** X2. The slow start: from height 0 to 3999 the reward grows by 500000
    a block, except from 1999 to 2000 where it grows by twice that, so that
    no block of the slow start pays exactly half the full subsidy; the
    last block of the slow start already pays the full subsidy of height
    4000. *)
Theorem slow_start_ramp :
  (forall h, 0 <= h < 3999 ->
     reward_value (h + 1) - reward_value h
     = if h =? 1999 then 1000000 else 500000)
  /\ (forall h, 0 <= h < 4000 -> reward_value h <> 2000000000 / 2)
  /\ reward_value 3999 = reward_value 4000.
Proof.
  split; [|split].
  - intros h Hh. destruct (h =? 1999) eqn:E.
    + apply Z.eqb_eq in E. subst h. reflexivity.
    + apply Z.eqb_neq in E.
      destruct (Z.lt_ge_cases h 1999) as [H | H].
      * rewrite !reward_value_ramp1 by lia. lia.
      * rewrite !reward_value_ramp2 by lia. lia.
  - intros h Hh. change (2000000000 / 2) with 1000000000.
    destruct (Z.lt_ge_cases h 2000) as [H | H].
    + rewrite reward_value_ramp1 by lia. lia.
    + rewrite reward_value_ramp2 by lia. lia.
  - reflexivity.
Qed.

(** X3. From the last block of the slow start on, the reward never grows
    with the height. *)
Theorem reward_never_grows_after_slow_start h1 h2 :
  3999 <= h1 <= h2 -> reward_value h2 <= reward_value h1.
Proof.
  intros [H1 H12].
  assert (Hgen : forall a b, 4000 <= a <= b ->
                             reward_value b <= reward_value a).
  { intros a b [Ha Hab].
    pose proof (halvings_bounds a) as Hba.
    pose proof (halvings_bounds b) as Hbb.
    cbv zeta in *.
    assert (Hq : (a - 2000) / 2102400 <= (b - 2000) / 2102400)
      by (apply Z.div_le_mono; lia).
    destruct (Z.lt_ge_cases ((b - 2000) / 2102400) 64) as [Hb | Hb].
    - rewrite !reward_value_halved by lia.
      set (qa := (a - 2000) / 2102400) in *.
      set (qb := (b - 2000) / 2102400) in *.
      assert (0 <= qa) by lia.
      assert (0 < 2 ^ qa) by (apply Z.pow_pos_nonneg; lia).
      assert (2 ^ qa <= 2 ^ qb) by (apply Z.pow_le_mono_r; lia).
      apply Z.div_le_compat_l; lia.
    - rewrite (reward_value_late b) by lia.
      destruct (Z.lt_ge_cases ((a - 2000) / 2102400) 64) as [Ha' | Ha'].
      + rewrite reward_value_halved by lia. apply Z.div_pos; [lia|].
        apply Z.pow_pos_nonneg; lia.
      + rewrite reward_value_late by lia. lia. }
  destruct (Z.eq_dec h1 3999) as [-> | Hne].
  - destruct (Z.eq_dec h2 3999) as [-> | Hne2]; [lia|].
    change (reward_value 3999) with (reward_value 4000). apply Hgen. lia.
  - apply Hgen. lia.
Qed.

Lemma reward_never_grows_after_slow_start_witness :
  reward_value (2000 + 2102400) <= reward_value 3999.
Proof.
  apply (reward_never_grows_after_slow_start 3999 (2000 + 2102400)). lia.
Defined.

Lemma reward_sum_app lo n m :
  reward_sum lo (n + m) = reward_sum lo n + reward_sum (lo + Z.of_nat n) m.
Proof.
  revert lo. induction n as [|n IH]; intros lo.
  - simpl. now rewrite Z.add_0_r.
  - cbn [reward_sum Nat.add]. rewrite IH.
    replace (lo + 1 + Z.of_nat n) with (lo + Z.of_nat (S n)) by lia. lia.
Qed.

Lemma reward_sum_const lo n c :
  (forall h, lo <= h < lo + Z.of_nat n -> reward_value h = c) ->
  reward_sum lo n = Z.of_nat n * c.
Proof.
  revert lo. induction n as [|n IH]; intros lo H.
  - reflexivity.
  - cbn [reward_sum]. rewrite (H lo) by lia. rewrite IH.
    + lia.
    + intros h Hh. apply H. lia.
Qed.

Lemma reward_sum_slow_start : reward_sum 0 4000 = 2000 * 2000000000.
Proof. vm_compute. reflexivity. Qed.

Lemma reward_value_era (k : nat) h :
  4000 <= h ->
  2000 + Z.of_nat k * 2102400 <= h < 2000 + (Z.of_nat k + 1) * 2102400 ->
  reward_value h = Z.shiftr (20 * 100000000) (Z.of_nat k).
Proof.
  intros H4 Hk. pose proof (halvings_bounds h) as Hb. cbv zeta in Hb.
  assert (Hq : (h - 2000) / 2102400 = Z.of_nat k) by lia.
  destruct (Z.lt_ge_cases (Z.of_nat k) 64) as [Hs | Hs].
  - unfold reward_value. rewrite getBlockReward_halved by lia. now rewrite Hq.
  - rewrite reward_value_late by lia. symmetry.
    apply Z.shiftr_eq_0; [lia|]. change (Z.log2 (20 * 100000000)) with 30. lia.
Qed.

Lemma to_nat_split a b :
  0 <= a -> 0 <= b -> Z.to_nat (a + b) = (Z.to_nat a + Z.to_nat b)%nat.
Proof. intros. apply Z2Nat.inj_add; assumption. Qed.

Lemma reward_sum_to_nat_app lo a b :
  0 <= a -> 0 <= b ->
  reward_sum lo (Z.to_nat (a + b))
  = reward_sum lo (Z.to_nat a) + reward_sum (lo + a) (Z.to_nat b).
Proof.
  intros Ha Hb. rewrite Z2Nat.inj_add by assumption.
  rewrite reward_sum_app. now rewrite Z2Nat.id by assumption.
Qed.

Lemma reward_sum_to_nat_const lo n c :
  0 <= n ->
  (forall h, lo <= h < lo + n -> reward_value h = c) ->
  reward_sum lo (Z.to_nat n) = n * c.
Proof.
  intros Hn H. rewrite (reward_sum_const lo (Z.to_nat n) c).
  - now rewrite Z2Nat.id by assumption.
  - intros h Hh. apply H. rewrite Z2Nat.id in Hh by assumption. exact Hh.
Qed.

Lemma reward_sum_slow_start_to_nat :
  reward_sum 0 (Z.to_nat 4000) = 2000 * 2000000000.
Proof. vm_compute. reflexivity. Qed.

Lemma issued_by_era (k : nat) :
  reward_sum 0 (Z.to_nat (2000 + (Z.of_nat k + 1) * 2102400))
  = 2102400 * shifted_sum k.
Proof.
  induction k as [|k IH].
  - pose proof (reward_sum_to_nat_app 0 4000 2100400 ltac:(lia) ltac:(lia))
      as E1.
    pose proof reward_sum_slow_start_to_nat as E2.
    pose proof (reward_sum_to_nat_const (0 + 4000) 2100400
                  (Z.shiftr (20 * 100000000) 0) ltac:(lia)) as E3.
    change (2000 + (Z.of_nat 0 + 1) * 2102400) with (4000 + 2100400).
    cbn [shifted_sum]. change (Z.of_nat 0) with 0 in *.
    rewrite Z.shiftr_0_r in *.
    assert (E4 : reward_sum (0 + 4000) (Z.to_nat 2100400)
                 = 2100400 * (20 * 100000000)).
    { apply E3. intros h Hh. rewrite (reward_value_era 0) by lia.
      apply Z.shiftr_0_r. }
    lia.
  - pose proof (reward_sum_to_nat_app 0 (2000 + (Z.of_nat k + 1) * 2102400)
                  2102400 ltac:(lia) ltac:(lia)) as E1.
    pose proof (reward_sum_to_nat_const
                  (0 + (2000 + (Z.of_nat k + 1) * 2102400)) 2102400
                  (Z.shiftr (20 * 100000000) (Z.of_nat (S k))) ltac:(lia))
      as E3.
    assert (E4 : reward_sum (0 + (2000 + (Z.of_nat k + 1) * 2102400))
                   (Z.to_nat 2102400)
                 = 2102400 * Z.shiftr (20 * 100000000) (Z.of_nat (S k))).
    { apply E3. intros h Hh. apply (reward_value_era (S k)); lia. }
    replace (2000 + (Z.of_nat (S k) + 1) * 2102400)
      with (2000 + (Z.of_nat k + 1) * 2102400 + 2102400) by lia.
    cbn [shifted_sum]. lia.
Qed.

(** X4. What the schedule issues in all.  The 4000 blocks of the slow start
    pay together what 2000 blocks at the full subsidy pay, as if there were
    no slow start; up to the end of the halving period k (height
    2000 + (k + 1) * 2102400) the blocks pay 2102400 times the sum of the
    subsidy shifted by 0 to k bits; and from height 65176400 on nothing is
    added: the blocks below any such height pay 8409599972668800 together. *)
Theorem total_issue :
  (forall k : nat,
     reward_sum 0 (Z.to_nat (2000 + (Z.of_nat k + 1) * 2102400))
     = 2102400 * shifted_sum k)
  /\ reward_sum 0 4000 = 2000 * (20 * 100000000)
  /\ (forall n, 65176400 <= n ->
        reward_sum 0 (Z.to_nat n) = 8409599972668800).
Proof.
  split; [exact issued_by_era|]. split; [exact reward_sum_slow_start|].
  intros n Hn.
  pose proof (issued_by_era 30) as E0.
  change (2000 + (Z.of_nat 30 + 1) * 2102400) with 65176400 in E0.
  change (2102400 * shifted_sum 30) with 8409599972668800 in E0.
  pose proof (reward_sum_to_nat_app 0 65176400 (n - 65176400)
                ltac:(lia) ltac:(lia)) as E1.
  replace (65176400 + (n - 65176400)) with n in E1 by lia.
  assert (E2 : reward_sum (0 + 65176400) (Z.to_nat (n - 65176400))
               = (n - 65176400) * 0).
  { apply reward_sum_to_nat_const; [lia|].
    intros h Hh. apply reward_value_range; lia. }
  lia.
Qed.

(** ** The pool lookup under any matcher *)

Lemma In_insert_index {V} n (e : jsstring * V) l x :
  In x (insert_index n e l) <-> (n, e) = x \/ In x l.
Proof.
  induction l as [|[m e'] l IH]; simpl.
  - tauto.
  - destruct (n <? m); simpl; [tauto|]. rewrite IH. tauto.
Qed.

Lemma In_index_entries {V} (o : object V) e :
  In e (List.map snd (index_entries o))
  <-> In e o /\ array_index (fst e) <> None.
Proof.
  induction o as [|e0 o IH]; simpl.
  - tauto.
  - destruct (array_index (fst e0)) as [n|] eqn:A.
    + rewrite in_map_iff. split.
      * intros ([m e'] & Heq & Hin). simpl in Heq. subst e'.
        apply In_insert_index in Hin. destruct Hin as [Hin | Hin].
        -- inversion Hin; subst. split; [auto | congruence].
        -- assert (In e (List.map snd (index_entries o)))
             by (apply in_map_iff; exists (m, e); auto).
           apply IH in H. tauto.
      * intros [[-> | Hin] Hne].
        -- exists (n, e). split; [reflexivity|].
           apply In_insert_index. now left.
        -- assert (Hm : In e (List.map snd (index_entries o)))
             by (apply IH; auto).
           apply in_map_iff in Hm. destruct Hm as ([m e'] & Heq & Hin').
           exists (m, e'). split; [exact Heq|].
           apply In_insert_index. now right.
    + rewrite IH. split.
      * intros [H1 H2]. auto.
      * intros [[-> | Hin] Hne]; [congruence | auto].
Qed.

(** The loop over the keys visits every property, whatever the order. *)
Lemma In_for_in {V} (o : object V) e : In e (for_in o) <-> In e o.
Proof.
  unfold for_in, named_entries.
  rewrite in_app_iff, In_index_entries, filter_In.
  destruct (array_index (fst e)); split.
  - intros [[H _] | [_ H]]; [exact H | discriminate].
  - intros H. left. split; [exact H | discriminate].
  - intros [[_ H] | [H _]]; [congruence | exact H].
  - intros H. right. auto.
Qed.

Lemma In_obj_set {V} (o : object V) k v e :
  In e (obj_set o k v) -> e = (k, v) \/ In e o.
Proof.
  induction o as [|[k0 v0] o IH]; simpl.
  - intros [<- | []]. now left.
  - destruct (jsstring_eqb k0 k) eqn:E; simpl.
    + apply jsstring_eqb_eq in E. subst k0. intros [<- | H]; auto.
    + intros [<- | H]; auto. destruct (IH H); auto.
Qed.

Lemma In_build_from es : forall o e,
  In e (build_from o es) -> In e o \/ In e es.
Proof.
  induction es as [|[k v] es IH]; intros o e; simpl; [auto|].
  intros H. apply IH in H. destruct H as [H | H]; [|auto].
  apply In_obj_set in H. simpl in H. destruct H as [-> | H]; auto.
Qed.

Lemma keys_obj_set_In {V} (o : object V) k v k' :
  In k' (List.map fst o) \/ k' = k -> In k' (List.map fst (obj_set o k v)).
Proof.
  rewrite keys_obj_set.
  destruct (existsb (fun k0 => jsstring_eqb k0 k) (List.map fst o)) eqn:E.
  - intros [H | ->]; [exact H|].
    apply existsb_exists in E. destruct E as (k0 & Hin & Hk).
    apply jsstring_eqb_eq in Hk. now subst.
  - intros [H | ->]; apply in_or_app; [left | right; left]; auto.
Qed.

Lemma keys_build_from_In es : forall o k,
  In k (List.map fst o) \/ In k (List.map fst es) ->
  In k (List.map fst (build_from o es)).
Proof.
  induction es as [|[k0 v0] es IH]; intros o k; simpl.
  - intros [H | []]. exact H.
  - intros H. apply IH.
    destruct H as [H | [<- | H]]; [left | left | right; exact H];
      apply keys_obj_set_In; auto.
Qed.

Lemma getPoolInfo_loop_result rt buffer entries :
  let text := Buffer_toString_utf8 rt buffer in
  match getPoolInfo_loop rt buffer entries with
  | Normal (Some info) =>
      exists k, In (k, info) entries /\ String_match rt text k = Normal true
  | Normal None =>
      forall k, In k (List.map fst entries) ->
                String_match rt text k = Normal false
  | Throw =>
      exists k, In k (List.map fst entries) /\ String_match rt text k = Throw
  end.
Proof.
  intros text. induction entries as [|[k v] entries IH]; simpl.
  - intros k [].
  - fold text. destruct (String_match rt text k) as [[|]|] eqn:M.
    + exists k. auto.
    + destruct (getPoolInfo_loop rt buffer entries) as [[info|]|].
      * destruct IH as (k' & Hin & Hm). exists k'. auto.
      * intros k' [<- | Hin]; auto.
      * destruct IH as (k' & Hin & Hm). exists k'. auto.
    + exists k. auto.
Qed.

(** X5. For a configuration in which no signature is the name __proto__
    (an assignment under that name replaces the prototype of the table and
    adds no property to it, which is no part of the model), and whatever
    the matcher does with a signature, the pool lookup on the table the
    constructor builds answers from the configuration only: a pool it
    returns is the {poolName, url} of a configured pool, for one of that
    pool's signatures which matches the decoded script; it returns the
    empty object only when no configured signature matches; and an
    exception leaves it only when the match of some configured signature
    raises one. *)
Theorem getPoolInfo_answers_configured_pool rt pools tx rest :
  (forall pool s, In pool pools -> In s (searchStrings pool) ->
                  s <> js "__proto__") ->
  let text := Buffer_toString_utf8 rt (tx_scriptBuffer tx) in
  match getPoolInfo rt (build_poolStrings pools) (tx :: rest) with
  | Normal (Some info) =>
      exists pool s,
        In pool pools /\ In s (searchStrings pool)
        /\ info = {| poolName := pool_poolName pool; url := pool_url pool |}
        /\ String_match rt text s = Normal true
  | Normal None =>
      forall pool s, In pool pools -> In s (searchStrings pool) ->
                     String_match rt text s = Normal false
  | Throw =>
      exists pool s,
        In pool pools /\ In s (searchStrings pool)
        /\ String_match rt text s = Throw
  end.
Proof.
  intros _ text.
  assert (Hentry : forall s info, In (s, info) (config_entries pools) <->
            exists pool, In pool pools /\ In s (searchStrings pool)
              /\ info = {| poolName := pool_poolName pool;
                           url := pool_url pool |}).
  { intros s info. unfold config_entries. rewrite in_flat_map. split.
    - intros (pool & Hp & Hin). apply in_map_iff in Hin.
      destruct Hin as (s' & Heq & Hs). inversion Heq; subst.
      exists pool. auto.
    - intros (pool & Hp & Hs & ->). exists pool. split; [exact Hp|].
      apply in_map_iff. exists s. auto. }
  assert (Hkey : forall s, In s (List.map fst (config_entries pools)) <->
            exists pool, In pool pools /\ In s (searchStrings pool)).
  { intros s. rewrite in_map_iff. split.
    - intros ([s' info] & Heq & Hin). simpl in Heq. subst s'.
      apply Hentry in Hin. destruct Hin as (pool & Hp & Hs & _). eauto.
    - intros (pool & Hp & Hs).
      exists (s, {| poolName := pool_poolName pool; url := pool_url pool |}).
      split; [reflexivity|]. apply Hentry. eauto. }
  unfold getPoolInfo. rewrite build_poolStrings_entries.
  pose proof (getPoolInfo_loop_result rt (tx_scriptBuffer tx)
                (for_in (build_from [] (config_entries pools)))) as L.
  cbv zeta in L. fold text in L.
  destruct (getPoolInfo_loop rt (tx_scriptBuffer tx)
              (for_in (build_from [] (config_entries pools))))
    as [[info|]|].
  - destruct L as (k & Hin & Hm). apply (proj1 (In_for_in _ _)) in Hin.
    apply In_build_from in Hin. destruct Hin as [[] | Hin].
    apply Hentry in Hin. destruct Hin as (pool & Hp & Hs & Hi).
    exists pool, k. auto.
  - intros pool s Hp Hs. apply L.
    assert (Hk : In s (List.map fst (build_from [] (config_entries pools)))).
    { apply keys_build_from_In. right. apply Hkey. eauto. }
    apply in_map_iff in Hk. destruct Hk as (e & He & Hin).
    apply in_map_iff. exists e. split; [exact He|].
    now apply (proj2 (In_for_in _ _)).
  - destruct L as (k & Hin & Hm).
    apply in_map_iff in Hin. destruct Hin as (e & He & Hin).
    apply (proj1 (In_for_in _ _)) in Hin.
    assert (Hk : In k (List.map fst (build_from [] (config_entries pools))))
      by (apply in_map_iff; exists e; auto).
    apply keys_build_from in Hk. destruct Hk as [[] | Hk].
    apply Hkey in Hk. destruct Hk as (pool & Hp & Hs). exists pool, k. auto.
Qed.

Lemma getPoolInfo_answers_configured_pool_witness :
  let pools := [example_pool "P1" "u1" ["x"%string]] in
  let tx := example_coinbase "mined by x" in
  getPoolInfo example_runtime (build_poolStrings pools) [tx]
  = Normal (Some (example_info "P1" "u1"))
  /\ exists pool s,
       In pool pools /\ In s (searchStrings pool)
       /\ example_info "P1" "u1"
          = {| poolName := pool_poolName pool; url := pool_url pool |}
       /\ String_match example_runtime
            (Buffer_toString_utf8 example_runtime (tx_scriptBuffer tx)) s
          = Normal true.
Proof.
  intros pools tx.
  assert (E : getPoolInfo example_runtime (build_poolStrings pools) [tx]
              = Normal (Some (example_info "P1" "u1")))
    by (vm_compute; reflexivity).
  split; [exact E|].
  assert (Hguard : forall pool s, In pool pools -> In s (searchStrings pool) ->
                                  s <> js "__proto__").
  { intros pool s [<- | []] [<- | []] H. vm_compute in H. discriminate. }
  pose proof (getPoolInfo_answers_configured_pool
                example_runtime pools tx [] Hguard) as H.
  cbv zeta in H. rewrite E in H. exact H.
Defined.

(** ** What the caches hold *)

Lemma keys_remove_key {V} k (l : list (jsstring * V)) :
  List.map fst (remove_key k l)
  = filter (fun k' => negb (jsstring_eqb k' k)) (List.map fst l).
Proof.
  induction l as [|[k0 v0] l IH]; simpl; [reflexivity|].
  destruct (jsstring_eqb k0 k); simpl; now rewrite IH.
Qed.

Lemma remove_key_absent {V} k (l : list (jsstring * V)) :
  ~ In k (List.map fst (remove_key k l)).
Proof.
  rewrite keys_remove_key. intros H. apply filter_In in H.
  destruct H as [_ H]. now rewrite jsstring_eqb_refl in H.
Qed.

Lemma remove_key_NoDup {V} k (l : list (jsstring * V)) :
  NoDup (List.map fst l) -> NoDup (List.map fst (remove_key k l)).
Proof. rewrite keys_remove_key. apply NoDup_filter. Qed.

Lemma remove_key_length {V} k (l : list (jsstring * V)) :
  (List.length (remove_key k l) <= List.length l)%nat.
Proof. apply filter_length_le. Qed.

Lemma remove_key_length_hit {V} k (l : list (jsstring * V)) v :
  obj_get l k = Some v ->
  (S (List.length (remove_key k l)) <= List.length l)%nat.
Proof.
  induction l as [|[k0 v0] l IH]; simpl; [discriminate|].
  destruct (jsstring_eqb k0 k); simpl.
  - intros _. pose proof (remove_key_length k l). lia.
  - intros H. specialize (IH H). lia.
Qed.

Lemma In_remove_key {V} k (l : list (jsstring * V)) e :
  In e (remove_key k l) -> In e l.
Proof. unfold remove_key. intros H. apply filter_In in H. tauto. Qed.

Lemma obj_get_remove_key {V} k k' (l : list (jsstring * V)) :
  k' <> k -> obj_get (remove_key k l) k' = obj_get l k'.
Proof.
  intros Hne. induction l as [|[k0 v0] l IH]; simpl; [reflexivity|].
  destruct (jsstring_eqb k0 k) eqn:E; simpl.
  - apply jsstring_eqb_eq in E. subst k0.
    assert (E' : jsstring_eqb k k' = false)
      by (apply jsstring_eqb_neq; congruence).
    now rewrite E'.
  - now rewrite IH.
Qed.

Lemma In_firstn {A} n (l : list A) x : In x (firstn n l) -> In x l.
Proof.
  intros H. rewrite <- (firstn_skipn n l). apply in_or_app. now left.
Qed.

Lemma NoDup_firstn {A} n (l : list A) : NoDup l -> NoDup (firstn n l).
Proof.
  revert l. induction n as [|n IH]; intros l H; simpl; [constructor|].
  destruct l as [|x l]; [constructor|].
  inversion H; subst. constructor.
  - intros Hin. apply H2. eapply In_firstn; eauto.
  - auto.
Qed.

Lemma In_trim {V} max (l : list (jsstring * V)) e :
  In e (trim max l) -> In e l.
Proof.
  destruct max; simpl; [auto|]. apply In_firstn.
Qed.

Lemma LRU_get_wf {V} (c : LRU V) k : LRU_wf c -> LRU_wf (snd (LRU_get c k)).
Proof.
  intros [Hnd Hlen]. rewrite LRU_get_peek. unfold LRU_peek.
  destruct (obj_get (lru_list c) k) as [v|] eqn:G; simpl; [|split; auto].
  split; simpl.
  - constructor; [apply remove_key_absent | now apply remove_key_NoDup].
  - intros Hmax. specialize (Hlen Hmax).
    pose proof (remove_key_length_hit k (lru_list c) v G). lia.
Qed.

Lemma LRU_set_wf {V} (c : LRU V) k v : LRU_wf c -> LRU_wf (LRU_set c k v).
Proof.
  intros [Hnd Hlen]. unfold LRU_set, LRU_wf. simpl.
  assert (Hfull : NoDup (List.map fst ((k, v) :: remove_key k (lru_list c)))).
  { simpl.
    constructor; [apply remove_key_absent | now apply remove_key_NoDup]. }
  destruct (lru_max c) as [|p] eqn:M; simpl.
  - split; [exact Hfull | congruence].
  - split.
    + rewrite <- firstn_map. now apply NoDup_firstn.
    + intros _. apply firstn_le_length.
Qed.

Lemma LRU_mutate_wf {V} (c : LRU V) k f : LRU_wf c -> LRU_wf (LRU_mutate c k f).
Proof.
  intros [Hnd Hlen]. unfold LRU_mutate, LRU_wf. simpl.
  assert (Hk : List.map fst
                 (List.map (fun e => if jsstring_eqb (fst e) k
                                     then (fst e, f (snd e)) else e)
                           (lru_list c))
               = List.map fst (lru_list c)).
  { rewrite map_map. apply map_ext. intros [k0 v0]. simpl.
    now destruct (jsstring_eqb k0 k). }
  rewrite Hk, length_map. auto.
Qed.

Lemma transformBlock_isMainChain rt self blk info trx b :
  transformBlock rt self blk info trx = Normal b ->
  BlockDetail.isMainChain b = negb (BlockDetail.confirmations b =? -1).
Proof.
  unfold transformBlock.
  destruct (getPoolInfo rt (poolStrings self) (Block.transactions blk));
    [|discriminate].
  intros H. inversion H. reflexivity.
Qed.

(** The controller a block lookup leaves behind. *)
Lemma block_state rt self hash node :
  let self' := snd (run node (block rt self hash)) in
  blockCacheConfirmations self' = blockCacheConfirmations self
  /\ poolStrings self' = poolStrings self
  /\ blockSummaryCache self' = blockSummaryCache self
  /\ (blockCache self' = blockCache self
      \/ (exists c, blockCache self'
                    = LRU_mutate (snd (LRU_get (blockCache self) hash)) hash
                        (BlockDetail.set_confirmations c))
      \/ (exists b blk info trx,
            transformBlock rt self blk info trx = Normal b
            /\ fst (run node (block rt self hash)) = Next b
            /\ BlockDetail.confirmations b >= blockCacheConfirmations self
            /\ blockCache self' = LRU_set (blockCache self) hash b)).
Proof.
  unfold block. rewrite LRU_get_peek.
  destruct (LRU_peek (blockCache self) hash) as [cached|] eqn:P; simpl.
  { split; [reflexivity|]. split; [reflexivity|]. split; [reflexivity|].
    right. left. eexists. reflexivity. }
  destruct (reply node _ (node_getBlock hash)) as [err | blk].
  { destruct (not_found_code err); simpl; intuition. }
  simpl. destruct (reply node _ (bitcoind_getBlockHeader hash)) as [err | info];
    [simpl; intuition|].
  destruct (Block.transactions blk) as [|tx0 txs] eqn:Etx;
    [simpl; intuition|].
  simpl.
  destruct (transformBlock rt self blk info _) as [b|] eqn:T;
    [|simpl; intuition].
  simpl.
  destruct (BlockDetail.confirmations b >=? blockCacheConfirmations self) eqn:G.
  - split; [reflexivity|]. split; [reflexivity|]. split; [reflexivity|].
    right. right. exists b. do 3 eexists.
    split; [exact T|]. split; [reflexivity|].
    rewrite Z.geb_leb in G. apply Z.leb_le in G. split; [lia | reflexivity].
  - split; [reflexivity|]. split; [reflexivity|]. split; [reflexivity|].
    left. reflexivity.
Qed.

Lemma main_chain_only_mutate c k conf :
  main_chain_only c ->
  main_chain_only (LRU_mutate c k (BlockDetail.set_confirmations conf)).
Proof.
  intros H k' b Hin. unfold LRU_mutate in Hin. simpl in Hin.
  apply in_map_iff in Hin. destruct Hin as ([k0 b0] & Heq & Hin0).
  simpl in Heq. destruct (jsstring_eqb k0 k); inversion Heq; subst.
  - simpl. eapply H; eauto.
  - eapply H; eauto.
Qed.

Lemma main_chain_only_get c k :
  main_chain_only c -> main_chain_only (snd (LRU_get c k)).
Proof.
  intros H. rewrite LRU_get_peek. unfold LRU_peek.
  destruct (obj_get (lru_list c) k) as [v|] eqn:G; simpl; [|exact H].
  intros k' b [Heq | Hin].
  - inversion Heq; subst.
    assert (Hin : In (k', b) (lru_list c)).
    { clear - G. induction (lru_list c) as [|[k0 v0] l IH]; simpl in *;
        [discriminate|].
      destruct (jsstring_eqb k0 k') eqn:E.
      - apply jsstring_eqb_eq in E. inversion G; subst. now left.
      - right. auto. }
    eapply H; eauto.
  - apply In_remove_key in Hin. eapply H; eauto.
Qed.

Lemma main_chain_only_set c k b :
  main_chain_only c -> BlockDetail.isMainChain b = true ->
  main_chain_only (LRU_set c k b).
Proof.
  intros H Hb k' b' Hin. unfold LRU_set in Hin. simpl in Hin.
  apply In_trim in Hin. destruct Hin as [Heq | Hin].
  - now inversion Heq; subst.
  - apply In_remove_key in Hin. eapply H; eauto.
Qed.

Lemma block_keeps_cache_ok rt self hash node :
  block_cache_ok self ->
  block_cache_ok (snd (run node (block rt self hash)))
  /\ lru_max (blockCache (snd (run node (block rt self hash))))
     = lru_max (blockCache self).
Proof.
  intros (Hsix & Hwf & Hmc).
  destruct (block_state rt self hash node)
    as (Hc & _ & _
        & [Hsame | [(c & Hmut)
                   | (b & blk & info & trx & T & _ & Hge & Hset)]]).
  - rewrite Hsame. unfold block_cache_ok. rewrite Hc, Hsame. auto.
  - unfold block_cache_ok. rewrite Hc, Hmut. split; [split; [auto|split]|].
    + apply LRU_mutate_wf. now apply LRU_get_wf.
    + apply main_chain_only_mutate. now apply main_chain_only_get.
    + simpl. rewrite LRU_get_peek.
      now destruct (LRU_peek (blockCache self) hash).
  - unfold block_cache_ok. rewrite Hc, Hset. split; [split; [auto|split]|].
    + now apply LRU_set_wf.
    + apply main_chain_only_set; [exact Hmc|].
      rewrite (transformBlock_isMainChain _ _ _ _ _ _ T).
      apply negb_true_iff. apply Z.eqb_neq. lia.
    + reflexivity.
Qed.

(** ** The calls a request makes *)

Lemma calls_bind {A B} (node : Node) (p : prog A) (f : A -> prog B) :
  calls node (bind p f) = calls node p ++ calls node (f (run node p)).
Proof.
  induction p as [a | R c k IH]; simpl; [reflexivity|]. now rewrite IH.
Qed.

Lemma LRU_peek_get {V} (c : LRU V) k k' :
  LRU_peek (snd (LRU_get c k)) k' = LRU_peek c k'.
Proof.
  rewrite LRU_get_peek. destruct (LRU_peek c k) as [v|] eqn:P; [|reflexivity].
  unfold LRU_peek in *. simpl.
  destruct (jsstring_eqb k k') eqn:E.
  - apply jsstring_eqb_eq in E. now subst.
  - apply jsstring_eqb_neq in E. apply obj_get_remove_key. congruence.
Qed.

Lemma obj_get_In {V} (l : list (jsstring * V)) k v :
  obj_get l k = Some v -> In (k, v) l.
Proof.
  induction l as [|[k0 v0] l IH]; simpl; [discriminate|].
  destruct (jsstring_eqb k0 k) eqn:E.
  - apply jsstring_eqb_eq in E. intros H. inversion H; subst. now left.
  - intros H. right. auto.
Qed.

(** A summary found in the cache: no call, the cached value is passed. *)
Lemma summary_hit rt self cache hash ts cached :
  LRU_peek cache hash = Some cached ->
  _getBlockSummary rt self cache hash ts
  = Ret (finish ts (snd (LRU_get cache hash)) cached).
Proof.
  intros P. unfold _getBlockSummary. rewrite LRU_get_peek, P. reflexivity.
Qed.

Lemma block_hit_calls rt self hash node cached :
  LRU_peek (blockCache self) hash = Some cached ->
  calls node (block rt self hash) = [Event bitcoind_height].
Proof.
  intros P. unfold block. rewrite LRU_get_peek, P. reflexivity.
Qed.

Lemma block_miss_calls rt self hash node :
  LRU_peek (blockCache self) hash = None ->
  exists rest,
    calls node (block rt self hash) = Event (node_getBlock hash) :: rest.
Proof.
  intros P. unfold block. rewrite LRU_get_peek, P. simpl. eauto.
Qed.

Lemma summary_miss_calls rt self cache hash ts node :
  LRU_peek cache hash = None ->
  exists rest,
    calls node (_getBlockSummary rt self cache hash ts)
    = Event (bitcoind_getRawBlock hash) :: rest.
Proof.
  intros P. unfold _getBlockSummary. rewrite LRU_get_peek, P. simpl. eauto.
Qed.

(** X6. A block found in the block cache costs one read of the tip height
    and no other call; a block that is not there starts with the node's
    getBlock.  A summary found in the summary cache costs no call at all
    and is passed on as cached; one that is not there starts with
    bitcoind's getRawBlock. *)
Theorem cache_hits_spare_the_node rt self hash node :
  (forall cached, LRU_peek (blockCache self) hash = Some cached ->
     calls node (block rt self hash) = [Event bitcoind_height])
  /\ (LRU_peek (blockCache self) hash = None ->
      exists rest,
        calls node (block rt self hash) = Event (node_getBlock hash) :: rest)
  /\ (forall cache ts cached,
        LRU_peek cache hash = Some cached ->
        calls node (_getBlockSummary rt self cache hash ts) = []
        /\ passed (run node (_getBlockSummary rt self cache hash ts))
           = Normal (inr cached))
  /\ (forall cache ts,
        LRU_peek cache hash = None ->
        exists rest,
          calls node (_getBlockSummary rt self cache hash ts)
          = Event (bitcoind_getRawBlock hash) :: rest).
Proof.
  split; [|split; [|split]].
  - intros cached. apply block_hit_calls.
  - apply block_miss_calls.
  - intros cache ts cached P.
    rewrite (summary_hit rt self cache hash ts cached P). auto.
  - intros cache ts. apply summary_miss_calls.
Qed.

(** The series of summaries over hashes that are all cached. *)
Lemma list_summaries_warm rt self ts node hashes : forall cache,
  (forall h, In h hashes -> LRU_peek cache h <> None) ->
  exists summaries cache',
    run node (list_summaries rt self ts hashes cache)
    = (Normal (inr summaries), cache')
    /\ calls node (list_summaries rt self ts hashes cache) = []
    /\ Forall2 (fun h s => LRU_peek cache h = Some s) hashes summaries
    /\ forall k, LRU_peek cache' k = LRU_peek cache k.
Proof.
  unfold list_summaries.
  induction hashes as [|h rest IH]; intros cache Hall.
  - exists [], cache. simpl.
    split; [reflexivity|]. split; [reflexivity|]. split; [constructor | auto].
  - destruct (LRU_peek cache h) as [s|] eqn:P;
      [|exfalso; apply (Hall h); [left; reflexivity | exact P]].
    destruct (IH (snd (LRU_get cache h)))
      as (ss & cache' & Hrun & Hcalls & Hall2 & Hpeek).
    { intros h' Hin. rewrite LRU_peek_get. apply Hall. now right. }
    exists (s :: ss), cache'.
    cbn [mapSeries]. rewrite run_bind, calls_bind.
    rewrite (summary_hit rt self cache h ts s P). simpl.
    rewrite run_bind, calls_bind, Hrun, Hcalls. simpl.
    split; [reflexivity|]. split; [reflexivity|]. split.
    + constructor; [exact P|].
      eapply Forall2_impl; [|exact Hall2].
      intros a b Hab. simpl in Hab. now rewrite LRU_peek_get in Hab.
    + intros k. now rewrite Hpeek, LRU_peek_get.
Qed.

Lemma list_calls rt self query node dateStr isToday hashes :
  resolve_date rt query = Some (dateStr, isToday) ->
  reply node _ (bitcoind_getBlockHashesByTimestamp
                  (list_lte rt query dateStr) (list_gte rt dateStr))
  = inr hashes ->
  calls node (prototype.list rt self query)
  = Event (bitcoind_getBlockHashesByTimestamp
             (list_lte rt query dateStr) (list_gte rt dateStr))
    :: calls node
         (list_summaries rt self (list_lte rt query dateStr)
            (snd (retained_hashes (list_limit query) hashes))
            (blockSummaryCache self)).
Proof.
  intros Hd Hr. unfold prototype.list. rewrite Hd. simpl. rewrite Hr.
  destruct (retained_hashes (list_limit query) hashes) as [more kept].
  rewrite calls_bind. simpl.
  destruct (run node (list_summaries rt self (list_lte rt query dateStr) kept
                        (blockSummaryCache self)))
    as [[[err | blocks] |] cache]; simpl; now rewrite app_nil_r.
Qed.

(** X7. A listing whose retained hashes are all in the summary cache makes
    one call, getBlockHashesByTimestamp, and answers with the cached
    summaries of these hashes, sorted. *)
Theorem warm_listing_calls_the_node_once
    rt self query node dateStr isToday hashes :
  resolve_date rt query = Some (dateStr, isToday) ->
  reply node _ (bitcoind_getBlockHashesByTimestamp
                  (list_lte rt query dateStr) (list_gte rt dateStr))
  = inr hashes ->
  (forall h, In h (snd (retained_hashes (list_limit query) hashes)) ->
             LRU_peek (blockSummaryCache self) h <> None) ->
  calls node (prototype.list rt self query)
  = [Event (bitcoind_getBlockHashesByTimestamp
              (list_lte rt query dateStr) (list_gte rt dateStr))]
  /\ exists data summaries,
       fst (run node (prototype.list rt self query)) = Next data
       /\ ListData.blocks data = sort_blocks summaries
       /\ Forall2 (fun h s => LRU_peek (blockSummaryCache self) h = Some s)
            (snd (retained_hashes (list_limit query) hashes)) summaries.
Proof.
  intros Hd Hr Hall.
  destruct (list_summaries_warm rt self (list_lte rt query dateStr) node
              _ _ Hall) as (ss & cache' & Hrun & Hcalls & Hall2 & _).
  split.
  - rewrite (list_calls rt self query node dateStr isToday hashes Hd Hr).
    now rewrite Hcalls.
  - pose proof (list_outcome rt self query node dateStr isToday hashes Hd Hr)
      as Hout. cbv zeta in Hout. rewrite Hrun in Hout. simpl in Hout.
    destruct Hout as (data & Hnext & Hblocks & _).
    exists data, ss. auto.
Qed.

Lemma warm_listing_calls_the_node_once_witness :
  let node := example_node 2000 None None None [js "100"; js "101"] in
  let query := example_query "2024-01-01" None in
  let warm :=
    snd (run node
           (prototype.list example_runtime example_controller query)) in
  calls node (prototype.list example_runtime warm query)
  = [Event (bitcoind_getBlockHashesByTimestamp
              (Int 1704153600) (Int 1704067200))].
Proof.
  intros node query warm.
  destruct (warm_listing_calls_the_node_once
              example_runtime warm query node (js "2024-01-01") false
              [js "100"; js "101"]) as [Hcalls _].
  - vm_compute. reflexivity.
  - reflexivity.
  - intros h Hin. vm_compute in Hin.
    destruct Hin as [<- | [<- | []]]; vm_compute; discriminate.
  - exact Hcalls.
Defined.

(** ** The blocks of a listing *)

Lemma summaries_keyed_get c k :
  summaries_keyed c -> summaries_keyed (snd (LRU_get c k)).
Proof.
  intros H. rewrite LRU_get_peek. unfold LRU_peek.
  destruct (obj_get (lru_list c) k) as [v|] eqn:G; simpl; [|exact H].
  intros k' s [Heq | Hin].
  - inversion Heq; subst. apply H. now apply obj_get_In.
  - apply In_remove_key in Hin. now apply H.
Qed.

Lemma summaries_keyed_set c k s :
  summaries_keyed c -> Summary.hash s = k -> summaries_keyed (LRU_set c k s).
Proof.
  intros H Hs k' s' Hin. unfold LRU_set in Hin. simpl in Hin.
  apply In_trim in Hin. destruct Hin as [Heq | Hin].
  - now inversion Heq; subst.
  - apply In_remove_key in Hin. now apply H.
Qed.

(** A summary that is passed on bears the hash it was asked for, and the
    cache stays keyed. *)
Lemma summary_result_keyed rt self cache hash ts node :
  summaries_keyed cache ->
  let r := run node (_getBlockSummary rt self cache hash ts) in
  summaries_keyed (summaryCache_after r)
  /\ forall s, passed r = Normal (inr s) -> Summary.hash s = hash.
Proof.
  intros Hk. unfold _getBlockSummary. rewrite LRU_get_peek.
  destruct (LRU_peek cache hash) as [cached|] eqn:P; simpl.
  { split.
    - pose proof (summaries_keyed_get cache hash Hk) as H.
      rewrite LRU_get_peek, P in H. exact H.
    - intros s H. inversion H; subst. apply Hk. now apply obj_get_In. }
  destruct (reply node _ (bitcoind_getRawBlock hash)) as [err | raw];
    [simpl; split; [exact Hk | discriminate]|].
  simpl. destruct (reply node _ (client_getBlock hash)) as [err | txs];
    [simpl; split; [exact Hk | discriminate]|].
  simpl. destruct (reply node _ (getDetailedTransaction _)) as [err | outputs];
    simpl;
    (destruct (reply node _ (bitcoind_getBlockHeader hash)) as [err' | info];
     [simpl; split; [exact Hk | discriminate]|]);
    [simpl; split; [exact Hk | discriminate]|].
  destruct (getPoolInfo rt (poolStrings self) [RawBlock.coinbase raw])
    as [pool|]; [|simpl; split; [exact Hk | discriminate]].
  simpl.
  destruct (reply node _ bitcoind_height - Info.height info + 1
            >=? blockCacheConfirmations self).
  - split.
    + now apply summaries_keyed_set.
    + intros s H. inversion H. reflexivity.
  - split; [exact Hk|]. intros s H. inversion H. reflexivity.
Qed.

Lemma list_summaries_keyed rt self ts node hashes : forall cache r cache',
  summaries_keyed cache ->
  run node (list_summaries rt self ts hashes cache) = (r, cache') ->
  summaries_keyed cache'
  /\ forall summaries, r = Normal (inr summaries) ->
                       List.map Summary.hash summaries = hashes.
Proof.
  unfold list_summaries.
  induction hashes as [|h rest IH]; intros cache r cache' Hk; simpl.
  - intros H. inversion H; subst. split; [exact Hk|].
    intros ss Hs. now inversion Hs.
  - rewrite !run_bind. simpl.
    destruct (summary_result_keyed rt self cache h ts node Hk) as [Hk1 Hh].
    destruct (passed (run node (_getBlockSummary rt self cache h ts)))
      as [[err | s]|] eqn:Ep; simpl.
    + intros H. inversion H; subst. split; [exact Hk1 | discriminate].
    + rewrite run_bind.
      destruct (run node
                  (mapSeries
                     (fun hash cache0 =>
                        bind (_getBlockSummary rt self cache0 hash ts)
                             (fun r0 => Ret (passed r0, summaryCache_after r0)))
                     rest
                     (summaryCache_after
                        (run node (_getBlockSummary rt self cache h ts)))))
        as [r' c'] eqn:E.
      destruct (IH _ _ _ Hk1 E) as [Hk2 Hrest].
      destruct r' as [[err | ss]|]; simpl; intros H; inversion H; subst;
        (split; [exact Hk2|]); try discriminate.
      intros summaries Hs. inversion Hs; subst. simpl.
      rewrite (Hh s eq_refl). f_equal. now apply Hrest.
    + intros H. inversion H; subst. split; [exact Hk1 | discriminate].
Qed.

Lemma insert_by_height_perm x l : Permutation (insert_by_height x l) (x :: l).
Proof.
  induction l as [|y l IH]; simpl; [apply Permutation_refl|].
  destruct (Summary.height y <=? Summary.height x); [apply Permutation_refl|].
  eapply Permutation_trans; [apply perm_skip; exact IH | apply perm_swap].
Qed.

Lemma sort_blocks_perm blocks : Permutation (sort_blocks blocks) blocks.
Proof.
  induction blocks as [|x l IH]; simpl; [constructor|].
  eapply Permutation_trans; [apply insert_by_height_perm|].
  now apply perm_skip.
Qed.

(** X8. A listing that answers holds the blocks of the hashes it retained,
    each once and no other (the hashes of its blocks are a permutation of
    the retained hashes), in descending order of height, with the length
    field counting them; and the summary cache it leaves keeps every
    summary under its own hash. *)
Theorem listing_holds_the_retained_blocks
    rt self query node dateStr isToday hashes data :
  resolve_date rt query = Some (dateStr, isToday) ->
  reply node _ (bitcoind_getBlockHashesByTimestamp
                  (list_lte rt query dateStr) (list_gte rt dateStr))
  = inr hashes ->
  summaries_keyed (blockSummaryCache self) ->
  fst (run node (prototype.list rt self query)) = Next data ->
  Permutation (List.map Summary.hash (ListData.blocks data))
              (snd (retained_hashes (list_limit query) hashes))
  /\ Sorted descending (ListData.blocks data)
  /\ ListData.length data = Z.of_nat (List.length (ListData.blocks data))
  /\ summaries_keyed
       (blockSummaryCache (snd (run node (prototype.list rt self query)))).
Proof.
  intros Hd Hr Hk Hnext.
  unfold prototype.list in *. rewrite Hd in *. simpl in *. rewrite Hr in *.
  destruct (retained_hashes (list_limit query) hashes) as [more kept].
  rewrite run_bind in *. simpl.
  destruct (run node (list_summaries rt self (list_lte rt query dateStr) kept
                        (blockSummaryCache self)))
    as [r cache] eqn:E.
  destruct (list_summaries_keyed rt self _ node kept _ r cache Hk E)
    as [Hk' Hhashes].
  destruct r as [[err | blocks]|]; simpl in *; try discriminate.
  inversion Hnext; subst data. simpl.
  split; [|split; [|split]].
  - rewrite <- (Hhashes blocks eq_refl).
    apply Permutation_map. apply sort_blocks_perm.
  - apply sort_blocks_sorted.
  - reflexivity.
  - exact Hk'.
Qed.

Lemma listing_holds_the_retained_blocks_witness :
  let node :=
    example_node 2000 None None None [js "100"; js "101"; js "102"] in
  let query := example_query "2024-01-01" (Some "2"%string) in
  exists data,
    fst (run node (prototype.list example_runtime example_controller query))
    = Next data
    /\ Permutation (List.map Summary.hash (ListData.blocks data))
         [js "102"; js "101"]
    /\ Sorted descending (ListData.blocks data).
Proof.
  intros node query.
  destruct (fst (run node
                   (prototype.list example_runtime example_controller
                      query)))
    as [data | err |] eqn:E; [|vm_compute in E; discriminate ..].
  exists data. split; [reflexivity|].
  destruct (listing_holds_the_retained_blocks
              example_runtime example_controller query node
              (js "2024-01-01") false [js "100"; js "101"; js "102"] data)
    as (Hperm & Hsorted & _).
  - vm_compute. reflexivity.
  - reflexivity.
  - intros k s [].
  - exact E.
  - split; [exact Hperm | exact Hsorted].
Defined.

(** ** The caches over any sequence of requests *)

Lemma summary_cache_ok_get bound c k :
  summary_cache_ok bound c -> summary_cache_ok bound (snd (LRU_get c k)).
Proof.
  intros (Hm & Hwf & Hk). split; [|split].
  - rewrite LRU_get_peek. now destruct (LRU_peek c k).
  - now apply LRU_get_wf.
  - now apply summaries_keyed_get.
Qed.

Lemma summary_cache_ok_set bound c k s :
  summary_cache_ok bound c -> Summary.hash s = k ->
  summary_cache_ok bound (LRU_set c k s).
Proof.
  intros (Hm & Hwf & Hk) Hs. split; [|split].
  - exact Hm.
  - now apply LRU_set_wf.
  - now apply summaries_keyed_set.
Qed.

Lemma summary_keeps_cache_ok bound rt self cache hash ts node :
  summary_cache_ok bound cache ->
  summary_cache_ok bound
    (summaryCache_after (run node (_getBlockSummary rt self cache hash ts))).
Proof.
  intros Hok. unfold _getBlockSummary.
  pose proof (summary_cache_ok_get bound cache hash Hok) as Hget.
  rewrite LRU_get_peek in *.
  destruct (LRU_peek cache hash) as [cached|] eqn:P; simpl; [exact Hget|].
  destruct (reply node _ (bitcoind_getRawBlock hash)) as [err | raw];
    [exact Hok|].
  simpl. destruct (reply node _ (client_getBlock hash)) as [err | txs];
    [exact Hok|].
  simpl. destruct (reply node _ (getDetailedTransaction _)) as [err | outputs];
    simpl;
    (destruct (reply node _ (bitcoind_getBlockHeader hash)) as [err' | info];
     [exact Hok|]); [exact Hok|].
  destruct (getPoolInfo rt (poolStrings self) [RawBlock.coinbase raw])
    as [pool|]; [|exact Hok].
  simpl.
  destruct (reply node _ bitcoind_height - Info.height info + 1
            >=? blockCacheConfirmations self); [|exact Hok].
  now apply summary_cache_ok_set.
Qed.

Lemma list_summaries_keep_cache_ok bound rt self ts node hashes :
  forall cache,
    summary_cache_ok bound cache ->
    summary_cache_ok bound
      (snd (run node (list_summaries rt self ts hashes cache))).
Proof.
  unfold list_summaries.
  induction hashes as [|h rest IH]; intros cache Hok; simpl; [exact Hok|].
  rewrite !run_bind. simpl.
  pose proof (summary_keeps_cache_ok bound rt self cache h ts node Hok) as H1.
  destruct (passed (run node (_getBlockSummary rt self cache h ts)))
    as [[err | s]|]; simpl; try exact H1.
  rewrite run_bind. specialize (IH _ H1).
  destruct (run node
              (mapSeries
                 (fun hash cache0 =>
                    bind (_getBlockSummary rt self cache0 hash ts)
                         (fun r0 => Ret (passed r0, summaryCache_after r0)))
                 rest
                 (summaryCache_after
                    (run node (_getBlockSummary rt self cache h ts)))))
    as [[[err | ss]|] c']; simpl in *; exact IH.
Qed.

(** The controller a listing leaves behind. *)
Lemma list_state bound rt self query node :
  summary_cache_ok bound (blockSummaryCache self) ->
  let self' := snd (run node (prototype.list rt self query)) in
  blockCacheConfirmations self' = blockCacheConfirmations self
  /\ poolStrings self' = poolStrings self
  /\ blockCache self' = blockCache self
  /\ summary_cache_ok bound (blockSummaryCache self').
Proof.
  intros Hok. unfold prototype.list.
  destruct (resolve_date rt query) as [[dateStr isToday]|]; simpl; [|auto].
  destruct (reply node _ (bitcoind_getBlockHashesByTimestamp _ _))
    as [err | hashes]; simpl; [auto|].
  destruct (retained_hashes (list_limit query) hashes) as [more kept].
  rewrite run_bind.
  pose proof (list_summaries_keep_cache_ok bound rt self
                (list_lte rt query dateStr) node kept _ Hok) as H.
  destruct (run node (list_summaries rt self (list_lte rt query dateStr) kept
                        (blockSummaryCache self)))
    as [[[err | blocks]|] cache]; simpl in *; auto.
Qed.

Lemma serve_keeps_ok blockBound summaryBound rt requests : forall self,
  controller_ok blockBound summaryBound self ->
  controller_ok blockBound summaryBound (serve rt requests self).
Proof.
  induction requests as [|[node [hash | query]] rest IH]; intros self Hok;
    simpl; [exact Hok | |]; apply IH.
  - destruct Hok as (Hb & Hmax & Hs).
    destruct (block_keeps_cache_ok rt self hash node Hb) as [Hb' Hmax'].
    destruct (block_state rt self hash node) as (_ & _ & Hsum & _).
    split; [exact Hb'|]. split; [congruence|]. now rewrite Hsum.
  - destruct Hok as ((Hsix & Hwf & Hmc) & Hmax & Hs).
    destruct (list_state summaryBound rt self query node Hs)
      as (Hc & _ & Hbc & Hs').
    split; [|split; [|exact Hs']].
    + unfold block_cache_ok. rewrite Hc, Hbc. auto.
    + now rewrite Hbc.
Qed.

(** X9. After any sequence of block lookups and listings served by a
    controller from its construction on, against any nodes: neither cache
    holds more entries than its configured size (1000 blocks and 1000000
    summaries when the option is absent or 0), no hash is cached twice,
    every cached block has isMainChain = true (an orphaned block, whose
    confirmations are -1, is never cached), every cached summary is the
    summary of the hash it is stored under, and the confirmation
    threshold is still 6. *)
Theorem caches_stay_within_bounds rt pools options requests :
  let self := serve rt requests (new_BlockController pools options) in
  let blockBound := size_or (blockCacheSize options) DEFAULT_BLOCK_CACHE_SIZE in
  let summaryBound :=
    size_or (blockSummaryCacheSize options) DEFAULT_BLOCKSUMMARY_CACHE_SIZE in
  ((List.length (lru_list (blockCache self)) <= N.to_nat blockBound)%nat
   /\ NoDup (List.map fst (lru_list (blockCache self)))
   /\ forall k b, In (k, b) (lru_list (blockCache self)) ->
                  BlockDetail.isMainChain b = true)
  /\ ((List.length (lru_list (blockSummaryCache self))
       <= N.to_nat summaryBound)%nat
      /\ NoDup (List.map fst (lru_list (blockSummaryCache self)))
      /\ forall k s, In (k, s) (lru_list (blockSummaryCache self)) ->
                     Summary.hash s = k)
  /\ blockCacheConfirmations self = 6.
Proof.
  intros self blockBound summaryBound.
  assert (Hb : blockBound <> 0%N).
  { unfold blockBound, size_or, DEFAULT_BLOCK_CACHE_SIZE.
    destruct (blockCacheSize options) as [[|p]|]; discriminate. }
  assert (Hs : summaryBound <> 0%N).
  { unfold summaryBound, size_or, DEFAULT_BLOCKSUMMARY_CACHE_SIZE.
    destruct (blockSummaryCacheSize options) as [[|p]|]; discriminate. }
  assert (Hinit : controller_ok blockBound summaryBound
                    (new_BlockController pools options)).
  { split; [|split].
    - split; [reflexivity|]. split.
      + split; simpl; [constructor | intros _; lia].
      + intros k b [].
    - reflexivity.
    - split; [reflexivity|]. split.
      + split; simpl; [constructor | intros _; lia].
      + intros k s []. }
  destruct (serve_keeps_ok blockBound summaryBound rt requests _ Hinit)
    as ((Hsix & [Hnd Hlen] & Hmc) & Hmax & (Hsmax & [Hsnd Hslen] & Hkey)).
  fold self in Hsix, Hnd, Hlen, Hmc, Hmax, Hsmax, Hsnd, Hslen, Hkey.
  rewrite Hmax in Hlen. rewrite Hsmax in Hslen.
  split; [|split]; [split; [|split] | split; [|split] |]; auto.
Qed.

(** ** Where a listing stops, and how many blocks it holds *)

Lemma mapSeries_calls_stop {X Y S} (node : Node)
    (f : X -> S -> prog (completion (Error + Y) * S)) pre x post :
  forall s ys s1,
    run node (mapSeries f pre s) = (Normal (inr ys), s1) ->
    succeeded (fst (run node (f x s1))) = false ->
    calls node (mapSeries f (pre ++ x :: post) s)
    = calls node (mapSeries f pre s) ++ calls node (f x s1).
Proof.
  induction pre as [|p pre IH]; intros s ys s1; simpl.
  - intros H Hx. inversion H; subst. rewrite calls_bind.
    destruct (run node (f x s1)) as [[[e | y]|] s2]; simpl in *;
      try discriminate; now rewrite app_nil_r.
  - rewrite !run_bind, !calls_bind.
    destruct (run node (f p s)) as [[[e | y]|] s2]; simpl; try discriminate.
    rewrite !run_bind, !calls_bind.
    destruct (run node (mapSeries f pre s2)) as [[[e | ys']|] s3] eqn:E;
      simpl; try discriminate.
    intros H Hx. inversion H; subst.
    rewrite (IH s2 ys' s1 E Hx).
    assert (Hend : calls node
                     match run node (mapSeries f (pre ++ x :: post) s2) with
                     | (Normal (inl err), s0) => Ret (Normal (inl err), s0)
                     | (Normal (inr ys), s0) =>
                         Ret (Normal (inr (y :: ys)), s0)
                     | (Throw, s0) => Ret (Throw, s0)
                     end = []).
    { destruct (run node (mapSeries f (pre ++ x :: post) s2))
        as [[[e | zs]|] s4]; reflexivity. }
    rewrite Hend, !app_nil_r, <- app_assoc. reflexivity.
Qed.

(** X10. The summaries of a listing are built one after the other, and the
    first hash whose summary is not passed on ends the calls: the listing
    calls getBlockHashesByTimestamp, then what the summaries before that
    hash call, then what the failing summary calls, and nothing for the
    hashes after it. *)
Theorem listing_stops_at_first_failure
    rt self query node dateStr isToday hashes pre x post summaries cache :
  resolve_date rt query = Some (dateStr, isToday) ->
  reply node _ (bitcoind_getBlockHashesByTimestamp
                  (list_lte rt query dateStr) (list_gte rt dateStr))
  = inr hashes ->
  snd (retained_hashes (list_limit query) hashes) = pre ++ x :: post ->
  run node (list_summaries rt self (list_lte rt query dateStr) pre
              (blockSummaryCache self))
  = (Normal (inr summaries), cache) ->
  succeeded (passed (run node (_getBlockSummary rt self cache x
                                 (list_lte rt query dateStr)))) = false ->
  calls node (prototype.list rt self query)
  = Event (bitcoind_getBlockHashesByTimestamp
             (list_lte rt query dateStr) (list_gte rt dateStr))
    :: calls node (list_summaries rt self (list_lte rt query dateStr) pre
                     (blockSummaryCache self))
    ++ calls node (_getBlockSummary rt self cache x
                     (list_lte rt query dateStr)).
Proof.
  intros Hd Hr Hkept Hpre Hx.
  rewrite (list_calls rt self query node dateStr isToday hashes Hd Hr).
  rewrite Hkept. f_equal. unfold list_summaries in *.
  rewrite (mapSeries_calls_stop node _ pre x post _ summaries cache Hpre).
  - f_equal. rewrite calls_bind. simpl. now rewrite app_nil_r.
  - rewrite run_bind. simpl. exact Hx.
Qed.

Lemma listing_stops_at_first_failure_witness :
  let node :=
    example_node 2000 None (Some connection_error) None
      [js "100"; js "101"] in
  let query := example_query "2024-01-01" None in
  calls node (prototype.list example_runtime example_controller query)
  = [Event (bitcoind_getBlockHashesByTimestamp
              (Int 1704153600) (Int 1704067200));
     Event (bitcoind_getRawBlock (js "101"))].
Proof.
  intros node query.
  rewrite (listing_stops_at_first_failure
             example_runtime example_controller query node
             (js "2024-01-01") false [js "100"; js "101"]
             [] (js "101") [js "100"] []
             (blockSummaryCache example_controller)).
  - vm_compute. reflexivity.
  - vm_compute. reflexivity.
  - reflexivity.
  - vm_compute. reflexivity.
  - reflexivity.
  - vm_compute. reflexivity.
Defined.

Lemma retained_hashes_kept limit hashes :
  let len := Z.of_nat (List.length hashes) in
  retained_hashes limit hashes
  = (match limit with
     | Int n => n <? len
     | NaN => false
     end,
     firstn (Z.to_nat (kept_count limit len)) (rev hashes)).
Proof.
  intros len. unfold retained_hashes, kept_count, slice0.
  rewrite length_rev. fold len.
  assert (Hall : firstn (Z.to_nat len) (rev hashes) = rev hashes).
  { apply firstn_all2. rewrite length_rev. unfold len. lia. }
  destruct limit as [n|]; [|now rewrite Hall].
  rewrite Z.gtb_ltb. destruct (n <? len) eqn:E; [|now rewrite Hall].
  apply Z.ltb_lt in E. f_equal. destruct (n <? 0) eqn:E0.
  - reflexivity.
  - apply Z.ltb_ge in E0. now rewrite Z.min_l by lia.
Qed.

Lemma kept_count_bounds limit len :
  0 <= len -> 0 <= kept_count limit len <= len.
Proof.
  intros Hl. unfold kept_count. destruct limit as [n|]; [|lia].
  destruct (n <? len) eqn:E; [|lia]. apply Z.ltb_lt in E.
  destruct (n <? 0) eqn:E0; [lia|]. apply Z.ltb_ge in E0. lia.
Qed.

Lemma list_limit_default query :
  truthy (limit query) = false -> list_limit query = Int 200.
Proof. intros H. unfold list_limit. now rewrite H. Qed.

(** X11. How many blocks a listing holds.  With len hashes in the range
    and the parsed limit n: when n is not below len, or is not a number,
    the listing holds all len blocks and more = false; otherwise more =
    true and it holds the first n of the hashes taken in reverse order,
    none for n = 0, and for a negative n all but the last -n of them (slice
    counts a negative end from the end).  Without a limit in the query it
    holds min(200, len) blocks. *)
Theorem listing_size rt self query node dateStr isToday hashes data :
  resolve_date rt query = Some (dateStr, isToday) ->
  reply node _ (bitcoind_getBlockHashesByTimestamp
                  (list_lte rt query dateStr) (list_gte rt dateStr))
  = inr hashes ->
  fst (run node (prototype.list rt self query)) = Next data ->
  let len := Z.of_nat (List.length hashes) in
  ListData.length data = kept_count (list_limit query) len
  /\ snd (retained_hashes (list_limit query) hashes)
     = firstn (Z.to_nat (kept_count (list_limit query) len)) (rev hashes)
  /\ Pagination.more (ListData.pagination data)
     = match list_limit query with
       | Int n => n <? len
       | NaN => false
       end
  /\ (truthy (limit query) = false ->
      ListData.length data = Z.min 200 len).
Proof.
  intros Hd Hr Hnext len.
  pose proof (list_outcome rt self query node dateStr isToday hashes Hd Hr)
    as Hout. cbv zeta in Hout.
  pose proof (retained_hashes_kept (list_limit query) hashes) as Hkept.
  cbv zeta in Hkept. fold len in Hkept.
  destruct (run node
              (list_summaries rt self (list_lte rt query dateStr)
                 (snd (retained_hashes (list_limit query) hashes))
                 (blockSummaryCache self)))
    as [[[err | blocks]|] cache] eqn:E; simpl in Hout.
  - rewrite Hout in Hnext. discriminate.
  - destruct Hout as (data' & Hd' & Hblocks & Hmore & _).
    rewrite Hd' in Hnext. inversion Hnext; subst data'.
    assert (Hlen : ListData.length data
                   = kept_count (list_limit query) len).
    { unfold prototype.list in Hd'. rewrite Hd in Hd'. simpl in Hd'.
      rewrite Hr in Hd'.
      destruct (retained_hashes (list_limit query) hashes) as [more kept]
        eqn:Er.
      rewrite run_bind in Hd'. simpl in E. rewrite E in Hd'. simpl in Hd'.
      inversion Hd'. simpl.
      rewrite sort_blocks_length.
      unfold list_summaries in E.
      rewrite (mapSeries_length node _ kept _ blocks cache E).
      inversion Hkept; subst kept.
      rewrite length_firstn, length_rev.
      pose proof (kept_count_bounds (list_limit query) len ltac:(lia)).
      unfold len in *. lia. }
    split; [exact Hlen|]. split; [now rewrite Hkept|]. split.
    + rewrite Hmore, Hkept. reflexivity.
    + intros Hdef. rewrite Hlen, (list_limit_default query Hdef).
      unfold kept_count. destruct (200 <? len) eqn:E2.
      * apply Z.ltb_lt in E2. simpl. lia.
      * apply Z.ltb_ge in E2. lia.
  - rewrite Hout in Hnext. discriminate.
Qed.

Lemma listing_size_witness :
  let node :=
    example_node 2000 None None None [js "100"; js "101"; js "102"] in
  let query := example_query "2024-01-01" (Some "2"%string) in
  exists data,
    fst (run node (prototype.list example_runtime example_controller query))
    = Next data
    /\ ListData.length data = 2
    /\ Pagination.more (ListData.pagination data) = true.
Proof.
  intros node query.
  destruct (fst (run node
                   (prototype.list example_runtime example_controller
                      query)))
    as [data | err |] eqn:E; [|vm_compute in E; discriminate ..].
  exists data. split; [reflexivity|].
  destruct (listing_size
              example_runtime example_controller query node
              (js "2024-01-01") false [js "100"; js "101"; js "102"] data)
    as (Hlen & _ & Hmore & _).
  - vm_compute. reflexivity.
  - reflexivity.
  - exact E.
  - split; [rewrite Hlen | rewrite Hmore]; vm_compute; reflexivity.
Defined.

(** ** Errors the summary builder does not look at *)

Lemma mapSeries_first_throw {X Y S} (node : Node)
    (f : X -> S -> prog (completion (Error + Y) * S)) pre x post :
  forall s ys s1,
    run node (mapSeries f pre s) = (Normal (inr ys), s1) ->
    fst (run node (f x s1)) = Throw ->
    run node (mapSeries f (pre ++ x :: post) s)
    = (Throw, snd (run node (f x s1))).
Proof.
  induction pre as [|p pre IH]; intros s ys s1; simpl.
  - intros H Hx. inversion H; subst. rewrite run_bind.
    destruct (run node (f x s1)) as [r s2]. simpl in *. now subst r.
  - rewrite !run_bind. destruct (run node (f p s)) as [[[e | y] |] s2];
      simpl; try discriminate.
    rewrite !run_bind.
    destruct (run node (mapSeries f pre s2)) as [[[e | ys'] |] s3] eqn:E;
      simpl; try discriminate.
    intros H Hx. inversion H; subst.
    now rewrite (IH s2 ys' s1 E Hx).
Qed.

(** The first call of the summary builder answered, the second failing. *)
Lemma summary_client_error rt self cache hash ts node raw err :
  LRU_peek cache hash = None ->
  reply node _ (bitcoind_getRawBlock hash) = inr raw ->
  reply node _ (client_getBlock hash) = inl err ->
  run node (_getBlockSummary rt self cache hash ts)
  = {| passed := Throw; moreTimestamp_local := ts;
       summaryCache_after := cache |}
  /\ calls node (_getBlockSummary rt self cache hash ts)
     = [Event (bitcoind_getRawBlock hash); Event (client_getBlock hash)].
Proof.
  intros Hmiss Hr Hc. unfold _getBlockSummary. rewrite LRU_get_peek, Hmiss.
  simpl. rewrite Hr. simpl. rewrite Hc. split; reflexivity.
Qed.

Lemma summary_transaction_error rt self cache hash ts node raw txs err info :
  LRU_peek cache hash = None ->
  reply node _ (bitcoind_getRawBlock hash) = inr raw ->
  reply node _ (client_getBlock hash) = inr txs ->
  reply node _ (getDetailedTransaction
                  match txs with
                  | [] => Undefined
                  | h :: _ => Str h
                  end) = inl err ->
  reply node _ (bitcoind_getBlockHeader hash) = inr info ->
  run node (_getBlockSummary rt self cache hash ts)
  = {| passed := Throw; moreTimestamp_local := ts;
       summaryCache_after := cache |}.
Proof.
  intros Hmiss Hr Hc Ht Hh. unfold _getBlockSummary.
  rewrite LRU_get_peek, Hmiss.
  simpl. rewrite Hr. simpl. rewrite Hc. simpl. rewrite Ht, Hh. reflexivity.
Qed.

(** X12. The summary builder never looks at the error of client.getBlock
    nor at the error of getDetailedTransaction.  When client.getBlock
    fails, reading the transaction list of the missing response raises an
    exception: nothing is passed on, the cache is untouched and no
    further call is made.  When getDetailedTransaction fails and
    getBlockHeader answers, the loop over the outputs of the missing
    transaction raises one.  A listing in which this happens sends no
    answer at all, neither blocks nor an error. *)
Theorem unchecked_errors_raise rt self node :
  (forall cache hash ts raw err,
     LRU_peek cache hash = None ->
     reply node _ (bitcoind_getRawBlock hash) = inr raw ->
     reply node _ (client_getBlock hash) = inl err ->
     run node (_getBlockSummary rt self cache hash ts)
     = {| passed := Throw; moreTimestamp_local := ts;
          summaryCache_after := cache |}
     /\ calls node (_getBlockSummary rt self cache hash ts)
        = [Event (bitcoind_getRawBlock hash); Event (client_getBlock hash)])
  /\ (forall cache hash ts raw txs err info,
        LRU_peek cache hash = None ->
        reply node _ (bitcoind_getRawBlock hash) = inr raw ->
        reply node _ (client_getBlock hash) = inr txs ->
        reply node _ (getDetailedTransaction
                        match txs with
                        | [] => Undefined
                        | h :: _ => Str h
                        end) = inl err ->
        reply node _ (bitcoind_getBlockHeader hash) = inr info ->
        run node (_getBlockSummary rt self cache hash ts)
        = {| passed := Throw; moreTimestamp_local := ts;
             summaryCache_after := cache |})
  /\ (forall query dateStr isToday hashes pre x post summaries cache,
        resolve_date rt query = Some (dateStr, isToday) ->
        reply node _ (bitcoind_getBlockHashesByTimestamp
                        (list_lte rt query dateStr) (list_gte rt dateStr))
        = inr hashes ->
        snd (retained_hashes (list_limit query) hashes) = pre ++ x :: post ->
        run node (list_summaries rt self (list_lte rt query dateStr) pre
                    (blockSummaryCache self))
        = (Normal (inr summaries), cache) ->
        passed (run node (_getBlockSummary rt self cache x
                            (list_lte rt query dateStr)))
        = Throw ->
        fst (run node (prototype.list rt self query)) = Uncaught).
Proof.
  split; [|split].
  - intros cache hash ts raw err. apply summary_client_error.
  - intros cache hash ts raw txs err info. apply summary_transaction_error.
  - intros query dateStr isToday hashes pre x post summaries cache
      Hd Hr Hkept Hpre Hx.
    pose proof (list_outcome rt self query node dateStr isToday hashes Hd Hr)
      as Hout. cbv zeta in Hout.
    rewrite Hkept in Hout. unfold list_summaries in Hout, Hpre.
    rewrite (mapSeries_first_throw node _ pre x post _ summaries cache Hpre)
      in Hout.
    + exact Hout.
    + rewrite run_bind. exact Hx.
Qed.

(** ** Following moreTs *)

Lemma parseInt_negative (n : Z) :
  0 < n -> parseInt (45%N :: decimal n) = Int (- n).
Proof.
  intros Hn.
  pose proof (parseInt_decimal n ltac:(lia)) as Hdec.
  unfold Number_toString in Hdec.
  assert (E : (n <? 0) = false) by (apply Z.ltb_ge; lia).
  rewrite E in Hdec.
  destruct (digits_aux_head (Z.to_nat (Z.log2 n)) n []
              (decimal_fuel n ltac:(lia)))
    as (d & rest & Heq & Hd & Hzero).
  unfold decimal, digits in *. rewrite Heq in *.
  destruct (digit_cases d Hd)
    as [-> | [-> | [-> | [-> | [-> | [-> | [-> | [-> | [-> | ->]]]]]]]]];
    try (unfold parseInt in *; simpl trim_start in *; cbv zeta in *;
         simpl in Hdec |- *; now rewrite Hdec).
  destruct (Hzero eq_refl) as [-> _]. lia.
Qed.

Lemma parseInt_Number_toString (x : number) :
  parseInt (Number_toString x) = x.
Proof.
  destruct x as [n|]; [|reflexivity].
  destruct (Z.ltb_spec n 0) as [Hneg | Hpos].
  - unfold Number_toString.
    assert (E : (n <? 0) = true) by (apply Z.ltb_lt; lia). rewrite E.
    rewrite parseInt_negative by lia. f_equal. lia.
  - now apply parseInt_decimal.
Qed.

Lemma number_or_idem (a b : number) :
  number_or (number_or a b) b = number_or a b.
Proof.
  unfold number_or. destruct (number_truthy a) eqn:E; [now rewrite E|].
  now destruct (number_truthy b).
Qed.

Lemma list_lte_follow rt query dateStr :
  list_lte rt (follow query (list_lte rt query dateStr)) dateStr
  = list_lte rt query dateStr.
Proof.
  unfold list_lte at 1. unfold follow at 1.
  cbn [startTimestamp ToString].
  rewrite parseInt_Number_toString. unfold list_lte. apply number_or_idem.
Qed.

(** X13. A listing gives moreTs only together with more = true, and, for a
    moreTs among the integers a number holds exactly (or NaN), the request
    that follows it, the same query with that moreTs as startTimestamp, is
    the very request already made: the same calls with the same arguments
    and the same answer, for any state of the caches.  Following moreTs
    never reaches the blocks that were cut off. *)
Theorem following_moreTs_repeats_the_page rt self query node data ts :
  fst (run node (prototype.list rt self query)) = Next data ->
  Pagination.moreTs (ListData.pagination data) = Some ts ->
  safe_integer ts ->
  Pagination.more (ListData.pagination data) = true
  /\ forall self',
       prototype.list rt self' (follow query ts)
       = prototype.list rt self' query.
Proof.
  intros Hnext Hts _.
  assert (Hlte : exists dateStr isToday,
            resolve_date rt query = Some (dateStr, isToday)
            /\ ts = list_lte rt query dateStr
            /\ Pagination.more (ListData.pagination data) = true).
  { unfold prototype.list in Hnext.
    destruct (resolve_date rt query) as [[dateStr isToday]|];
      [|discriminate].
    exists dateStr, isToday. split; [reflexivity|].
    simpl in Hnext.
    destruct (reply node _ (bitcoind_getBlockHashesByTimestamp _ _))
      as [err | hashes]; [discriminate|].
    destruct (retained_hashes (list_limit query) hashes) as [more kept].
    rewrite run_bind in Hnext.
    destruct (run node (list_summaries rt self (list_lte rt query dateStr)
                          kept (blockSummaryCache self)))
      as [[[err | blocks]|] cache]; simpl in Hnext; try discriminate.
    inversion Hnext; subst data. simpl in Hts |- *.
    destruct more; [|discriminate]. inversion Hts. split; reflexivity. }
  destruct Hlte as (dateStr & isToday & Hd & -> & Hmore).
  split; [exact Hmore|].
  intros self'. unfold prototype.list.
  assert (Hd' : resolve_date rt (follow query (list_lte rt query dateStr))
                = resolve_date rt query) by reflexivity.
  rewrite Hd', Hd.
  assert (Hl : list_limit (follow query (list_lte rt query dateStr))
               = list_limit query) by reflexivity.
  rewrite Hl, list_lte_follow. reflexivity.
Qed.

Lemma following_moreTs_repeats_the_page_witness :
  let node :=
    example_node 2000 None None None [js "100"; js "101"; js "102"] in
  let query := example_query "2024-01-01" (Some "2"%string) in
  startTimestamp (follow query (Int 1704153600)) = Some (js "1704153600")
  /\ prototype.list example_runtime example_controller
       (follow query (Int 1704153600))
     = prototype.list example_runtime example_controller query.
Proof.
  intros node query. split; [vm_compute; reflexivity|].
  destruct (fst (run node
                   (prototype.list example_runtime example_controller
                      query)))
    as [data | err |] eqn:E; [|vm_compute in E; discriminate ..].
  apply (following_moreTs_repeats_the_page
           example_runtime example_controller query node data
           (Int 1704153600) E).
  - vm_compute in E. injection E as <-. reflexivity.
  - simpl. lia.
Defined.

(** ** The block lookup and the summary builder on one block *)

Lemma getPoolInfo_script rt strings tx tx' rest rest' :
  tx_scriptBuffer tx = tx_scriptBuffer tx' ->
  getPoolInfo rt strings (tx :: rest) = getPoolInfo rt strings (tx' :: rest').
Proof. intros H. unfold getPoolInfo. now rewrite H. Qed.

(** X14. The block lookup and the summary builder attribute one block
    alike.  When neither finds the hash in its cache, the node gives both
    the same coinbase script and the same first transaction, and both
    answer, then the block detail and the summary carry the same miner
    address, the same pool and the same height; the sizes are the ones the
    node reported to each, and the summary bears the hash it was asked
    for. *)
Theorem block_and_summary_agree
    rt self cache node hash ts blk raw txs tx0 rest b s :
  LRU_peek (blockCache self) hash = None ->
  LRU_peek cache hash = None ->
  reply node _ (node_getBlock hash) = inr blk ->
  Block.transactions blk = tx0 :: rest ->
  reply node _ (bitcoind_getRawBlock hash) = inr raw ->
  tx_scriptBuffer (RawBlock.coinbase raw) = tx_scriptBuffer tx0 ->
  reply node _ (client_getBlock hash) = inr txs ->
  hd_error txs = Some (tx_hash tx0) ->
  fst (run node (block rt self hash)) = Next b ->
  passed (run node (_getBlockSummary rt self cache hash ts))
  = Normal (inr s) ->
  BlockDetail.minedBy b = Summary.minedBy s
  /\ BlockDetail.poolInfo b = Summary.poolInfo s
  /\ BlockDetail.height b = Summary.height s
  /\ BlockDetail.size b = Block.size blk
  /\ Summary.size s = RawBlock.length raw
  /\ Summary.hash s = hash.
Proof.
  intros Hmb Hms Hb Htx Hraw Hscript Hc Hhd Hblock Hsum.
  unfold block in Hblock. rewrite LRU_get_peek, Hmb in Hblock.
  simpl in Hblock. rewrite Hb in Hblock. simpl in Hblock.
  unfold _getBlockSummary in Hsum. rewrite LRU_get_peek, Hms in Hsum.
  simpl in Hsum. rewrite Hraw in Hsum. simpl in Hsum.
  rewrite Hc in Hsum. simpl in Hsum.
  destruct txs as [|h txs']; [discriminate|].
  inversion Hhd; subst h.
  destruct (reply node _ (bitcoind_getBlockHeader hash)) as [err | info];
    [discriminate|].
  rewrite Htx in Hblock. simpl in Hblock.
  destruct (reply node _ (getDetailedTransaction (Str (tx_hash tx0))))
    as [err | outputs]; [discriminate|].
  rewrite (getPoolInfo_script rt (poolStrings self) _ tx0 [] rest Hscript)
    in Hsum.
  unfold transformBlock in Hblock. rewrite Htx in Hblock.
  destruct (getPoolInfo rt (poolStrings self) (tx0 :: rest)) as [pool|];
    [|discriminate].
  simpl in Hblock, Hsum.
  inversion Hblock; subst b. clear Hblock.
  destruct (reply node _ bitcoind_height - Info.height info + 1
            >=? blockCacheConfirmations self);
    inversion Hsum; subst s; simpl; auto 10.
Qed.

Lemma block_and_summary_agree_witness :
  let node := example_node 105 None None None [] in
  exists b s,
    fst (run node (block example_runtime example_controller (js "100")))
    = Next b
    /\ passed (run node
                 (_getBlockSummary example_runtime example_controller
                    (blockSummaryCache example_controller) (js "100")
                    (Int 0)))
       = Normal (inr s)
    /\ BlockDetail.minedBy b = Summary.minedBy s
    /\ BlockDetail.minedBy b = Str (js "B").
Proof.
  intros node.
  destruct (fst (run node
                   (block example_runtime example_controller (js "100"))))
    as [b | err |] eqn:Eb; [|vm_compute in Eb; discriminate ..].
  destruct (passed
              (run node
                 (_getBlockSummary example_runtime example_controller
                    (blockSummaryCache example_controller) (js "100")
                    (Int 0))))
    as [[err | s]|] eqn:Es;
    [vm_compute in Es; discriminate | | vm_compute in Es; discriminate].
  exists b, s. split; [reflexivity|]. split; [reflexivity|].
  destruct (block_and_summary_agree
              example_runtime example_controller
              (blockSummaryCache example_controller) node (js "100")
              (Int 0) (example_block (js "100"))
              {| RawBlock.length := 1500;
                 RawBlock.time := 1704067300;
                 RawBlock.txlength := 1;
                 RawBlock.coinbase := example_coinbase "mined by x" |}
              [js "c0"] (example_coinbase "mined by x") [] b s)
    as (Hmined & _).
  - vm_compute. reflexivity.
  - vm_compute. reflexivity.
  - reflexivity.
  - reflexivity.
  - vm_compute. reflexivity.
  - reflexivity.
  - reflexivity.
  - reflexivity.
  - exact Eb.
  - exact Es.
  - split; [exact Hmined|].
    vm_compute in Eb. injection Eb as <-. reflexivity.
Defined.

(** ** A date that passes the pattern and is no date *)

(** X15. A date that passes the pattern and that Date cannot parse (a
    month 13, say) is not refused.  Without a usable startTimestamp the
    node is asked for the hashes between NaN and NaN, and a listing that
    answers has next = null, prev = the text NaN-NaN-NaN, currentTs = NaN
    and the date as it was given. *)
Theorem unparseable_date_reaches_the_node
    rt self query node dateStr isToday :
  resolve_date rt query = Some (dateStr, isToday) ->
  Date_parse rt dateStr = NaN ->
  number_truthy (parseInt (ToString (startTimestamp query))) = false ->
  (exists k,
     prototype.list rt self query
     = Call (bitcoind_getBlockHashesByTimestamp NaN NaN) k)
  /\ forall data,
       fst (run node (prototype.list rt self query)) = Next data ->
       Pagination.next (ListData.pagination data) = Null
       /\ Pagination.prev (ListData.pagination data) = js "NaN-NaN-NaN"
       /\ Pagination.currentTs (ListData.pagination data) = NaN
       /\ Pagination.current (ListData.pagination data) = dateStr.
Proof.
  intros Hd Hparse Hst.
  assert (Hgte : list_gte rt dateStr = NaN)
    by (unfold list_gte; now rewrite Hparse).
  assert (Hlte : list_lte rt query dateStr = NaN)
    by (unfold list_lte, number_or; now rewrite Hst, Hgte).
  split.
  - unfold prototype.list. rewrite Hd. cbv zeta. rewrite Hgte, Hlte.
    eexists. reflexivity.
  - intros data Hnext. unfold prototype.list in Hnext. rewrite Hd in Hnext.
    cbv zeta in Hnext. rewrite Hgte, Hlte in Hnext. simpl in Hnext.
    destruct (reply node _ (bitcoind_getBlockHashesByTimestamp NaN NaN))
      as [err | hashes]; [discriminate|].
    destruct (retained_hashes (list_limit query) hashes) as [more kept].
    rewrite run_bind in Hnext.
    destruct (run node (list_summaries rt self NaN kept
                          (blockSummaryCache self)))
      as [[[err | blocks]|] cache]; simpl in Hnext; try discriminate.
    inversion Hnext; subst data. simpl.
    split; [reflexivity|]. split; [reflexivity|]. split; reflexivity.
Qed.

Lemma unparseable_date_reaches_the_node_witness :
  let query := example_query "2024-13-45" None in
  datePattern_test (js "2024-13-45") = true
  /\ exists k,
       prototype.list example_runtime example_controller query
       = Call (bitcoind_getBlockHashesByTimestamp NaN NaN) k.
Proof.
  intros query. split; [reflexivity|].
  apply (proj1 (unparseable_date_reaches_the_node
                  example_runtime example_controller query
                  (example_node 0 None None None []) (js "2024-13-45") false
                  ltac:(vm_compute; reflexivity)
                  ltac:(vm_compute; reflexivity)
                  ltac:(vm_compute; reflexivity))).
Defined.

(** ** formatTimestamp and the date pattern *)

Lemma all_from_spec P n : forall lo,
  all_from P lo n = true ->
  forall z, lo <= z < lo + Z.of_nat n -> P z = true.
Proof.
  induction n as [|n IH]; intros lo H z Hz; [lia|].
  cbn [all_from] in H. destruct (P lo) eqn:E; [|discriminate].
  destruct (Z.eq_dec z lo) as [-> | Hne]; [exact E|].
  apply (IH (lo + 1) H). lia.
Qed.

Lemma era_dates_ok : all_from era_date_ok 0 (Z.to_nat 146097) = true.
Proof. vm_compute. reflexivity. Qed.

Lemma years_ok : all_from year_digits_ok 0 (Z.to_nat 10000) = true.
Proof. vm_compute. reflexivity. Qed.

Lemma pads_ok : all_from pad2_ok 1 31 = true.
Proof. vm_compute. reflexivity. Qed.

Lemma utc_date_era ms :
  let z := ms / 86400000 + 719468 in
  let era := z / 146097 in
  utc_date ms
  = (let '(y, m, d) := era_date (z - era * 146097) in (y + era * 400, m, d)).
Proof.
  intros z era. unfold utc_date, era_date. fold z. fold era.
  cbv zeta. f_equal. f_equal. lia.
Qed.

Lemma datePattern_test_length s :
  datePattern_test s = true -> (10 <= List.length s)%nat.
Proof.
  induction s as [|c s IH]; [discriminate|].
  cbn [datePattern_test]. intros H. apply orb_true_iff in H.
  destruct H as [H | H].
  - do 9 (destruct s as [|? s]; [discriminate|]). simpl. lia.
  - specialize (IH H). simpl. lia.
Qed.

Lemma is_digits_length2 s :
  is_digits s = true -> List.length s = 2%nat ->
  exists a b, s = [a; b] /\ is_digit a = true /\ is_digit b = true.
Proof.
  intros Hd Hl. destruct s as [|a [|b [|c s]]]; try discriminate.
  simpl in Hd. rewrite !andb_true_iff in Hd. exists a, b. tauto.
Qed.

(** The year, month and day of a time value between the years 0 and 9999. *)
Lemma utc_date_bounds ms :
  -62167219200000 <= ms < 253402300800000 ->
  exists y m d,
    utc_date ms = (y, m, d)
    /\ 1 <= m <= 12 /\ 1 <= d <= 31
    /\ 0 <= y <= 9999
    /\ (ms < -30610224000000 <-> y < 1000).
Proof.
  intros Hms. rewrite utc_date_era. cbv zeta.
  set (z := ms / 86400000 + 719468).
  set (era := z / 146097).
  assert (Hz : -60 <= z < 3652365).
  { unfold z.
    assert (-719528 <= ms / 86400000)
      by (apply Z.div_le_lower_bound; lia).
    assert (ms / 86400000 < 2932897)
      by (apply Z.div_lt_upper_bound; lia).
    lia. }
  assert (Hzlo : ms < -30610224000000 <-> z < 365183).
  { unfold z. split; intros H.
    - assert (ms / 86400000 < -354285)
        by (apply Z.div_lt_upper_bound; lia). lia.
    - destruct (Z.lt_ge_cases ms (-30610224000000)) as [Hl | Hl]; [exact Hl|].
      assert (-354285 <= ms / 86400000)
        by (apply Z.div_le_lower_bound; lia). lia. }
  pose proof (Z.div_mod z 146097 ltac:(lia)) as Hdm.
  pose proof (Z.mod_pos_bound z 146097 ltac:(lia)) as Hmod.
  fold era in Hdm.
  assert (Hdoe : z - era * 146097 = z mod 146097) by lia.
  set (doe := z - era * 146097) in *.
  assert (Hera : -1 <= era <= 24) by lia.
  pose proof (all_from_spec era_date_ok _ 0 era_dates_ok doe ltac:(lia)) as Hok.
  unfold era_date_ok in Hok.
  destruct (era_date doe) as [[y m] d].
  rewrite !andb_true_iff, !Z.leb_le in Hok.
  destruct Hok as (((((((Hm1 & Hm2) & Hd1) & Hd2) & Hy1) & Hy2) & Hlo) & Hhi).
  exists (y + era * 400), m, d. split; [reflexivity|].
  split; [lia|]. split; [lia|].
  destruct (doe <? 72989) eqn:E1; destruct (doe <? 146037) eqn:E2;
    rewrite ?Z.leb_le, ?Z.eqb_eq in Hlo, Hhi;
    rewrite ?Z.ltb_lt, ?Z.ltb_ge in E1, E2; lia.
Qed.

Lemma formatTimestamp_pattern ms :
  -62167219200000 <= ms < 253402300800000 ->
  (-30610224000000 <= ms ->
   List.length (formatTimestamp (Int ms)) = 10%nat
   /\ datePattern_test (formatTimestamp (Int ms)) = true)
  /\ (ms < -30610224000000 ->
      datePattern_test (formatTimestamp (Int ms)) = false).
Proof.
  intros Hms.
  destruct (utc_date_bounds ms Hms)
    as (y & m & d & Hdate & Hm & Hd & Hy & Hlo).
  unfold formatTimestamp. rewrite Hdate.
  pose proof (all_from_spec year_digits_ok _ 0 years_ok y ltac:(lia)) as Hyd.
  pose proof (all_from_spec pad2_ok _ 1 pads_ok m ltac:(lia)) as Hmd.
  pose proof (all_from_spec pad2_ok _ 1 pads_ok d ltac:(lia)) as Hdd.
  unfold year_digits_ok in Hyd. unfold pad2_ok in Hmd, Hdd.
  apply andb_true_iff in Hyd, Hmd, Hdd.
  destruct Hyd as [Hyd Hyl]. destruct Hmd as [Hmd Hml].
  destruct Hdd as [Hdd Hdl].
  apply Nat.eqb_eq in Hml, Hdl.
  destruct (is_digits_length2 _ Hmd Hml) as (m1 & m2 & -> & Hm1 & Hm2).
  destruct (is_digits_length2 _ Hdd Hdl) as (d1 & d2 & -> & Hd1 & Hd2).
  split.
  - intros Hge. assert (E : (y <? 1000) = false) by (apply Z.ltb_ge; lia).
    rewrite E in Hyl. apply Nat.eqb_eq in Hyl.
    destruct (Number_toString (Int y)) as [|a [|b [|c [|e [|? ?]]]]];
      try discriminate.
    simpl in Hyd. rewrite !andb_true_iff in Hyd.
    destruct Hyd as (Ha & Hb & Hc & He & _).
    split; [reflexivity|].
    cbn [app js List.map list_ascii_of_string datePattern_test
         datePattern_here].
    rewrite Ha, Hb, Hc, He, Hm1, Hm2, Hd1, Hd2. reflexivity.
  - intros Hlt. assert (E : (y <? 1000) = true) by (apply Z.ltb_lt; lia).
    rewrite E in Hyl. apply Nat.leb_le in Hyl.
    apply not_true_is_false. intros H.
    apply datePattern_test_length in H.
    change (js "-") with [45%N] in H.
    rewrite !length_app in H. cbn [List.length] in H. lia.
Qed.

Lemma formatTimestamp_truthy date :
  truthy (Some (formatTimestamp date)) = true.
Proof.
  unfold formatTimestamp.
  destruct date as [ms|]; [destruct (utc_date ms) as [[y m] d]|];
    cbv zeta beta iota.
  - destruct (Number_toString (Int y)); reflexivity.
  - reflexivity.
Qed.

(** X16. For every time value of the years 0 to 9999, the text
    formatTimestamp builds passes the date pattern of the listing exactly
    when the year has four digits: from the year 1000 on it has ten
    characters, the month and the day padded to two digits, and is
    accepted as blockDate; before the year 1000 the year is not padded and
    the text is refused. *)
Theorem formatTimestamp_and_datePattern ms :
  -62167219200000 <= ms < 253402300800000 ->
  let text := formatTimestamp (Int ms) in
  (-30610224000000 <= ms ->
   List.length text = 10%nat
   /\ datePattern_test text = true
   /\ forall rt query,
        blockDate query = Some text ->
        exists isToday, resolve_date rt query = Some (text, isToday))
  /\ (ms < -30610224000000 ->
      datePattern_test text = false
      /\ forall rt self query,
           blockDate query = Some text ->
           prototype.list rt self query
           = Ret (HandleErrors (Some format_error), self)).
Proof.
  intros Hms text. destruct (formatTimestamp_pattern ms Hms) as [Hnew Hold].
  fold text in Hnew, Hold. split.
  - intros Hge. destruct (Hnew Hge) as [Hlen Hpat].
    split; [exact Hlen|]. split; [exact Hpat|].
    intros rt query Hq. unfold resolve_date. rewrite Hq.
    unfold text at 1. rewrite formatTimestamp_truthy.
    cbn [ToString]. rewrite Hpat. cbn [negb]. eexists. reflexivity.
  - intros Hlt. pose proof (Hold Hlt) as Hpat. split; [exact Hpat|].
    intros rt self query Hq. apply list_format_error; rewrite Hq.
    + apply formatTimestamp_truthy.
    + exact Hpat.
Qed.

Lemma formatTimestamp_and_datePattern_witness :
  formatTimestamp (Int 1704067200000) = js "2024-01-01"
  /\ datePattern_test (formatTimestamp (Int 1704067200000)) = true
  /\ datePattern_test (formatTimestamp (Int (-30610224000001))) = false.
Proof.
  split; [reflexivity|]. split.
  - apply (formatTimestamp_and_datePattern 1704067200000); lia.
  - apply (formatTimestamp_and_datePattern (-30610224000001)); lia.
Defined.

(** ** The raw block as hexadecimal text *)

Lemma hex_bytes_ok : all_from hex_byte_ok 0 256 = true.
Proof. vm_compute. reflexivity. Qed.

Lemma hex_byte_shape b :
  (b < 256)%N ->
  exists c1 c2 hi lo,
    hex_byte b = [c1; c2]
    /\ is_lower_hex c1 = true /\ is_lower_hex c2 = true
    /\ is_hex_digit c1 = true /\ is_hex_digit c2 = true
    /\ digit_value 16 c1 = Some hi /\ digit_value 16 c2 = Some lo
    /\ Z.to_N (16 * hi + lo) = b.
Proof.
  intros Hb.
  pose proof (all_from_spec hex_byte_ok 256 0 hex_bytes_ok (Z.of_N b)
                ltac:(lia)) as H.
  unfold hex_byte_ok in H. rewrite N2Z.id in H.
  change (hex_byte b)
    with [digit_char (Z.of_N b / 16); digit_char (Z.of_N b mod 16)] in *.
  set (c1 := digit_char (Z.of_N b / 16)) in *.
  set (c2 := digit_char (Z.of_N b mod 16)) in *.
  exists c1, c2.
  cbv beta iota in H.
  destruct (digit_value 16 c1) as [hi|];
    [|now rewrite andb_false_r in H].
  destruct (digit_value 16 c2) as [lo|];
    [|now rewrite andb_false_r in H].
  exists hi, lo.
  repeat (apply andb_true_iff in H; destruct H as [H ?]).
  apply Z.eqb_eq in H0.
  assert (Hv : Z.to_N (16 * hi + lo) = b) by (rewrite H0; apply N2Z.id).
  split; [reflexivity|]. auto 10.
Qed.

Lemma Buffer_toString_hex_cons b buffer :
  Buffer_toString_hex (b :: buffer) = hex_byte b ++ Buffer_toString_hex buffer.
Proof. reflexivity. Qed.

Lemma Buffer_toString_hex_spec buffer :
  forallb is_byte buffer = true ->
  List.length (Buffer_toString_hex buffer) = (2 * List.length buffer)%nat
  /\ forallb is_lower_hex (Buffer_toString_hex buffer) = true
  /\ forallb is_hex_digit (Buffer_toString_hex buffer) = true
  /\ unhex (Buffer_toString_hex buffer) = Some buffer.
Proof.
  induction buffer as [|b buffer IH]; intros H.
  - repeat split.
  - cbn [forallb] in H. apply andb_true_iff in H. destruct H as [Hb Hrest].
    unfold is_byte in Hb. apply N.ltb_lt in Hb.
    destruct (hex_byte_shape b Hb)
      as (c1 & c2 & hi & lo & E & L1 & L2 & H1 & H2 & D1 & D2 & Hv).
    destruct (IH Hrest) as (Hlen & Hlow & Hhex & Hun).
    rewrite Buffer_toString_hex_cons, E.
    cbn [app List.length forallb unhex].
    rewrite L1, L2, H1, H2, D1, D2, Hlow, Hhex, Hun, Hv, Hlen.
    split; [lia|]. split; [reflexivity|]. split; reflexivity.
Qed.

(** X17. When getRawBlock answers with a buffer, rawBlock hands on two
    lowercase hexadecimal digits for every byte, in order: the bytes can be
    read back from the text, so that two buffers with the same text are the
    same buffer, and the text of a buffer that is not empty passes
    isHexadecimal. *)
Theorem rawBlock_hex node blockHash buffer :
  reply node _ (node_getRawBlock blockHash) = inr buffer ->
  forallb is_byte buffer = true ->
  exists text,
    run node (rawBlock blockHash) = Next text
    /\ List.length text = (2 * List.length buffer)%nat
    /\ forallb is_lower_hex text = true
    /\ unhex text = Some buffer
    /\ (buffer <> [] -> isHexadecimal text = true)
    /\ forall node' blockHash' buffer',
         reply node' _ (node_getRawBlock blockHash') = inr buffer' ->
         forallb is_byte buffer' = true ->
         run node' (rawBlock blockHash') = Next text ->
         buffer' = buffer.
Proof.
  intros Hr Hbytes.
  destruct (Buffer_toString_hex_spec buffer Hbytes)
    as (Hlen & Hlow & Hhex & Hun).
  exists (Buffer_toString_hex buffer).
  split; [unfold rawBlock; simpl; now rewrite Hr|].
  split; [exact Hlen|]. split; [exact Hlow|]. split; [exact Hun|]. split.
  - intros Hne. unfold isHexadecimal.
    destruct (Buffer_toString_hex buffer) as [|c s] eqn:E; [|exact Hhex].
    destruct buffer; [contradiction | simpl in Hlen; lia].
  - intros node' blockHash' buffer' Hr' Hbytes' Hrun.
    unfold rawBlock in Hrun. simpl in Hrun. rewrite Hr' in Hrun.
    inversion Hrun as [Heq].
    destruct (Buffer_toString_hex_spec buffer' Hbytes') as (_ & _ & _ & Hun').
    rewrite Heq, Hun in Hun'. now inversion Hun'.
Qed.

Lemma rawBlock_hex_witness :
  let node := example_node 105 None None None [] in
  run node (rawBlock (js "100")) = Next (js "0102ff")
  /\ exists text,
       run node (rawBlock (js "100")) = Next text
       /\ List.length text = 6%nat
       /\ unhex text = Some [1; 2; 255]%N.
Proof.
  intros node. split; [reflexivity|].
  destruct (rawBlock_hex node (js "100") [1; 2; 255]%N eq_refl eq_refl)
    as (text & Hrun & Hlen & _ & Hun & _).
  exists text. split; [exact Hrun|]. split; [exact Hlen | exact Hun].
Defined.

(** ** blockIndex *)

Lemma not_digit_digit_value c :
  is_digit c = false -> digit_value 10 c = None.
Proof.
  unfold is_digit, digit_value. intros H.
  cbv zeta.
  destruct ((48 <=? Z.of_N c) && (Z.of_N c <=? 57)) eqn:E.
  - apply andb_true_iff in E. destruct E as [E1 E2].
    apply Z.leb_le in E1. apply Z.leb_le in E2.
    apply andb_false_iff in H. destruct H as [H | H].
    + apply N.leb_gt in H. lia.
    + apply N.leb_gt in H. lia.
  - destruct ((97 <=? Z.of_N c) && (Z.of_N c <=? 122)) eqn:E'.
    + apply andb_true_iff in E'. destruct E' as [E1 E2].
      apply Z.leb_le in E1.
      assert (E3 : (Z.of_N c - 87 <? 10) = false) by (apply Z.ltb_ge; lia).
      now rewrite E3.
    + destruct ((65 <=? Z.of_N c) && (Z.of_N c <=? 90)) eqn:E''.
      * apply andb_true_iff in E''. destruct E'' as [E1 E2].
        apply Z.leb_le in E1.
        assert (E3 : (Z.of_N c - 55 <? 10) = false) by (apply Z.ltb_ge; lia).
        now rewrite E3.
      * reflexivity.
Qed.

(** parseInt reads the digits of a non-negative integer back, whatever
    follows them, as long as that does not start with a digit. *)
Lemma parse_digits_app (fuel : nat) : forall n acc seen,
  0 <= n < 10 ^ Z.of_nat (S fuel) ->
  parse_digits 10 (digits_aux 10 fuel n [] ++ acc) 0 seen
  = parse_digits 10 acc n true.
Proof.
  assert (Hgen : forall f n mid acc,
            digits_aux 10 f n mid ++ acc = digits_aux 10 f n (mid ++ acc)).
  { induction f as [|f IH]; intros n mid acc; simpl.
    - reflexivity.
    - destruct (n / 10 =? 0); [reflexivity|].
      now rewrite (IH (n / 10) (digit_char (n mod 10) :: mid) acc). }
  intros n acc seen Hn. rewrite (Hgen fuel n [] acc). simpl app.
  now apply parse_digits_aux.
Qed.

Lemma parseInt_decimal_prefix (n : Z) (rest : jsstring) :
  0 <= n ->
  match rest with
  | c :: _ => is_digit c = false /\ c <> 120%N /\ c <> 88%N
  | [] => True
  end ->
  parseInt (decimal n ++ rest) = Int n.
Proof.
  intros Hn Hrest.
  pose proof (parse_digits_app (Z.to_nat (Z.log2 n)) n rest false
                (decimal_fuel n Hn)) as Hparse.
  destruct (digits_aux_head (Z.to_nat (Z.log2 n)) n [] (decimal_fuel n Hn))
    as (d & tl & Heq & Hd & Hzero).
  assert (Hend : parse_digits 10 rest n true = Int n).
  { destruct rest as [|c rest']; [reflexivity|].
    destruct Hrest as (Hc & _ & _). simpl.
    now rewrite (not_digit_digit_value c Hc). }
  rewrite Hend in Hparse.
  unfold decimal, digits. rewrite Heq in *.
  destruct (digit_cases d Hd)
    as [-> | [-> | [-> | [-> | [-> | [-> | [-> | [-> | [-> | ->]]]]]]]]];
    try exact Hparse.
  destruct (Hzero eq_refl) as [-> ->].
  destruct rest as [|c rest']; [reflexivity|].
  destruct Hrest as (Hc & Hx & HX).
  unfold parseInt. simpl trim_start. cbv zeta.
  change (digit_char 0) with 48%N in *. simpl app in *.
  change (is_whitespace 48) with false. cbv iota.
  destruct c as [|p]; [exact Hparse|].
  do 7 (destruct p as [p|p|]; try exact Hparse); congruence.
Qed.

(** X18. blockIndex asks for the header at parseInt(height) without
    checking the parameter.  The decimal digits of a height n from 0 to
    2^53 - 1, the integers a number holds exactly, ask for the height n,
    whatever follows them that does not start with a digit, x or X; a
    parameter parseInt makes nothing of asks for the height NaN; and every
    error of getBlockHeader is handed on as it is: blockIndex never gives
    the not-found answer that the block lookup gives for the codes -5 and
    -8. *)
Theorem blockIndex_reads_the_height getBlockHeader :
  (forall n rest,
     0 <= n <= 9007199254740991 ->
     match rest with
     | c :: _ => is_digit c = false /\ c <> 120%N /\ c <> 88%N
     | [] => True
     end ->
     blockIndex getBlockHeader (decimal n ++ rest)
     = match getBlockHeader (Int n) with
       | inl err => HandleErrors (Some err)
       | inr info => Next (Info.hash info)
       end)
  /\ (forall height, blockIndex getBlockHeader height <> HandleErrors None)
  /\ (forall height,
        parseInt height = NaN ->
        blockIndex getBlockHeader height
        = match getBlockHeader NaN with
          | inl err => HandleErrors (Some err)
          | inr info => Next (Info.hash info)
          end).
Proof.
  split; [|split].
  - intros n rest [Hn _] Hrest. unfold blockIndex.
    now rewrite (parseInt_decimal_prefix n rest Hn Hrest).
  - intros height. unfold blockIndex.
    destruct (getBlockHeader (parseInt height)); discriminate.
  - intros height Hnan. unfold blockIndex. now rewrite Hnan.
Qed.
